(** * Conversation core of the remote coding agent

    A shallow embedding of the command parser
    ([handlers/command-handler.ts]), of the orchestrator
    ([orchestrator/orchestrator.ts]) and of the admission controller the
    entry point wraps around it, with the properties the specification
    states about them. *)

From Stdlib Require Import NArith List String Ascii Bool Lia DecimalString.
From stdpp Require Import gmap.
Import ListNotations.

Local Open Scope N_scope.
Local Open Scope list_scope.

(** ** JavaScript strings

    A JavaScript string is a sequence of UTF-16 code units.  All the string
    primitives the sources use ([startsWith], [substring], [slice], [split],
    [trim], the regular expressions without the [u] flag) work on code
    units, so that is the representation. *)

Definition jsstring := list N.

(** A literal written in ASCII. *)
Definition js (s : string) : jsstring :=
  map N_of_ascii (list_ascii_of_string s).
Arguments js s%_string.

Definition dq : N := 34.   (* the double quote *)
Definition sq : N := 39.   (* the single quote *)
Definition slash : N := 47.
Definition nl : jsstring := [10].

Fixpoint str_eqb (a b : jsstring) : bool :=
  match a, b with
  | [], [] => true
  | x :: a', y :: b' => (x =? y) && str_eqb a' b'
  | _, _ => false
  end.

(** Truthiness of a string: only the empty string is falsy. *)
Definition truthy (s : jsstring) : bool :=
  match s with [] => false | _ => true end.

(** Truthiness of a property that may be [null] or [undefined]. *)
Definition truthy_opt (o : option jsstring) : bool :=
  match o with Some s => truthy s | None => false end.

(** [a || b] on strings. *)
Definition or_else (a : option jsstring) (b : jsstring) : jsstring :=
  match a with
  | Some s => if truthy s then s else b
  | None => b
  end.

(** [s.startsWith(p)] *)
Fixpoint startsWith (p s : jsstring) : bool :=
  match p, s with
  | [], _ => true
  | x :: p', y :: s' => (x =? y) && startsWith p' s'
  | _ :: _, [] => false
  end.

(** [s.endsWith(p)] *)
Definition endsWith (p s : jsstring) : bool :=
  startsWith (rev p) (rev s).

(** [s.includes(p)] *)
Fixpoint includes (p s : jsstring) : bool :=
  startsWith p s ||
  match s with
  | [] => false
  | _ :: s' => includes p s'
  end.

(** [s.substring(1)] *)
Definition substring1 (s : jsstring) : jsstring := tl s.

(** [s.substring(0, n)] *)
Definition substring0 (n : nat) (s : jsstring) : jsstring := firstn n s.

(** [s.slice(1, -1)] *)
Definition slice_1_m1 (s : jsstring) : jsstring := removelast (tl s).

(** White space and line terminators: what [\s] matches and what [trim]
    removes. *)
Definition is_ws (c : N) : bool :=
  (9 <=? c) && (c <=? 13) || (c =? 32) || (c =? 160) || (c =? 5760)
  || (8192 <=? c) && (c <=? 8202)
  || (c =? 8232) || (c =? 8233) || (c =? 8239) || (c =? 8287)
  || (c =? 12288) || (c =? 65279).

Fixpoint trimStart (s : jsstring) : jsstring :=
  match s with
  | c :: s' => if is_ws c then trimStart s' else s
  | [] => []
  end.

Definition trimEnd (s : jsstring) : jsstring := rev (trimStart (rev s)).

(** [s.trim()] *)
Definition trim (s : jsstring) : jsstring := trimEnd (trimStart s).

(** [s.split(sep)] for a non-empty separator string: the pieces between the
    successive occurrences of [sep], scanned from the left.  [skip] counts
    the code units of a separator still to be passed over, [cur] is the
    piece being collected. *)
Fixpoint split_from (sep s : jsstring) (skip : nat) (cur : jsstring)
  : list jsstring :=
  match s with
  | [] => [cur]
  | c :: rest =>
      match skip with
      | S k => split_from sep rest k cur
      | O =>
          if startsWith sep s
          then cur :: split_from sep rest (Nat.pred (length sep)) []
          else split_from sep rest O (cur ++ [c])
      end
  end.

Definition splitOn (sep s : jsstring) : list jsstring := split_from sep s O [].

(** [s.split(/\s+/)]: the pieces between maximal runs of white space. *)
Fixpoint split_ws_from (s : jsstring) (in_sep : bool) (cur : jsstring)
  : list jsstring :=
  match s with
  | [] => [cur]
  | c :: rest =>
      if is_ws c
      then (if in_sep then split_ws_from rest true cur
            else cur :: split_ws_from rest true [])
      else split_ws_from rest false (cur ++ [c])
  end.

Definition split_ws (s : jsstring) : list jsstring := split_ws_from s false [].

(** [pieces.join(sep)] *)
Fixpoint join_with (sep : jsstring) (pieces : list jsstring) : jsstring :=
  match pieces with
  | [] => []
  | [p] => p
  | p :: ps => p ++ sep ++ join_with sep ps
  end.

Definition dollar : N := 36.

(** What [String.prototype.replace] substitutes for the occurrence it found
    when the replacement is a string: the replacement in which [$$] stands
    for a dollar sign, [$&] for the occurrence, [$`] for the text before it
    and [$'] for the text after it.  A pattern that is a string captures
    nothing, so a dollar sign before a digit or before [<] stands for
    itself, as does one before any other code unit or at the end. *)
Fixpoint getSubstitution (matched before after template : jsstring)
  : jsstring :=
  match template with
  | [] => []
  | c :: rest =>
      if c =? dollar then
        match rest with
        | [] => [dollar]
        | d :: rest' =>
            if d =? dollar
            then dollar :: getSubstitution matched before after rest'
            else if d =? 38
            then matched ++ getSubstitution matched before after rest'
            else if d =? 96
            then before ++ getSubstitution matched before after rest'
            else if d =? sq
            then after ++ getSubstitution matched before after rest'
            else dollar :: getSubstitution matched before after rest
        end
      else c :: getSubstitution matched before after rest
  end.

(** [s.replace(pat, rep)] from the position that follows [before]. *)
Fixpoint replaceFrom (pat rep before s : jsstring) : jsstring :=
  if startsWith pat s
  then getSubstitution pat before (skipn (length pat) s) rep
       ++ skipn (length pat) s
  else match s with
       | [] => []
       | c :: s' => c :: replaceFrom pat rep (before ++ [c]) s'
       end.

(** [s.replace(pat, rep)] with a string pattern and a string replacement:
    the first occurrence only. *)
Definition replaceFirst (pat rep s : jsstring) : jsstring :=
  replaceFrom pat rep [] s.

(** ** The command parser ([parseCommand]) *)

Record ParsedCommand := { command : jsstring; args : list jsstring }.

(** The scanner behind [text.match(re)] for the global regular expression
    of [parseCommand], whose three alternatives are: a double-quoted run (a
    double quote, one or more code units other than it, a double quote), a
    single-quoted run of the same shape, and a non-empty run of code units
    that are not white space.  Between two matches the expression is tried
    at every position, its alternatives in order: a quote opens a quoted
    match when at least one code unit other than that quote follows and the
    quote is closed later ([closes]); any other code unit that is not white
    space opens a run of the third alternative, which is greedy and ends at
    the next white space. *)
Inductive LexMode :=
| Between
| InQuote (q : N) (acc : jsstring)
| InBare (acc : jsstring).

Definition closes (q : N) (rest : jsstring) : bool :=
  match rest with
  | [] => false
  | c :: r => negb (c =? q) && existsb (N.eqb q) r
  end.

Fixpoint matchAll (s : jsstring) (mode : LexMode) : list jsstring :=
  match s with
  | [] => match mode with InBare acc => [acc] | _ => [] end
  | c :: rest =>
      match mode with
      | Between =>
          if is_ws c then matchAll rest Between
          else if ((c =? dq) || (c =? sq)) && closes c rest
               then matchAll rest (InQuote c [c])
               else matchAll rest (InBare [c])
      | InQuote q acc =>
          if c =? q then (acc ++ [c]) :: matchAll rest Between
          else matchAll rest (InQuote q (acc ++ [c]))
      | InBare acc =>
          if is_ws c then acc :: matchAll rest Between
          else matchAll rest (InBare (acc ++ [c]))
      end
  end.

(** The callback of [matches.slice(1).map(...)]. *)
Definition stripQuotes (arg : jsstring) : jsstring :=
  if (startsWith [dq] arg && endsWith [dq] arg)
     || (startsWith [sq] arg && endsWith [sq] arg)
  then slice_1_m1 arg
  else arg.

Definition parseCommand (text : jsstring) : ParsedCommand :=
  match matchAll text Between with
  | [] => {| command := []; args := [] |}
  | m0 :: ms =>
      if negb (truthy m0) then {| command := []; args := [] |}
      else {| command := substring1 m0; args := map stripQuotes ms |}
  end.

(** The first white-space-delimited token of a text. *)
Fixpoint takeWord (s : jsstring) : jsstring :=
  match s with
  | c :: s' => if is_ws c then [] else c :: takeWord s'
  | [] => []
  end.

Fixpoint dropWord (s : jsstring) : jsstring :=
  match s with
  | c :: s' => if is_ws c then s else dropWord s'
  | [] => []
  end.

Definition firstToken (text : jsstring) : jsstring := takeWord (trimStart text).

(** ** Records of the store and of the backend stream *)

Record Conversation := {
  conv_id : jsstring;
  platform_type : jsstring;
  platform_conversation_id : jsstring;
  conv_codebase_id : option jsstring;
  conv_cwd : option jsstring;
  conv_ai_assistant_type : jsstring
}.

Record CommandDef := { cmd_path : jsstring; cmd_description : jsstring }.

(** [commands] is the JSON object of a codebase row, as its entries. *)
Record Codebase := {
  cb_id : jsstring;
  cb_name : jsstring;
  repository_url : option jsstring;
  default_cwd : jsstring;
  cb_ai_assistant_type : jsstring;
  commands : list (jsstring * CommandDef)
}.

Record Session := {
  sess_id : jsstring;
  sess_conversation_id : jsstring;
  sess_codebase_id : option jsstring;
  sess_ai_assistant_type : jsstring;
  assistant_session_id : option jsstring;
  active : bool;
  metadata : gmap jsstring jsstring
}.

Record CommandResult := {
  success : bool;
  message : jsstring;
  modified : bool            (* absent counts as false *)
}.

Inductive ChunkType := assistant | result | system | tool | thinking.

(** The tool arguments object; only the formatting collaborator looks
    inside. *)
Definition ToolInput := list (jsstring * jsstring).

Record MessageChunk := {
  chunk_type : ChunkType;
  content : option jsstring;
  sessionId : option jsstring;
  toolName : option jsstring;
  toolInput : option ToolInput
}.

Inductive StreamingMode := StreamMode | BatchMode.

(** What the orchestrator asks of a platform adapter besides sending. *)
Record Platform := {
  getStreamingMode : StreamingMode;
  getPlatformType : jsstring
}.

(** A directory entry as [readdir] with [withFileTypes] reports it; a
    directory carries what reading it reports in turn. *)
#[warnings="-register-all"]
Inductive Dirent :=
| FileEntry (name : jsstring)
| DirEntry (name : jsstring) (entries : list Dirent)
| OtherEntry (name : jsstring).

Definition dirent_name (d : Dirent) : jsstring :=
  match d with
  | FileEntry n | DirEntry n _ | OtherEntry n => n
  end.

(** ** Collaborators

    Every call that leaves the module is an operation of [Op].  The
    environment decides, for the n-th call of a run, whether it throws
    ([fault], with the message of the error) and what the outside world
    answers. *)

Inductive Op :=
| OpGetOrCreateConversation | OpUpdateConversation
| OpGetCodebase | OpCreateCodebase | OpGetCodebaseCommands
| OpUpdateCodebaseCommands | OpFindCodebaseByPath
| OpGetActiveSession | OpCreateSession | OpDeactivateSession
| OpUpdateSession | OpUpdateSessionMetadata
| OpSendMessage | OpGetAssistantClient | OpSendQuery | OpNextChunk
| OpReadFile | OpWriteFile | OpReaddir | OpAccess | OpExec.

Record Env := {
  fault : Op -> nat -> option jsstring;
  (* identifiers the database gives to new rows *)
  uuid : nat -> jsstring;
  (* assistant type of a conversation row created on first contact *)
  default_assistant : jsstring;
  (* the chunks the backend produces for a query *)
  ai_stream : nat -> jsstring -> jsstring -> jsstring -> option jsstring
              -> list MessageChunk;
  (* the file system *)
  file_text : nat -> jsstring -> jsstring;
  dir_entries : nat -> jsstring -> list Dirent;
  (* process.env *)
  GH_TOKEN : option jsstring;
  GITHUB_TOKEN : option jsstring;
  (* library functions *)
  toLowerCase : jsstring -> jsstring;
  path_join : jsstring -> jsstring -> jsstring;
  path_basename : jsstring -> jsstring -> jsstring;
  formatToolCall : jsstring -> option ToolInput -> jsstring;
  substituteVariables : jsstring -> list jsstring -> jsstring
}.

(** What a run leaves behind for an observer, in order. *)
Inductive Event :=
| EvSend (conversationId text : jsstring)
| EvQuery (prompt cwd : jsstring) (resume : option jsstring)
| EvChunk (c : MessageChunk)
| EvCreateSession (id conversation : jsstring)
| EvDeactivateSession (id : jsstring)
| EvUpdateSession (id token : jsstring)
| EvUpdateSessionMetadata (id lastCommand : jsstring)
| EvExec (cmd : jsstring)
| EvWriteFile (path text : jsstring).

Record State := {
  conversations : list Conversation;
  codebases : list Codebase;
  sessions : list Session;
  next_row : nat;
  tick : nat;
  trace : list Event
}.

(** ** The monad of asynchronous functions

    An [async] function either resolves with a value or rejects with an
    error; it reads the environment and updates the store on the way. *)

Inductive Res (A : Type) :=
| Ok (a : A)
| Throw (err : jsstring).
Arguments Ok {A} a.
Arguments Throw {A} err.

Definition M (A : Type) : Type := Env -> State -> Res A * State.

Definition ret {A} (a : A) : M A := fun _ s => (Ok a, s).

Definition bind {A B} (m : M A) (k : A -> M B) : M B :=
  fun E s =>
    match m E s with
    | (Ok a, s') => k a E s'
    | (Throw e, s') => (Throw e, s')
    end.

Definition throw {A} (err : jsstring) : M A := fun _ s => (Throw err, s).

(** [try { m } catch (error) { h error.message }] *)
Definition tryCatch {A} (m : M A) (h : jsstring -> M A) : M A :=
  fun E s =>
    match m E s with
    | (Ok a, s') => (Ok a, s')
    | (Throw e, s') => h e E s'
    end.

Notation "'let*' x ':=' m 'in' k" := (bind m (fun x => k))
  (at level 10, x name, m at level 100, k at level 200).

Definition ask : M Env := fun E s => (Ok E, s).
Definition get : M State := fun _ s => (Ok s, s).
Definition modify (f : State -> State) : M unit := fun _ s => (Ok tt, f s).

Definition bump (s : State) : State :=
  {| conversations := conversations s; codebases := codebases s;
     sessions := sessions s; next_row := next_row s;
     tick := S (tick s); trace := trace s |}.

Definition log (ev : Event) (s : State) : State :=
  {| conversations := conversations s; codebases := codebases s;
     sessions := sessions s; next_row := next_row s;
     tick := tick s; trace := trace s ++ [ev] |}.

Definition set_conversations (cs : list Conversation) (s : State) : State :=
  {| conversations := cs; codebases := codebases s;
     sessions := sessions s; next_row := next_row s;
     tick := tick s; trace := trace s |}.

Definition set_codebases (cs : list Codebase) (s : State) : State :=
  {| conversations := conversations s; codebases := cs;
     sessions := sessions s; next_row := next_row s;
     tick := tick s; trace := trace s |}.

Definition set_sessions (ss : list Session) (s : State) : State :=
  {| conversations := conversations s; codebases := codebases s;
     sessions := ss; next_row := next_row s;
     tick := tick s; trace := trace s |}.

Definition take_row (s : State) : State :=
  {| conversations := conversations s; codebases := codebases s;
     sessions := sessions s; next_row := S (next_row s);
     tick := tick s; trace := trace s |}.

(** One call to a collaborator: it counts, and it throws when the
    environment says so. *)
Definition call (op : Op) : M nat :=
  fun E s =>
    match fault E op (tick s) with
    | Some err => (Throw err, bump s)
    | None => (Ok (tick s), bump s)
    end.

Definition emit (ev : Event) : M unit := modify (log ev).

(** ** The store

    [db/codebases.ts] is in the sources; a table is the list of its rows and
    a query that takes [rows[0]] takes the first row that matches. *)

Definition row_id : M jsstring :=
  let* E := ask in
  let* s := get in
  let* _ := modify take_row in
  ret (uuid E (next_row s)).

Definition createCodebase (name : jsstring) (url : option jsstring)
    (cwd : jsstring) (ai_assistant_type : option jsstring) : M Codebase :=
  let assistantType := or_else ai_assistant_type (js "claude") in
  let* _ := call OpCreateCodebase in
  let* id := row_id in
  let row := {| cb_id := id; cb_name := name;
                repository_url := if truthy_opt url then url else None;
                default_cwd := cwd; cb_ai_assistant_type := assistantType;
                commands := [] |} in
  let* _ := modify (fun s => set_codebases (codebases s ++ [row]) s) in
  ret row.

Definition id_is (id : option jsstring) (c : Codebase) : bool :=
  match id with Some i => str_eqb (cb_id c) i | None => false end.

Definition getCodebase (id : option jsstring) : M (option Codebase) :=
  let* _ := call OpGetCodebase in
  let* s := get in
  ret (List.find (id_is id) (codebases s)).

Definition set_commands (cmds : list (jsstring * CommandDef)) (c : Codebase)
  : Codebase :=
  {| cb_id := cb_id c; cb_name := cb_name c;
     repository_url := repository_url c; default_cwd := default_cwd c;
     cb_ai_assistant_type := cb_ai_assistant_type c; commands := cmds |}.

Definition updateCodebaseCommands (id : jsstring)
    (cmds : list (jsstring * CommandDef)) : M unit :=
  let* _ := call OpUpdateCodebaseCommands in
  modify (fun s =>
    set_codebases
      (map (fun c => if str_eqb (cb_id c) id then set_commands cmds c else c)
           (codebases s)) s).

Definition getCodebaseCommands (id : jsstring)
  : M (list (jsstring * CommandDef)) :=
  let* _ := call OpGetCodebaseCommands in
  let* s := get in
  ret (match List.find (id_is (Some id)) (codebases s) with
       | Some c => commands c
       | None => []
       end).

(** [obj[key]] on the entries of an object. *)
Fixpoint assoc {V} (key : jsstring) (entries : list (jsstring * V))
  : option V :=
  match entries with
  | [] => None
  | (k, v) :: rest => if str_eqb k key then Some v else assoc key rest
  end.

(** [obj[key] = v] on the own properties of a plain object, kept in the
    order of their creation: a property that exists keeps its place and
    takes the value, a new one comes last.  The key [__proto__] is the
    exception: on an object without an own property of that name the
    assignment goes to the accessor of [Object.prototype], which replaces
    the prototype of the object and creates no property, so that
    [JSON.stringify], which writes the own properties, writes nothing of
    it. *)
Fixpoint assign {V} (key : jsstring) (v : V) (entries : list (jsstring * V))
  : list (jsstring * V) :=
  match entries with
  | [] => if str_eqb key (js "__proto__") then [] else [(key, v)]
  | (k, v0) :: rest =>
      if str_eqb k key then (k, v) :: rest else (k, v0) :: assign key v rest
  end.

(** The array index a key stands for: the key is the canonical decimal
    writing of an integer below [2^32 - 1]. *)
Definition is_digit (c : N) : bool := (48 <=? c) && (c <=? 57).

Fixpoint digitsValue (acc : N) (s : jsstring) : N :=
  match s with
  | [] => acc
  | c :: rest => digitsValue (10 * acc + (c - 48)) rest
  end.

Definition arrayIndex (key : jsstring) : option N :=
  match key with
  | [] => None
  | c :: rest =>
      if forallb is_digit key
         && (negb (c =? 48) || negb (truthy rest))
         && (digitsValue 0 key <? 4294967295)
      then Some (digitsValue 0 key)
      else None
  end.

Fixpoint insertIndexed {V} (n : N) (entry : jsstring * V)
    (sorted : list (N * (jsstring * V))) : list (N * (jsstring * V)) :=
  match sorted with
  | [] => [(n, entry)]
  | (m, e) :: rest =>
      if n <? m then (n, entry) :: sorted
      else (m, e) :: insertIndexed n entry rest
  end.

(** [Object.entries(obj)] (and the order of [Object.keys] and of
    [JSON.stringify]): the properties whose key is an array index first, in
    ascending order of the index, then the others in the order of their
    creation. *)
Definition Object_entries {V} (obj : list (jsstring * V))
  : list (jsstring * V) :=
  map snd
      (fold_left
         (fun sorted entry =>
            match arrayIndex (fst entry) with
            | Some n => insertIndexed n entry sorted
            | None => sorted
            end)
         obj [])
  ++ List.filter
       (fun entry =>
          match arrayIndex (fst entry) with Some _ => false | None => true end)
       obj.

Definition registerCommand (id name : jsstring) (def : CommandDef) : M unit :=
  let* cmds := getCodebaseCommands id in
  updateCodebaseCommands id (assign name def cmds).

Definition findCodebaseByPath (path : jsstring) : M (option Codebase) :=
  let* _ := call OpFindCodebaseByPath in
  let* s := get in
  ret (List.find (fun c => str_eqb (default_cwd c) path) (codebases s)).

(** Modelled from the spec: [db/conversations.ts] is not in the sources.  A
    conversation is a persistent record keyed by platform type and
    conversation key, created on first contact with no codebase and no
    working directory, mutated on codebase and working-directory changes and
    never deleted. *)
Definition getOrCreateConversation (platformType conversationId : jsstring)
  : M Conversation :=
  let* _ := call OpGetOrCreateConversation in
  let* E := ask in
  let* s := get in
  match List.find (fun c => str_eqb (platform_type c) platformType
                            && str_eqb (platform_conversation_id c)
                                       conversationId)
                  (conversations s) with
  | Some c => ret c
  | None =>
      let* id := row_id in
      let row := {| conv_id := id; platform_type := platformType;
                    platform_conversation_id := conversationId;
                    conv_codebase_id := None; conv_cwd := None;
                    conv_ai_assistant_type := default_assistant E |} in
      let* _ := modify (fun s =>
                  set_conversations (conversations s ++ [row]) s) in
      ret row
  end.

(** The fields an update names; an absent field is left as it is. *)
Record ConversationUpdate := {
  upd_cwd : option jsstring;
  upd_codebase_id : option jsstring
}.

Definition apply_update (u : ConversationUpdate) (c : Conversation)
  : Conversation :=
  {| conv_id := conv_id c; platform_type := platform_type c;
     platform_conversation_id := platform_conversation_id c;
     conv_codebase_id := match upd_codebase_id u with
                         | Some i => Some i
                         | None => conv_codebase_id c
                         end;
     conv_cwd := match upd_cwd u with
                 | Some d => Some d
                 | None => conv_cwd c
                 end;
     conv_ai_assistant_type := conv_ai_assistant_type c |}.

(** Modelled from the spec: [db/conversations.ts] is not in the sources (see
    [getOrCreateConversation]). *)
Definition updateConversation (id : jsstring) (u : ConversationUpdate)
  : M unit :=
  let* _ := call OpUpdateConversation in
  modify (fun s =>
    set_conversations
      (map (fun c => if str_eqb (conv_id c) id then apply_update u c else c)
           (conversations s)) s).

(** Modelled from the spec: [db/sessions.ts] is not in the sources.  A
    session belongs to a conversation, carries a resumable backend token
    that is absent until the backend first reports one, a free-form
    metadata mapping and an active flag; it is created active, with no
    token, and is deactivated, never deleted. *)
Definition getActiveSession (conversation_id : jsstring)
  : M (option Session) :=
  let* _ := call OpGetActiveSession in
  let* s := get in
  ret (List.find (fun x => str_eqb (sess_conversation_id x) conversation_id
                           && active x)
                 (sessions s)).

(** Modelled from the spec: [db/sessions.ts] is not in the sources (see
    [getActiveSession]). *)
Definition createSession (conversation_id : jsstring)
    (codebase_id : option jsstring) (ai_assistant_type : jsstring)
  : M Session :=
  let* _ := call OpCreateSession in
  let* id := row_id in
  let row := {| sess_id := id; sess_conversation_id := conversation_id;
                sess_codebase_id := codebase_id;
                sess_ai_assistant_type := ai_assistant_type;
                assistant_session_id := None; active := true;
                metadata := ∅ |} in
  let* _ := modify (fun s => set_sessions (sessions s ++ [row]) s) in
  let* _ := emit (EvCreateSession id conversation_id) in
  ret row.

Definition on_session (id : jsstring) (f : Session -> Session)
    (ss : list Session) : list Session :=
  map (fun x => if str_eqb (sess_id x) id then f x else x) ss.

Definition set_active (b : bool) (x : Session) : Session :=
  {| sess_id := sess_id x; sess_conversation_id := sess_conversation_id x;
     sess_codebase_id := sess_codebase_id x;
     sess_ai_assistant_type := sess_ai_assistant_type x;
     assistant_session_id := assistant_session_id x; active := b;
     metadata := metadata x |}.

Definition set_token (t : jsstring) (x : Session) : Session :=
  {| sess_id := sess_id x; sess_conversation_id := sess_conversation_id x;
     sess_codebase_id := sess_codebase_id x;
     sess_ai_assistant_type := sess_ai_assistant_type x;
     assistant_session_id := Some t; active := active x;
     metadata := metadata x |}.

Definition set_lastCommand (c : jsstring) (x : Session) : Session :=
  {| sess_id := sess_id x; sess_conversation_id := sess_conversation_id x;
     sess_codebase_id := sess_codebase_id x;
     sess_ai_assistant_type := sess_ai_assistant_type x;
     assistant_session_id := assistant_session_id x; active := active x;
     metadata := <[js "lastCommand" := c]> (metadata x) |}.

(** Modelled from the spec: [db/sessions.ts] is not in the sources (see
    [getActiveSession]). *)
Definition deactivateSession (id : jsstring) : M unit :=
  let* _ := call OpDeactivateSession in
  let* _ := modify (fun s =>
              set_sessions (on_session id (set_active false) (sessions s)) s)
  in emit (EvDeactivateSession id).

(** Modelled from the spec: [db/sessions.ts] is not in the sources (see
    [getActiveSession]). *)
Definition updateSession (id token : jsstring) : M unit :=
  let* _ := call OpUpdateSession in
  let* _ := modify (fun s =>
              set_sessions (on_session id (set_token token) (sessions s)) s)
  in emit (EvUpdateSession id token).

(** Modelled from the spec: [db/sessions.ts] is not in the sources (see
    [getActiveSession]); the command name is written into the metadata as
    the last command. *)
Definition updateSessionMetadata (id lastCommand : jsstring) : M unit :=
  let* _ := call OpUpdateSessionMetadata in
  let* _ := modify (fun s =>
              set_sessions
                (on_session id (set_lastCommand lastCommand) (sessions s)) s)
  in emit (EvUpdateSessionMetadata id lastCommand).

(** ** The other collaborators *)

(** [platform.sendMessage(conversationId, text)] *)
Definition sendMessage (conversationId text : jsstring) : M unit :=
  let* _ := call OpSendMessage in
  emit (EvSend conversationId text).

Definition readFile (path : jsstring) : M jsstring :=
  let* n := call OpReadFile in
  let* E := ask in
  ret (file_text E n path).

Definition writeFile (path text : jsstring) : M unit :=
  let* _ := call OpWriteFile in
  emit (EvWriteFile path text).

Definition readdir (path : jsstring) : M (list Dirent) :=
  let* n := call OpReaddir in
  let* E := ask in
  ret (dir_entries E n path).

(** [access(path)] resolves when the path exists and throws otherwise. *)
Definition access (path : jsstring) : M unit :=
  let* _ := call OpAccess in ret tt.

Definition execAsync (cmd : jsstring) : M unit :=
  let* _ := call OpExec in
  emit (EvExec cmd).

(** ** The command handler ([handleCommand]) *)

Record MdFile := { commandName : jsstring; relativePath : jsstring }.

(** The body of the loop of [findMarkdownFilesRecursive] for one entry of
    the directory at [relativePath]: what it pushes onto [results].  A
    subdirectory is read in turn. *)
Fixpoint scanEntry (rootPath relativePath : jsstring) (entry : Dirent)
  : M (list MdFile) :=
  let* E := ask in
  if startsWith (js ".") (dirent_name entry)
     || str_eqb (dirent_name entry) (js "node_modules")
  then ret []
  else
    match entry with
    | DirEntry name sub =>
        let rel := path_join E relativePath name in
        let* _ := call OpReaddir in
        (fix scanAll (l : list Dirent) : M (list MdFile) :=
           match l with
           | [] => ret []
           | e :: l' =>
               let* found := scanEntry rootPath rel e in
               let* others := scanAll l' in
               ret (found ++ others)
           end) sub
    | FileEntry name =>
        if endsWith (js ".md") name
        then ret [{| commandName := path_basename E name (js ".md");
                     relativePath := path_join E relativePath name |}]
        else ret []
    | OtherEntry _ => ret []
    end.

Fixpoint scanAll (rootPath relativePath : jsstring) (l : list Dirent)
  : M (list MdFile) :=
  match l with
  | [] => ret []
  | e :: l' =>
      let* found := scanEntry rootPath relativePath e in
      let* others := scanAll rootPath relativePath l' in
      ret (found ++ others)
  end.

Definition findMarkdownFilesRecursive (rootPath : jsstring)
  : M (list MdFile) :=
  let* E := ask in
  let* entries := readdir (path_join E rootPath []) in
  scanAll rootPath [] entries.

(** [String(n)] for a length. *)
Definition decimal (n : nat) : jsstring :=
  js (DecimalString.NilZero.string_of_uint (Nat.to_uint n)).

Definition helpText : jsstring := js
"Available Commands:

Command Management:
  /command-set <name> <path> [text] - Register command
  /load-commands <folder> - Bulk load (recursive)
  /command-invoke <name> [args] - Execute
  /commands - List registered
  Note: Commands use relative paths (e.g., .claude/commands)

Codebase:
  /clone <repo-url> - Clone repository
  /repos - List workspace repositories
  /getcwd - Show working directory
  /setcwd <path> - Set directory
  Note: Codebases use full paths (e.g., /workspace/repo-name)

Session:
  /status - Show state
  /reset - Clear session
  /help - Show help".

Definition answer (ok : bool) (text : jsstring) : CommandResult :=
  {| success := ok; message := text; modified := false |}.

Definition answer_modified (text : jsstring) : CommandResult :=
  {| success := true; message := text; modified := true |}.

Definition case_status (conversation : Conversation) : M CommandResult :=
  let msg := js "Platform: " ++ platform_type conversation ++ nl
             ++ js "AI Assistant: " ++ conv_ai_assistant_type conversation in
  let* msg :=
    if truthy_opt (conv_codebase_id conversation) then
      let* cb := getCodebase (conv_codebase_id conversation) in
      match cb with
      | Some cb =>
          if truthy (cb_name cb) then
            let msg := msg ++ nl ++ nl ++ js "Codebase: " ++ cb_name cb in
            if truthy_opt (repository_url cb)
            then ret (msg ++ nl ++ js "Repository: "
                          ++ or_else (repository_url cb) [])
            else ret msg
          else ret msg
      | None => ret msg
      end
    else ret (msg ++ nl ++ nl
              ++ js "No codebase configured. Use /clone <repo-url> to get started.")
  in
  let msg := msg ++ nl ++ nl ++ js "Current Working Directory: "
             ++ or_else (conv_cwd conversation) (js "Not set") in
  let* session := getActiveSession (conv_id conversation) in
  match session with
  | Some x =>
      if truthy (sess_id x)
      then ret (answer true (msg ++ nl ++ js "Active Session: "
                                 ++ substring0 8 (sess_id x) ++ js "..."))
      else ret (answer true msg)
  | None => ret (answer true msg)
  end.

Definition case_getcwd (conversation : Conversation) : M CommandResult :=
  ret (answer true (js "Current working directory: "
                    ++ or_else (conv_cwd conversation) (js "Not set"))).

Definition case_setcwd (conversation : Conversation) (args : list jsstring)
  : M CommandResult :=
  match args with
  | [] => ret (answer false (js "Usage: /setcwd <path>"))
  | _ =>
      let newCwd := join_with (js " ") args in
      let* existingCodebase := findCodebaseByPath newCwd in
      let* _ :=
        match existingCodebase with
        | Some cb =>
            updateConversation (conv_id conversation)
              {| upd_cwd := Some newCwd; upd_codebase_id := Some (cb_id cb) |}
        | None =>
            updateConversation (conv_id conversation)
              {| upd_cwd := Some newCwd; upd_codebase_id := None |}
        end in
      let* _ :=
        tryCatch
          (execAsync (js "git config --global --add safe.directory "
                      ++ newCwd))
          (fun _ => ret tt) in
      let* session := getActiveSession (conv_id conversation) in
      let* _ :=
        match session with
        | Some x => deactivateSession (sess_id x)
        | None => ret tt
        end in
      let msg := js "Working directory set to: " ++ newCwd ++ nl ++ nl
                 ++ js "Session reset - starting fresh on next message." in
      let msg :=
        match existingCodebase with
        | Some cb => msg ++ nl ++ nl ++ js "Codebase linked: " ++ cb_name cb
        | None => msg
        end in
      ret (answer_modified msg)
  end.

(** The loop over the command folders of a fresh clone; it stops at the
    first one that exists. *)
Fixpoint detectCommandFolder (targetPath : jsstring)
    (folders : list jsstring) : M (option jsstring) :=
  match folders with
  | [] => ret None
  | folder :: rest =>
      let* E := ask in
      let* found :=
        tryCatch
          (let* _ := access (path_join E targetPath folder) in ret true)
          (fun _ => ret false) in
      if found then ret (Some folder)
      else detectCommandFolder targetPath rest
  end.

Definition case_clone (conversation : Conversation) (args : list jsstring)
  : M CommandResult :=
  match args with
  | [] =>
      ret (answer false
             (js "Usage: /clone <repo-url> or /clone <owner/repo>"))
  | arg0 :: _ =>
      if negb (truthy arg0)
      then ret (answer false
                  (js "Usage: /clone <repo-url> or /clone <owner/repo>"))
      else
        let repoUrl := arg0 in
        let repoUrl :=
          if startsWith (js "<") repoUrl && endsWith (js ">") repoUrl
          then slice_1_m1 repoUrl else repoUrl in
        let repoUrl :=
          if negb (includes (js "://") repoUrl)
             && negb (includes (js "github.com") repoUrl)
             && includes (js "/") repoUrl
          then js "https://github.com/" ++ repoUrl ++ js ".git"
          else repoUrl in
        let repoName :=
          or_else (option_map (replaceFirst (js ".git") [])
                              (last (splitOn (js "/") repoUrl)))
                  (js "unknown") in
        let workspacePath := js "/workspace" in
        let targetPath := workspacePath ++ js "/" ++ repoName in
        tryCatch
          (let* E := ask in
           let cloneCommand :=
             js "git clone " ++ [dq] ++ repoUrl ++ [dq] ++ js " "
                ++ [dq] ++ targetPath ++ [dq] in
           let ghToken :=
             match GH_TOKEN E with
             | Some t => Some t
             | None => GITHUB_TOKEN E
             end in
           let cloneCommand :=
             if truthy_opt ghToken && includes (js "github.com") repoUrl
             then
               let replacement :=
                 js "https://" ++ or_else ghToken [] ++ js "@github.com" in
               let authenticatedUrl :=
                 if startsWith (js "https://github.com") repoUrl
                 then replaceFirst (js "https://github.com") replacement
                                   repoUrl
                 else if startsWith (js "http://github.com") repoUrl
                 then replaceFirst (js "http://github.com") replacement
                                   repoUrl
                 else repoUrl in
               js "git clone " ++ [dq] ++ authenticatedUrl ++ [dq] ++ js " "
                  ++ [dq] ++ targetPath ++ [dq]
             else cloneCommand in
           let* _ := execAsync cloneCommand in
           let* _ := execAsync (js "git config --global --add safe.directory "
                                ++ targetPath) in
           let codexFolder := path_join E targetPath (js ".codex") in
           let claudeFolder := path_join E targetPath (js ".claude") in
           let* suggestedAssistant :=
             tryCatch
               (let* _ := access codexFolder in ret (js "codex"))
               (fun _ =>
                  tryCatch
                    (let* _ := access claudeFolder in ret (js "claude"))
                    (fun _ => ret (js "claude"))) in
           let* codebase :=
             createCodebase repoName (Some repoUrl) targetPath
                            (Some suggestedAssistant) in
           let* _ :=
             updateConversation (conv_id conversation)
               {| upd_cwd := Some targetPath;
                  upd_codebase_id := Some (cb_id codebase) |} in
           let* session := getActiveSession (conv_id conversation) in
           let* _ :=
             match session with
             | Some x => deactivateSession (sess_id x)
             | None => ret tt
             end in
           let* commandFolder :=
             detectCommandFolder targetPath
               [js ".claude/commands"; js ".agents/commands"] in
           let responseMessage :=
             js "Repository cloned successfully!" ++ nl ++ nl
             ++ js "Codebase: " ++ repoName ++ nl
             ++ js "Path: " ++ targetPath ++ nl ++ nl
             ++ js "Session reset - starting fresh on next message."
             ++ nl ++ nl
             ++ js "You can now start asking questions about the code." in
           let responseMessage :=
             match commandFolder with
             | Some folder =>
                 responseMessage ++ nl ++ nl
                 ++ [63743; 252; 236; 197] ++ js " Found: " ++ folder
                 ++ js "/" ++ nl ++ js "Use /load-commands " ++ folder
                 ++ js " to register commands."
             | None => responseMessage
             end in
           ret (answer_modified responseMessage))
          (fun err =>
             ret (answer false (js "Failed to clone repository: " ++ err)))
  end.

Definition case_command_set (conversation : Conversation)
    (args : list jsstring) : M CommandResult :=
  match args with
  | name :: commandPath :: textParts =>
      if negb (truthy_opt (conv_codebase_id conversation))
      then ret (answer false (js "No codebase configured. Use /clone first."))
      else
        let* E := ask in
        let commandText := join_with (js " ") textParts in
        let fullPath :=
          path_join E (or_else (conv_cwd conversation) (js "/workspace"))
                    commandPath in
        tryCatch
          (let* _ :=
             if truthy commandText
             then writeFile fullPath commandText
             else (let* _ := readFile fullPath in ret tt) in
           let* _ :=
             registerCommand (or_else (conv_codebase_id conversation) [])
               name
               {| cmd_path := commandPath;
                  cmd_description := js "Custom: " ++ name |} in
           ret (answer true (js "Command '" ++ name ++ js "' registered!"
                             ++ nl ++ js "Path: " ++ commandPath)))
          (fun err => ret (answer false (js "Failed: " ++ err)))
  | _ => ret (answer false (js "Usage: /command-set <name> <path> [text]"))
  end.

Definition case_load_commands (conversation : Conversation)
    (args : list jsstring) : M CommandResult :=
  match args with
  | [] => ret (answer false (js "Usage: /load-commands <folder>"))
  | _ =>
      if negb (truthy_opt (conv_codebase_id conversation))
      then ret (answer false (js "No codebase configured."))
      else
        let* E := ask in
        let codebase_id := or_else (conv_codebase_id conversation) [] in
        let folderPath := join_with (js " ") args in
        let fullPath :=
          path_join E (or_else (conv_cwd conversation) (js "/workspace"))
                    folderPath in
        tryCatch
          (let* markdownFiles := findMarkdownFilesRecursive fullPath in
           match markdownFiles with
           | [] =>
               ret (answer false (js "No .md files found in " ++ folderPath
                                  ++ js " (searched recursively)"))
           | _ =>
               let* cmds := getCodebaseCommands codebase_id in
               let cmds :=
                 fold_left
                   (fun acc f =>
                      assign (commandName f)
                        {| cmd_path := path_join E folderPath (relativePath f);
                           cmd_description := js "From " ++ folderPath |}
                        acc)
                   markdownFiles cmds in
               let* _ := updateCodebaseCommands codebase_id cmds in
               ret (answer true
                      (js "Loaded " ++ decimal (length markdownFiles)
                       ++ js " commands recursively: "
                       ++ join_with (js ", ")
                                    (map commandName markdownFiles)))
           end)
          (fun err => ret (answer false (js "Failed: " ++ err)))
  end.

Definition case_commands (conversation : Conversation) : M CommandResult :=
  if negb (truthy_opt (conv_codebase_id conversation))
  then ret (answer false (js "No codebase configured."))
  else
    let* codebase := getCodebase (conv_codebase_id conversation) in
    let cmds := match codebase with Some cb => commands cb | None => [] end in
    match Object_entries cmds with
    | [] =>
        ret (answer true (js "No commands registered." ++ nl ++ nl
                          ++ js "Use /command-set or /load-commands."))
    | listed =>
        ret (answer true
               (fold_left
                  (fun msg entry =>
                     msg ++ fst entry ++ js " - " ++ cmd_path (snd entry)
                         ++ nl)
                  listed (js "Registered Commands:" ++ nl ++ nl)))
    end.

Definition is_directory (d : Dirent) : bool :=
  match d with DirEntry _ _ => true | _ => false end.

Definition case_repos (conversation : Conversation) : M CommandResult :=
  let workspacePath := js "/workspace" in
  tryCatch
    (let* E := ask in
     let* entries := readdir workspacePath in
     let folders := map dirent_name (List.filter is_directory entries) in
     match folders with
     | [] => ret (answer true (js "No repositories found in /workspace"))
     | _ =>
         let currentCwd := or_else (conv_cwd conversation) [] in
         ret (answer true
                (fold_left
                   (fun msg folder =>
                      let folderPath := path_join E workspacePath folder in
                      let isActive := startsWith folderPath currentCwd in
                      msg ++ folderPath
                          ++ (if isActive then js " [active]" else [])
                          ++ nl)
                   folders (js "Workspace Repositories:" ++ nl ++ nl)))
     end)
    (fun err =>
       ret (answer false (js "Failed to list repositories: " ++ err))).

Definition case_reset (conversation : Conversation) : M CommandResult :=
  let* session := getActiveSession (conv_id conversation) in
  match session with
  | Some x =>
      let* _ := deactivateSession (sess_id x) in
      ret (answer true
             (js "Session cleared. Starting fresh on next message." ++ nl
              ++ nl ++ js "Codebase configuration preserved."))
  | None => ret (answer true (js "No active session to reset."))
  end.

Definition case_default (command : jsstring) : M CommandResult :=
  ret (answer false (js "Unknown command: /" ++ command ++ nl ++ nl
                     ++ js "Type /help to see available commands.")).

Definition handleCommand (conversation : Conversation) (text : jsstring)
  : M CommandResult :=
  let parsed := parseCommand text in
  let command := command parsed in
  let args := args parsed in
  if str_eqb command (js "help") then ret (answer true helpText)
  else if str_eqb command (js "status") then case_status conversation
  else if str_eqb command (js "getcwd") then case_getcwd conversation
  else if str_eqb command (js "setcwd") then case_setcwd conversation args
  else if str_eqb command (js "clone") then case_clone conversation args
  else if str_eqb command (js "command-set")
       then case_command_set conversation args
  else if str_eqb command (js "load-commands")
       then case_load_commands conversation args
  else if str_eqb command (js "commands") then case_commands conversation
  else if str_eqb command (js "repos") then case_repos conversation
  else if str_eqb command (js "reset") then case_reset conversation
  else case_default command.

(** ** The orchestrator ([handleMessage]) *)

Definition KNOWN_COMMANDS : list jsstring :=
  [js "clone"; js "help"; js "status"; js "reset"; js "getcwd"; js "setcwd";
   js "commands"; js "command-set"; js "command-invoke"; js "load-commands";
   js "codebase-switch"; js "repos"].

Definition normalizeCommand (E : Env) (text : jsstring) : jsstring :=
  let trimmed := trim text in
  let firstWord := option_map (toLowerCase E) (head (split_ws trimmed)) in
  if truthy_opt firstWord
     && existsb (str_eqb (or_else firstWord [])) KNOWN_COMMANDS
     && negb (startsWith (js "/") trimmed)
  then js "/" ++ trimmed
  else text.

(** The names every object inherits: [codebase.commands[name]] finds them
    although no command of that name was registered, and what it finds has
    no [path]. *)
Definition inherited_keys : list jsstring :=
  [js "constructor"; js "__proto__"; js "hasOwnProperty";
   js "isPrototypeOf"; js "propertyIsEnumerable"; js "toLocaleString";
   js "toString"; js "valueOf"; js "__defineGetter__";
   js "__defineSetter__"; js "__lookupGetter__"; js "__lookupSetter__"].

Definition noCodebaseText : jsstring :=
  js "No codebase configured. Use /clone first.".

Definition invokeUsageText : jsstring :=
  js "Usage: /command-invoke <name> [args...]".

(** The part of [handleMessage] between the slash-command branch and the
    backend: it settles the prompt and the command name, or answers the
    sender and returns ([None]). *)
Definition resolvePrompt (conversationId text : jsstring)
    (issueContext : option jsstring) (conversation : Conversation)
  : M (option (jsstring * option jsstring)) :=
  if startsWith (js "/command-invoke") text then
    match args (parseCommand text) with
    | [] =>
        let* _ := sendMessage conversationId invokeUsageText in ret None
    | name :: args =>
        if negb (truthy_opt (conv_codebase_id conversation)) then
          let* _ := sendMessage conversationId noCodebaseText in ret None
        else
          let* codebase := getCodebase (conv_codebase_id conversation) in
          match codebase with
          | None =>
              let* _ := sendMessage conversationId
                          (js "Codebase not found.") in
              ret None
          | Some codebase =>
              match assoc name (commands codebase) with
              | None =>
                  if existsb (str_eqb name) inherited_keys
                  then throw (js "The path argument must be of type string")
                  else
                    let* _ := sendMessage conversationId
                                (js "Command '" ++ name
                                 ++ js "' not found. Use /commands to see available.")
                    in ret None
              | Some commandDef =>
                  let* E := ask in
                  let cwd := or_else (conv_cwd conversation)
                                     (default_cwd codebase) in
                  let commandFilePath :=
                    path_join E cwd (cmd_path commandDef) in
                  tryCatch
                    (let* commandText := readFile commandFilePath in
                     let promptToSend :=
                       substituteVariables E commandText args in
                     let promptToSend :=
                       if truthy_opt issueContext
                       then promptToSend ++ nl ++ nl ++ js "---" ++ nl ++ nl
                                         ++ or_else issueContext []
                       else promptToSend in
                     ret (Some (promptToSend, Some name)))
                    (fun err =>
                       let* _ := sendMessage conversationId
                                   (js "Failed to read command file: "
                                    ++ err) in
                       ret None)
              end
          end
    end
  else if negb (truthy_opt (conv_codebase_id conversation)) then
    let* _ := sendMessage conversationId noCodebaseText in ret None
  else ret (Some (text, None)).

(** [getAssistantClient(type)]: the factory throws on a type it does not
    know. *)
Definition getAssistantClient (ai_assistant_type : jsstring) : M unit :=
  let* _ := call OpGetAssistantClient in ret tt.

(** [session.assistant_session_id || undefined] *)
Definition resumeToken (x : Session) : option jsstring :=
  if truthy_opt (assistant_session_id x) then assistant_session_id x
  else None.

(** [aiClient.sendQuery(prompt, cwd, resume)]: the chunks the generator is
    going to yield. *)
Definition sendQuery (ai_assistant_type prompt cwd : jsstring)
    (resume : option jsstring) : M (list MessageChunk) :=
  let* n := call OpSendQuery in
  let* _ := emit (EvQuery prompt cwd resume) in
  let* E := ask in
  ret (ai_stream E n ai_assistant_type prompt cwd resume).

(** Asking the generator for its next value. *)
Definition nextChunk : M unit :=
  let* _ := call OpNextChunk in ret tt.

(** The body of the [for await] loop in stream mode. *)
Definition streamChunk (conversationId session_id : jsstring)
    (msg : MessageChunk) : M unit :=
  let* E := ask in
  match chunk_type msg with
  | assistant =>
      if truthy_opt (content msg)
      then sendMessage conversationId (or_else (content msg) [])
      else ret tt
  | tool =>
      if truthy_opt (toolName msg)
      then sendMessage conversationId
             (formatToolCall E (or_else (toolName msg) []) (toolInput msg))
      else ret tt
  | result =>
      if truthy_opt (sessionId msg)
      then updateSession session_id (or_else (sessionId msg) [])
      else ret tt
  | _ => ret tt
  end.

Fixpoint streamLoop (conversationId session_id : jsstring)
    (chunks : list MessageChunk) : M unit :=
  match chunks with
  | [] => nextChunk
  | msg :: rest =>
      let* _ := nextChunk in
      let* _ := emit (EvChunk msg) in
      let* _ := streamChunk conversationId session_id msg in
      streamLoop conversationId session_id rest
  end.

(** The body of the [for await] loop in batch mode: what it pushes onto
    [assistantMessages]. *)
Definition batchChunk (session_id : jsstring) (msg : MessageChunk)
  : M (list jsstring) :=
  match chunk_type msg with
  | assistant =>
      if truthy_opt (content msg) then ret [or_else (content msg) []]
      else ret []
  | tool => ret []
  | result =>
      if truthy_opt (sessionId msg)
      then (let* _ := updateSession session_id (or_else (sessionId msg) [])
            in ret [])
      else ret []
  | _ => ret []
  end.

Fixpoint batchLoop (session_id : jsstring) (chunks : list MessageChunk)
    (assistantMessages : list jsstring) : M (list jsstring) :=
  match chunks with
  | [] => let* _ := nextChunk in ret assistantMessages
  | msg :: rest =>
      let* _ := nextChunk in
      let* _ := emit (EvChunk msg) in
      let* pushed := batchChunk session_id msg in
      batchLoop session_id rest (assistantMessages ++ pushed)
  end.

(** The alternatives of [toolIndicatorRegex], as UTF-16. *)
Definition toolIndicators : list jsstring :=
  [[55357; 56615];            (* U+1F527 *)
   [55357; 56493];            (* U+1F4AD *)
   [55357; 56541];            (* U+1F4DD *)
   [9999; 65039];             (* U+270F U+FE0F *)
   [55357; 56785; 65039];     (* U+1F5D1 U+FE0F *)
   [55357; 56514];            (* U+1F4C2 *)
   [55357; 56589]].           (* U+1F50D *)

(** [toolIndicatorRegex.exec(s)] finds a match. *)
Definition startsWithToolIndicator (s : jsstring) : bool :=
  existsb (fun glyph => startsWith glyph s) toolIndicators.

(** The value of [finalMessage] once the stream is exhausted. *)
Definition finalMessageOf (assistantMessages : list jsstring) : jsstring :=
  match last assistantMessages with
  | Some lastMessage =>
      let sections := splitOn (nl ++ nl) lastMessage in
      let cleanSections :=
        List.filter (fun section =>
                       negb (startsWithToolIndicator (trim section)))
                    sections in
      let finalMessage := trim (join_with (nl ++ nl) cleanSections) in
      if negb (truthy finalMessage) then lastMessage else finalMessage
  | None => []
  end.

Definition lastCommandIs (name : jsstring) (session : option Session)
  : bool :=
  match session with
  | Some x =>
      match metadata x !! js "lastCommand" with
      | Some c => str_eqb c name
      | None => false
      end
  | None => false
  end.

Definition commandIs (name : jsstring) (commandName : option jsstring)
  : bool :=
  match commandName with
  | Some c => str_eqb c name
  | None => false
  end.

(** The session [handleMessage] goes on with, given the active one: a new
    one for the plan-to-execute transition, after the active one is
    deactivated; a new one when none is active; the active one otherwise. *)
Definition sessionFor (conversation : Conversation)
    (commandName : option jsstring) (session : option Session) : M Session :=
  let needsNewSession :=
    commandIs (js "execute") commandName
    && lastCommandIs (js "plan-feature") session in
  if needsNewSession then
    let* _ :=
      match session with
      | Some x => deactivateSession (sess_id x)
      | None => ret tt
      end in
    createSession (conv_id conversation) (conv_codebase_id conversation)
                  (conv_ai_assistant_type conversation)
  else
    match session with
    | None =>
        createSession (conv_id conversation) (conv_codebase_id conversation)
                      (conv_ai_assistant_type conversation)
    | Some x => ret x
    end.

(** Sending the prompt to the backend and delivering what it streams, in
    the mode of the platform. *)
Definition deliver (platform : Platform) (conversationId : jsstring)
    (conversation : Conversation) (promptToSend cwd : jsstring)
    (session : Session) : M unit :=
  match getStreamingMode platform with
  | StreamMode =>
      let* chunks :=
        sendQuery (conv_ai_assistant_type conversation) promptToSend cwd
                  (resumeToken session) in
      streamLoop conversationId (sess_id session) chunks
  | BatchMode =>
      let* chunks :=
        sendQuery (conv_ai_assistant_type conversation) promptToSend cwd
                  (resumeToken session) in
      let* assistantMessages := batchLoop (sess_id session) chunks [] in
      let finalMessage := finalMessageOf assistantMessages in
      if truthy finalMessage
      then sendMessage conversationId finalMessage
      else ret tt
  end.

(** The part of [handleMessage] from [getAssistantClient] on. *)
Definition aiConversation (platform : Platform) (conversationId : jsstring)
    (conversation : Conversation) (promptToSend : jsstring)
    (commandName : option jsstring) : M unit :=
  let* _ := getAssistantClient (conv_ai_assistant_type conversation) in
  let* session := getActiveSession (conv_id conversation) in
  let* codebase := getCodebase (conv_codebase_id conversation) in
  let cwd :=
    or_else (conv_cwd conversation)
            (or_else (option_map default_cwd codebase) (js "/workspace")) in
  let* session := sessionFor conversation commandName session in
  let* _ := deliver platform conversationId conversation promptToSend cwd
                    session in
  if truthy_opt commandName
  then updateSessionMetadata (sess_id session) (or_else commandName [])
  else ret tt.

(** The [try] block of [handleMessage]. *)
Definition handleMessageBody (platform : Platform)
    (conversationId text : jsstring) (issueContext : option jsstring)
  : M unit :=
  let* E := ask in
  let text := normalizeCommand E text in
  let* conversation :=
    getOrCreateConversation (getPlatformType platform) conversationId in
  if startsWith (js "/") text && negb (startsWith (js "/command-invoke") text)
  then
    let* result := handleCommand conversation text in
    let* _ := sendMessage conversationId (message result) in
    if modified result
    then (let* _ := getOrCreateConversation (getPlatformType platform)
                                            conversationId in
          ret tt)
    else ret tt
  else
    let* resolved :=
      resolvePrompt conversationId text issueContext conversation in
    match resolved with
    | None => ret tt
    | Some (promptToSend, commandName) =>
        aiConversation platform conversationId conversation promptToSend
                       commandName
    end.

Definition errorNotice : jsstring :=
  [9888; 65039]
  ++ js " An error occurred. Try /reset to start a fresh session.".

Definition handleMessage (platform : Platform)
    (conversationId text : jsstring) (issueContext : option jsstring)
  : M unit :=
  tryCatch
    (handleMessageBody platform conversationId text issueContext)
    (fun _ => sendMessage conversationId errorNotice).

(** ** The admission controller ([ConversationLockManager]) *)

(** Modelled from the spec: what an observer of the controller sees (the
    controller itself is not in the sources): a unit of work is submitted
    under a key, starts executing, settles (resolves or rejects). *)
Inductive LockEvent :=
| Submitted (key : jsstring) (unit : nat)
| Started (key : jsstring) (unit : nat)
| Settled (key : jsstring) (unit : nat) (resolved : bool).

(** Modelled from the spec: [utils/conversation-lock.ts] is not in the
    sources.  The controller keeps a mapping from key to the execution chain
    of that key (the units submitted under it and not yet settled, oldest
    first, with a flag telling whether the oldest holds a permit and
    executes) and a counting semaphore of size [maxConcurrent], of which
    [permits_taken] are in use. *)
Record LockManager := {
  maxConcurrent : nat;
  chains : gmap jsstring (bool * list nat);
  permits_taken : nat;
  next_unit : nat;
  history : list LockEvent
}.

(** Modelled from the spec: [new ConversationLockManager(maxConcurrent)],
    not in the sources, starts with no chain and no permit in use. *)
Definition newLockManager (maxConcurrent : nat) : LockManager :=
  {| maxConcurrent := maxConcurrent; chains := ∅; permits_taken := 0;
     next_unit := 0; history := [] |}.

(** Modelled from the spec: what can happen to the controller, which is not
    in the sources: [acquireLock(key, work)] is called; the event loop lets
    the oldest unit of a key take a permit and start; the executing unit of
    a key settles. *)
Inductive LockAction :=
| AcquireLock (key : jsstring)
| Begin (key : jsstring)
| Settle (key : jsstring) (resolved : bool).

(** Modelled from the spec: [acquireLock] and the continuations it chains,
    not in the sources.  Enqueuing work for a key appends a link to the
    chain of that key (an empty key is an invalid argument and enqueues
    nothing); a link, when its turn arrives, first acquires a permit,
    waiting if none is free, and executes; when the work completes or
    fails the permit is released and the chain advances to the next entry
    of that key, or the map entry is removed if none remains.  [None]: the
    action cannot happen in this state. *)
Definition lockStep (lm : LockManager) (a : LockAction)
  : option LockManager :=
  match a with
  | AcquireLock key =>
      if negb (truthy key) then Some lm
      else
        let u := next_unit lm in
        let chain :=
          match chains lm !! key with
          | Some (executing, units) => (executing, units ++ [u])
          | None => (false, [u])
          end in
        Some {| maxConcurrent := maxConcurrent lm;
                chains := <[key := chain]> (chains lm);
                permits_taken := permits_taken lm;
                next_unit := S u;
                history := history lm ++ [Submitted key u] |}
  | Begin key =>
      match chains lm !! key with
      | Some (false, u :: units) =>
          if Nat.ltb (permits_taken lm) (maxConcurrent lm)
          then Some {| maxConcurrent := maxConcurrent lm;
                       chains := <[key := (true, u :: units)]> (chains lm);
                       permits_taken := S (permits_taken lm);
                       next_unit := next_unit lm;
                       history := history lm ++ [Started key u] |}
          else None
      | _ => None
      end
  | Settle key resolved =>
      match chains lm !! key with
      | Some (true, u :: units) =>
          Some {| maxConcurrent := maxConcurrent lm;
                  chains := match units with
                            | [] => delete key (chains lm)
                            | _ => <[key := (false, units)]> (chains lm)
                            end;
                  permits_taken := Nat.pred (permits_taken lm);
                  next_unit := next_unit lm;
                  history := history lm ++ [Settled key u resolved] |}
      | _ => None
      end
  end.

Fixpoint lockRun (lm : LockManager) (actions : list LockAction)
  : option LockManager :=
  match actions with
  | [] => Some lm
  | a :: rest =>
      match lockStep lm a with
      | Some lm' => lockRun lm' rest
      | None => None
      end
  end.

(** The units submitted under a key, in submission order. *)
Fixpoint submissions (key : jsstring) (h : list LockEvent) : list nat :=
  match h with
  | [] => []
  | Submitted k u :: h' =>
      if str_eqb k key then u :: submissions key h' else submissions key h'
  | _ :: h' => submissions key h'
  end.

(** The units of a key that settled, in the order they settled. *)
Fixpoint completions (key : jsstring) (h : list LockEvent) : list nat :=
  match h with
  | [] => []
  | Settled k u _ :: h' =>
      if str_eqb k key then u :: completions key h' else completions key h'
  | _ :: h' => completions key h'
  end.

(** Scans a history for the lifetimes of the units of a key: [executing] is
    the unit of that key that started and has not settled.  The result is
    [None] when a unit of the key starts while another one executes, or
    settles without being the one that executes; otherwise it is the unit
    executing at the end. *)
Fixpoint lifetimes (key : jsstring) (executing : option nat)
    (h : list LockEvent) : option (option nat) :=
  match h with
  | [] => Some executing
  | Started k u :: h' =>
      if str_eqb k key then
        match executing with
        | None => lifetimes key (Some u) h'
        | Some _ => None
        end
      else lifetimes key executing h'
  | Settled k u _ :: h' =>
      if str_eqb k key then
        match executing with
        | Some v => if Nat.eqb u v then lifetimes key None h' else None
        | None => None
        end
      else lifetimes key executing h'
  | Submitted _ _ :: h' => lifetimes key executing h'
  end.

(** No two units of the key have overlapping lifetimes in the history. *)
Definition no_overlap (key : jsstring) (h : list LockEvent) : bool :=
  match lifetimes key None h with
  | Some _ => true
  | None => false
  end.

(** The units of a key still in its chain. *)
Definition pending (key : jsstring) (lm : LockManager) : list nat :=
  match chains lm !! key with
  | Some (_, units) => units
  | None => []
  end.

(** The unit of a key that holds a permit. *)
Definition executing (key : jsstring) (lm : LockManager) : option nat :=
  match chains lm !! key with
  | Some (true, u :: _) => Some u
  | _ => None
  end.

(** What every reachable state of the controller satisfies, key by key: the
    chain is not empty, it holds the units submitted and not yet settled,
    in submission order, and the history shows one lifetime at a time. *)
Definition chain_invariant (lm : LockManager) (key : jsstring) : Prop :=
  (forall flag, chains lm !! key <> Some (flag, []))
  /\ submissions key (history lm)
     = completions key (history lm) ++ pending key lm
  /\ lifetimes key None (history lm) = Some (executing key lm).

(** ** Observing a run *)

(** No collaborator fails. *)
Definition no_fault (E : Env) : Prop := forall op n, fault E op n = None.

(** The events a run added to the trace. *)
Definition new_events (before after : State) : list Event :=
  skipn (length (trace before)) (trace after).



(** The events that follow the query of the backend, if there is one. *)
Fixpoint after_query (evs : list Event) : option (list Event) :=
  match evs with
  | [] => None
  | EvQuery _ _ _ :: rest => Some rest
  | _ :: rest => after_query rest
  end.

(** The events of the command handler and of the answers to the sender: no
    query of the backend, no session created. *)
Definition quiet_event (ev : Event) : Prop :=
  match ev with
  | EvQuery _ _ _ | EvChunk _ | EvCreateSession _ _ => False
  | _ => True
  end.

(** The events that are not the query of the backend. *)
Definition silent_event (ev : Event) : Prop :=
  match ev with
  | EvQuery _ _ _ => False
  | _ => True
  end.

Definition is_send (ev : Event) : Prop :=
  match ev with EvSend _ _ => True | _ => False end.


(** The conversation record of a platform conversation, and whether a
    codebase is linked to it. *)
Definition findConversation (platformType conversationId : jsstring)
    (s : State) : option Conversation :=
  List.find (fun c => str_eqb (platform_type c) platformType
                      && str_eqb (platform_conversation_id c) conversationId)
            (conversations s).

Definition linkedCodebase (platformType conversationId : jsstring)
    (s : State) : bool :=
  match findConversation platformType conversationId s with
  | Some c => truthy_opt (conv_codebase_id c)
  | None => false
  end.

(** The active session of a conversation. *)
Definition activeSession (conversation_id : jsstring) (s : State)
  : option Session :=
  List.find (fun x => str_eqb (sess_conversation_id x) conversation_id
                      && active x)
            (sessions s).

(** At most one session is active per conversation. *)
Definition active_count (conversation_id : jsstring) (ss : list Session)
  : nat :=
  length (List.filter
            (fun x => str_eqb (sess_conversation_id x) conversation_id
                      && active x) ss).

Definition single_active (s : State) : Prop :=
  forall conversation_id,
    (active_count conversation_id (sessions s) <= 1)%nat.

(** The normalized text is a [/command-invoke] of the named command. *)
Definition invokes (name text : jsstring) : bool :=
  startsWith (js "/command-invoke") text
  && commandIs name (head (args (parseCommand text))).

(** The name [handleMessage] keeps in [commandName]. *)
Definition commandNameOf (text : jsstring) : option jsstring :=
  if startsWith (js "/command-invoke") text
  then head (args (parseCommand text))
  else None.

(** What stream mode does with one chunk. *)
Definition streamReaction (E : Env) (conversationId session_id : jsstring)
    (c : MessageChunk) : list Event :=
  match chunk_type c with
  | assistant =>
      if truthy_opt (content c)
      then [EvSend conversationId (or_else (content c) [])] else []
  | tool =>
      if truthy_opt (toolName c)
      then [EvSend conversationId
              (formatToolCall E (or_else (toolName c) []) (toolInput c))]
      else []
  | result =>
      if truthy_opt (sessionId c)
      then [EvUpdateSession session_id (or_else (sessionId c) [])] else []
  | _ => []
  end.

Definition streamEvents (E : Env) (conversationId session_id : jsstring)
    (chunks : list MessageChunk) : list Event :=
  flat_map (fun c => EvChunk c
                     :: streamReaction E conversationId session_id c)
           chunks.

(** What batch mode does with one chunk. *)
Definition batchReaction (session_id : jsstring) (c : MessageChunk)
  : list Event :=
  match chunk_type c with
  | result =>
      if truthy_opt (sessionId c)
      then [EvUpdateSession session_id (or_else (sessionId c) [])] else []
  | _ => []
  end.

Definition batchEvents (session_id : jsstring) (chunks : list MessageChunk)
  : list Event :=
  flat_map (fun c => EvChunk c :: batchReaction session_id c) chunks.

(** The texts of the assistant-text chunks of a stream: the chunks of type
    [assistant] that carry a content. *)
Definition assistantTexts (chunks : list MessageChunk) : list jsstring :=
  flat_map (fun c => match chunk_type c with
                     | assistant =>
                         if truthy_opt (content c)
                         then [or_else (content c) []] else []
                     | _ => []
                     end)
           chunks.


(** The summary with the amendment: the rejoined text is trimmed, and the
    chunk itself is the summary when the trimmed text is empty. *)
Definition summaryOf (lastChunk : jsstring) : jsstring :=
  let kept := List.filter (fun section =>
                             negb (startsWithToolIndicator (trim section)))
                          (splitOn (nl ++ nl) lastChunk) in
  let text := trim (join_with (nl ++ nl) kept) in
  match text with
  | [] => lastChunk
  | _ => text
  end.

(** The row [createSession] inserts. *)
Definition newSession (E : Env) (conversation_id : jsstring)
    (codebase_id : option jsstring) (ai_assistant_type : jsstring)
    (s : State) : Session :=
  {| sess_id := uuid E (next_row s);
     sess_conversation_id := conversation_id;
     sess_codebase_id := codebase_id;
     sess_ai_assistant_type := ai_assistant_type;
     assistant_session_id := None; active := true; metadata := ∅ |}.

(** The events of a run that reaches the backend, given the session [old]
    that was active when the message arrived and the command name: first
    the session is settled, then the backend is queried and its stream
    delivered, then the command name is recorded. *)
Definition needsNewSession (old : option Session)
    (commandName : option jsstring) : bool :=
  commandIs (js "execute") commandName
  && lastCommandIs (js "plan-feature") old.

Definition sessionEvents (old : option Session) (rotate : bool)
    (id conversation_id : jsstring) : list Event :=
  if rotate
  then match old with
       | Some x => [EvDeactivateSession (sess_id x)]
       | None => []
       end ++ [EvCreateSession id conversation_id]
  else match old with
       | Some _ => []
       | None => [EvCreateSession id conversation_id]
       end.

Definition sessionToken (old : option Session) (rotate : bool)
  : option jsstring :=
  if rotate then None
  else match old with Some x => resumeToken x | None => None end.

Definition sessionUsed (old : option Session) (rotate : bool)
    (id : jsstring) : jsstring :=
  if rotate then id
  else match old with Some x => sess_id x | None => id end.

Definition deliveryEvents (E : Env) (mode : StreamingMode)
    (conversationId session_id : jsstring) (chunks : list MessageChunk)
  : list Event :=
  match mode with
  | StreamMode => streamEvents E conversationId session_id chunks
  | BatchMode =>
      batchEvents session_id chunks
      ++ match last (assistantTexts chunks) with
         | Some lastChunk => [EvSend conversationId (summaryOf lastChunk)]
         | None => []
         end
  end.

Definition recordEvents (session_id : jsstring)
    (commandName : option jsstring) : list Event :=
  if truthy_opt commandName
  then [EvUpdateSessionMetadata session_id (or_else commandName [])]
  else [].

Definition ai_run (E : Env) (platform : Platform)
    (conversationId : jsstring) (conversation : Conversation)
    (old : option Session) (commandName : option jsstring)
    (evs : list Event) : Prop :=
  exists id prompt cwd chunks,
    let rotate := needsNewSession old commandName in
    let session_id := sessionUsed old rotate id in
    evs = sessionEvents old rotate id (conv_id conversation)
          ++ EvQuery prompt cwd (sessionToken old rotate)
          :: deliveryEvents E (getStreamingMode platform) conversationId
                            session_id chunks
          ++ recordEvents session_id commandName.




(** ** Scenarios *)

Definition asciiLower (s : jsstring) : jsstring :=
  map (fun c => if (65 <=? c) && (c <=? 90) then c + 32 else c) s.

Definition textChunk (t : jsstring) : MessageChunk :=
  {| chunk_type := assistant; content := Some t; sessionId := None;
     toolName := None; toolInput := None |}.


Definition resultChunk (token : jsstring) : MessageChunk :=
  {| chunk_type := result; content := None; sessionId := Some token;
     toolName := None; toolInput := None |}.

(** An environment in which the operations of [down] fail and whose backend
    streams the given chunks. *)
Definition scenarioEnv (down : Op -> bool) (chunks : list MessageChunk)
  : Env :=
  {| fault := fun op _ => if down op then Some (js "unreachable") else None;
     uuid := fun n => js "row-" ++ decimal n;
     default_assistant := js "claude";
     ai_stream := fun _ _ _ _ _ => chunks;
     file_text := fun _ _ => js "Do the work.";
     dir_entries := fun _ _ => [];
     GH_TOKEN := None;
     GITHUB_TOKEN := None;
     toLowerCase := asciiLower;
     path_join := fun a b => a ++ js "/" ++ b;
     path_basename := fun name _ => name;
     formatToolCall := fun name _ => js "TOOL " ++ name;
     substituteVariables := fun text _ => text |}.

Definition allUp (op : Op) : bool := false.


Definition telegramStream : Platform :=
  {| getStreamingMode := StreamMode; getPlatformType := js "telegram" |}.


Definition emptyState : State :=
  {| conversations := []; codebases := []; sessions := []; next_row := 0;
     tick := 0; trace := [] |}.

(** The conversation [chat-1] with a codebase linked, and no session. *)
Definition linkedState : State :=
  {| conversations :=
       [{| conv_id := js "conv-1"; platform_type := js "telegram";
           platform_conversation_id := js "chat-1";
           conv_codebase_id := Some (js "cb-1");
           conv_cwd := Some (js "/workspace/app");
           conv_ai_assistant_type := js "claude" |}];
     codebases :=
       [{| cb_id := js "cb-1"; cb_name := js "app";
           repository_url := None; default_cwd := js "/workspace/app";
           cb_ai_assistant_type := js "claude";
           commands :=
             [(js "plan-feature",
               {| cmd_path := js "plan.md"; cmd_description := js "plan" |});
              (js "execute",
               {| cmd_path := js "execute.md";
                  cmd_description := js "execute" |})] |}];
     sessions := []; next_row := 2; tick := 0; trace := [] |}.

(** The same with an active session that remembers a backend token and
    [plan-feature] as its last command. *)
Definition plannedSession : Session :=
  {| sess_id := js "sess-1"; sess_conversation_id := js "conv-1";
     sess_codebase_id := Some (js "cb-1");
     sess_ai_assistant_type := js "claude";
     assistant_session_id := Some (js "tok-1"); active := true;
     metadata := {[ js "lastCommand" := js "plan-feature" ]} |}.

Definition plannedState : State := set_sessions [plannedSession] linkedState.

(** Two submissions under one key and one under another, interleaved with
    the start and the settlement of the first. *)
Definition scenarioActions : list LockAction :=
  [AcquireLock (js "chat-1"); AcquireLock (js "chat-2");
   AcquireLock (js "chat-1"); Begin (js "chat-1"); Begin (js "chat-2");
   Settle (js "chat-1") false; Begin (js "chat-1")].

Definition scenarioLock : LockManager :=
  match lockRun (newLockManager 2) scenarioActions with
  | Some lm => lm
  | None => newLockManager 2
  end.

(** ** Relations between the state before and after a run *)

(** Every run of [m], resolved or rejected, relates the state it starts in
    to the state it ends in. *)
Definition respects {A} (R : State -> State -> Prop) (E : Env) (m : M A)
  : Prop :=
  forall s, R s (snd (m E s)).

(** The sessions after are the sessions before, none added, none moved to
    another conversation, none activated. *)
Definition sessions_shrink (s s' : State) : Prop :=
  Forall2 (fun x y => sess_conversation_id y = sess_conversation_id x
                      /\ (active y = true -> active x = true))
          (sessions s) (sessions s').

(** The trace after is the trace before and events that all satisfy
    [okev]. *)
Definition trace_grows (okev : Event -> Prop) (s s' : State) : Prop :=
  exists evs, trace s' = trace s ++ evs /\ Forall okev evs.

Definition step_rel (okev : Event -> Prop) (s s' : State) : Prop :=
  sessions_shrink s s' /\ trace_grows okev s s'.

(** Every run of [m] that starts with at most one active session per
    conversation ends with at most one. *)
Definition preserves {A} (E : Env) (m : M A) : Prop :=
  forall s, single_active s -> single_active (snd (m E s)).


(** * The rest of the handlers and the Slack adapter *)

(** ** Command lines as a sender writes them *)

(** An argument as it is written: a bare word, or a run of code units
    between two quotes of the same kind. *)
Inductive Argument :=
| Bare (word : jsstring)
| Quoted (quote : N) (body : jsstring).

Definition written (a : Argument) : jsstring :=
  match a with
  | Bare word => word
  | Quoted quote body => quote :: body ++ [quote]
  end.

(** The value the sender means by it. *)
Definition meant (a : Argument) : jsstring :=
  match a with
  | Bare word => word
  | Quoted _ body => body
  end.

Definition is_quote (c : N) : bool := (c =? dq) || (c =? sq).

Definition no_ws (s : jsstring) : bool := forallb (fun c => negb (is_ws c)) s.

(** A bare word is not empty, holds no white space and does not open with
    a quote; a quoted run is not empty and does not hold its own quote. *)
Definition well_written (a : Argument) : bool :=
  match a with
  | Bare word =>
      match word with
      | [] => false
      | c :: _ => negb (is_quote c) && no_ws word
      end
  | Quoted quote body =>
      is_quote quote && truthy body
      && forallb (fun c => negb (c =? quote)) body
  end.

(** A slash, the command name, and the arguments, separated by one
    space. *)
Definition commandLine (name : jsstring) (arguments : list Argument)
  : jsstring :=
  join_with (js " ") ((slash :: name) :: map written arguments).

(** What may follow a match of the scanner: the end of the text, or white
    space. *)
Definition breaks (t : jsstring) : Prop :=
  match t with [] => True | c :: _ => is_ws c = true end.

(** ** The Slack adapter ([adapters/slack.ts]) *)

Module SlackAdapter.

Definition MAX_LENGTH : N := 4000.

(** [s.length] *)
Definition strlen (s : jsstring) : N := N.of_nat (length s).

(** The argument of one call to [app.client.chat.postMessage]. *)
Record PostMessage := {
  channel : jsstring;
  text : jsstring;
  thread_ts : option jsstring
}.

(** The calls to [chat.postMessage] that went through, in order.  The Web
    API decides for each call whether it throws: [refuses n] is the error
    of the call made after [n] calls went through, if it has one. *)
Definition Posted := list PostMessage.

Definition postMessage (refuses : nat -> option jsstring) (p : PostMessage)
    (posted : Posted) : Res unit * Posted :=
  match refuses (length posted) with
  | Some err => (Throw err, posted)
  | None => (Ok tt, posted ++ [p])
  end.

(** [parts[1] || undefined] *)
Definition parseConversationId (conversationId : jsstring)
  : jsstring * option jsstring :=
  let parts := splitOn (js ":") conversationId in
  (nth 0 parts [],
   match nth_error parts 1 with
   | Some ts => if truthy ts then Some ts else None
   | None => None
   end).

(** The loop over the lines of a long message; it resolves with the chunk
    that is left to send. *)
Fixpoint sendLines (refuses : nat -> option jsstring)
    (channel : jsstring) (threadTs : option jsstring)
    (lines : list jsstring) (chunk : jsstring) (posted : Posted)
  : Res jsstring * Posted :=
  match lines with
  | [] => (Ok chunk, posted)
  | line :: rest =>
      if MAX_LENGTH - 100 <? strlen chunk + strlen line + 1
      then
        match (if truthy chunk
               then postMessage refuses
                      {| channel := channel; text := chunk;
                         thread_ts := threadTs |} posted
               else (Ok tt, posted)) with
        | (Ok _, posted') =>
            sendLines refuses channel threadTs rest line posted'
        | (Throw err, posted') => (Throw err, posted')
        end
      else
        sendLines refuses channel threadTs rest
          (chunk ++ (if truthy chunk then nl else []) ++ line) posted
  end.

Definition sendMessage (refuses : nat -> option jsstring)
    (conversationId message : jsstring) (posted : Posted)
  : Res unit * Posted :=
  let (channel, threadTs) := parseConversationId conversationId in
  if strlen message <=? MAX_LENGTH
  then postMessage refuses
         {| channel := channel; text := message; thread_ts := threadTs |}
         posted
  else
    match sendLines refuses channel threadTs (splitOn nl message) []
                    posted with
    | (Ok chunk, posted') =>
        if truthy chunk
        then postMessage refuses
               {| channel := channel; text := chunk;
                  thread_ts := threadTs |} posted'
        else (Ok tt, posted')
    | (Throw err, posted') => (Throw err, posted')
    end.

(** The adapter: of the constructor's arguments only the mode is kept
    outside the Bolt application; it defaults to stream mode. *)
Record t := { streamingMode : StreamingMode }.

Definition new (botToken appToken : jsstring) (mode : option StreamingMode)
  : t :=
  {| streamingMode := match mode with Some m => m | None => StreamMode end |}.

(** The adapter as the orchestrator sees it. *)
Definition platform (adapter : t) : Platform :=
  {| getStreamingMode := streamingMode adapter;
     getPlatformType := js "slack" |}.

Record SlackMessageEvent := {
  event_channel : jsstring;
  event_thread_ts : option jsstring;
  event_ts : jsstring;
  event_text : option jsstring;
  event_user : option jsstring
}.

Definition getConversationId (event : SlackMessageEvent) : jsstring :=
  event_channel event.

(** The texts the loop of [sendMessage] posts when no call is refused, and
    the chunk it ends with. *)
Fixpoint grouped (lines : list jsstring) (chunk : jsstring)
  : list jsstring * jsstring :=
  match lines with
  | [] => ([], chunk)
  | line :: rest =>
      if MAX_LENGTH - 100 <? strlen chunk + strlen line + 1
      then ((if truthy chunk then [chunk] else [])
              ++ fst (grouped rest line),
            snd (grouped rest line))
      else grouped rest (chunk ++ (if truthy chunk then nl else []) ++ line)
  end.

(** The call that posts [text]. *)
Definition post (channel : jsstring) (threadTs : option jsstring)
    (text : jsstring) : PostMessage :=
  {| channel := channel; text := text; thread_ts := threadTs |}.

(** The lines of a text that are not empty. *)
Definition nonEmptyLines (s : jsstring) : list jsstring :=
  List.filter truthy (splitOn nl s).

End SlackAdapter.

(** A message of a hundred lines of fifty code units. *)
Definition longMessage : jsstring :=
  join_with nl
    (repeat (js "01234567890123456789012345678901234567890123456789") 100).

(** The labels of the [switch] of [handleCommand]. *)
Definition handledCommands : list jsstring :=
  [js "help"; js "status"; js "getcwd"; js "setcwd"; js "clone";
   js "command-set"; js "load-commands"; js "commands"; js "repos";
   js "reset"].

(** The answer of the [default] case. *)
Definition unknownCommandText (command : jsstring) : jsstring :=
  js "Unknown command: /" ++ command ++ nl ++ nl
  ++ js "Type /help to see available commands.".

(** The answer to a [/command-invoke] of a name that is not registered. *)
Definition commandNotFoundText (name : jsstring) : jsstring :=
  js "Command '" ++ name ++ js "' not found. Use /commands to see available.".

(** The conversation and the codebase of [linkedState]. *)
Definition scenarioConversation : Conversation :=
  {| conv_id := js "conv-1"; platform_type := js "telegram";
     platform_conversation_id := js "chat-1";
     conv_codebase_id := Some (js "cb-1");
     conv_cwd := Some (js "/workspace/app");
     conv_ai_assistant_type := js "claude" |}.

Definition scenarioCodebase : Codebase :=
  {| cb_id := js "cb-1"; cb_name := js "app";
     repository_url := None; default_cwd := js "/workspace/app";
     cb_ai_assistant_type := js "claude";
     commands :=
       [(js "plan-feature",
         {| cmd_path := js "plan.md"; cmd_description := js "plan" |});
        (js "execute",
         {| cmd_path := js "execute.md";
            cmd_description := js "execute" |})] |}.

Definition readDown (op : Op) : bool :=
  match op with OpReadFile => true | _ => false end.

Definition execDown (op : Op) : bool :=
  match op with OpExec => true | _ => false end.

(** The backend tokens a stream reports, in order: the session identifiers
    of its [result] chunks. *)
Definition reportedTokens (chunks : list MessageChunk) : list jsstring :=
  flat_map (fun c => match chunk_type c with
                     | result =>
                         if truthy_opt (sessionId c)
                         then [or_else (sessionId c) []] else []
                     | _ => []
                     end)
           chunks.

(** The sessions once the tokens are stored on the session [id], one after
    the other. *)
Definition storeTokens (id : jsstring) (tokens : list jsstring)
    (ss : list Session) : list Session :=
  fold_left (fun ss t => on_session id (set_token t) ss) tokens ss.

(** The sessions once the command name of the run is recorded. *)
Definition recordCommand (id : jsstring) (commandName : option jsstring)
    (ss : list Session) : list Session :=
  if truthy_opt commandName
  then on_session id (set_lastCommand (or_else commandName [])) ss
  else ss.

(** What storing tokens and recording a command name do to one session. *)
Definition withTokens (id : jsstring) (tokens : list jsstring)
    (x : Session) : Session :=
  fold_left (fun x t => if str_eqb (sess_id x) id then set_token t x else x)
            tokens x.

Definition withCommand (id : jsstring) (commandName : option jsstring)
    (x : Session) : Session :=
  if truthy_opt commandName && str_eqb (sess_id x) id
  then set_lastCommand (or_else commandName []) x
  else x.

(** A backend that answers every query with a text and a token. *)
Definition answeringEnv : Env :=
  scenarioEnv allUp [textChunk (js "done"); resultChunk (js "tok-2")].

(** A run of [m], resolved or rejected, leaves the observation [obs] of
    the store as it was. *)
Definition frames {A X} (obs : State -> X) (E : Env) (m : M A) : Prop :=
  respects (fun s s' => obs s' = obs s) E m.

(** The entries [findMarkdownFilesRecursive] does not skip. *)
Definition visible (entry : Dirent) : bool :=
  negb (startsWith (js ".") (dirent_name entry)
        || str_eqb (dirent_name entry) (js "node_modules")).

(** A directory tree without the entries that are skipped, at any depth. *)
Fixpoint pruneEntry (entry : Dirent) : Dirent :=
  match entry with
  | DirEntry name sub =>
      DirEntry name
        ((fix pruneAll (l : list Dirent) : list Dirent :=
            match l with
            | [] => []
            | e :: l' =>
                if visible e then pruneEntry e :: pruneAll l'
                else pruneAll l'
            end) sub)
  | _ => entry
  end.

Fixpoint prune (l : list Dirent) : list Dirent :=
  match l with
  | [] => []
  | e :: l' => if visible e then pruneEntry e :: prune l' else prune l'
  end.

(** What [obj[key] = v] leaves under the key for [JSON.stringify] to write:
    the value, except that [__proto__] takes it only on an object that has
    an own property of that name. *)
Definition assigned {V} (key : jsstring) (v : V)
    (entries : list (jsstring * V)) : option V :=
  if str_eqb key (js "__proto__")
  then option_map (fun _ => v) (assoc key entries)
  else Some v.

(** The definition [/load-commands] registers for a file it found. *)
Definition loadedCommand (E : Env) (folderPath : jsstring) (f : MdFile)
  : CommandDef :=
  {| cmd_path := path_join E folderPath (relativePath f);
     cmd_description := js "From " ++ folderPath |}.

(** A command folder: a command, a directory with a command of the same
    name and a text file, and a hidden directory. *)
Definition commandFolder : list Dirent :=
  [FileEntry (js "plan.md");
   DirEntry (js "team")
     [FileEntry (js "plan.md"); FileEntry (js "notes.txt")];
   DirEntry (js ".git") [FileEntry (js "HEAD.md")]].

Definition folderEnv : Env :=
  {| fault := fun _ _ => None;
     uuid := fun n => js "row-" ++ decimal n;
     default_assistant := js "claude";
     ai_stream := fun _ _ _ _ _ => [];
     file_text := fun _ _ => js "Do the work.";
     dir_entries := fun _ _ => commandFolder;
     GH_TOKEN := None;
     GITHUB_TOKEN := None;
     toLowerCase := asciiLower;
     path_join := fun a b => if truthy a then a ++ js "/" ++ b else b;
     path_basename := fun name ext =>
       if endsWith ext name
       then firstn (length name - length ext) name else name;
     formatToolCall := fun name _ => js "TOOL " ++ name;
     substituteVariables := fun text _ => text |}.



(** The prompt [handleMessage] builds for a [/command-invoke] from the text
    of the command file. *)
Definition invocationPrompt (E : Env) (commandText : jsstring)
    (args : list jsstring) (issueContext : option jsstring) : jsstring :=
  substituteVariables E commandText args
  ++ (if truthy_opt issueContext
      then nl ++ nl ++ js "---" ++ nl ++ nl ++ or_else issueContext []
      else []).

(** The directory [handleMessage] gives the backend. *)
Definition queryDirectory (conversation : Conversation)
    (codebase : option Codebase) : jsstring :=
  or_else (conv_cwd conversation)
          (or_else (option_map default_cwd codebase) (js "/workspace")).

(** * Properties *)

(** ** The command parser *)

Lemma matchAll_bare (s acc : jsstring) :
  matchAll s (InBare acc)
  = (acc ++ takeWord s) :: matchAll (dropWord s) Between.
Proof.
  revert acc. induction s as [|c s IH]; intros acc; simpl.
  - now rewrite app_nil_r.
  - destruct (is_ws c) eqn:Hc.
    + rewrite app_nil_r. simpl. now rewrite Hc.
    + rewrite IH. now rewrite <- app_assoc.
Qed.

Lemma matchAll_trimStart (s : jsstring) :
  matchAll s Between = matchAll (trimStart s) Between.
Proof.
  induction s as [|c s IH]; simpl; [reflexivity|].
  destruct (is_ws c) eqn:Hc; [exact IH|].
  simpl. now rewrite Hc.
Qed.

Lemma trimStart_head (s : jsstring) (c : N) (rest : jsstring) :
  trimStart s = c :: rest -> is_ws c = false.
Proof.
  induction s as [|d s IH]; simpl; [discriminate|].
  destruct (is_ws d) eqn:Hd; [exact IH|].
  intros H. injection H as -> _. exact Hd.
Qed.

(** Whatever the input, the command name is the first match of the scanner
    without its first code unit. *)
Lemma parseCommand_command (text : jsstring) :
  command (parseCommand text) = substring1 (hd [] (matchAll text Between)).
Proof.
  unfold parseCommand.
  destruct (matchAll text Between) as [|m0 ms]; [reflexivity|].
  destruct m0; reflexivity.
Qed.

(** C9: parsing the text [/command-invoke plan] followed by the
    double-quoted argument [multi word arg] gives the command name
    [command-invoke] and exactly two arguments, [plan] and
    [multi word arg]: the quoted argument is one argument, its quotes
    stripped and its inner spacing kept. *)
Theorem parseCommand_quoted_argument :
  parseCommand (js "/command-invoke plan " ++ [dq] ++ js "multi word arg"
                ++ [dq])
  = {| command := js "command-invoke";
       args := [js "plan"; js "multi word arg"] |}.
Proof. vm_compute. reflexivity. Qed.

(** C10, as stated, fails: when the text opens with a quoted run, the first
    match of the scanner is that whole run, white space included, and not
    the first white-space-delimited token.  For the text made of a double
    quote, [a b] and a double quote, that token is the quote and [a], and
    the command name is [a b] and the closing quote. *)
Lemma parseCommand_first_word_counterexample :
  ~ (forall text : jsstring,
       startsWith [slash] (firstToken text) = false ->
       command (parseCommand text) = substring1 (firstToken text)).
Proof.
  intros H.
  specialize (H ([dq] ++ js "a b" ++ [dq]) eq_refl).
  vm_compute in H. discriminate H.
Qed.

(** C10, amended: [parseCommand] removes the first code unit of the first
    match of its scanner whether or not it is a slash; and for every text
    whose first white-space-delimited token starts with a code unit that is
    not a quote, a slash or not, the command name is that token without its
    first code unit. *)
Theorem parseCommand_drops_first_code_unit (text : jsstring) :
  command (parseCommand text) = substring1 (hd [] (matchAll text Between))
  /\ forall (c : N) (tok : jsstring),
       firstToken text = c :: tok ->
       c <> dq -> c <> sq ->
       command (parseCommand text) = tok.
Proof.
  split; [apply parseCommand_command|].
  intros c tok Htok Hdq Hsq.
  rewrite parseCommand_command, matchAll_trimStart.
  unfold firstToken in Htok.
  destruct (trimStart text) as [|d rest] eqn:Ht; [discriminate|].
  pose proof (trimStart_head _ _ _ Ht) as Hd.
  simpl in Htok. rewrite Hd in Htok. injection Htok as -> <-.
  simpl. rewrite Hd.
  apply N.eqb_neq in Hdq, Hsq. rewrite Hdq, Hsq. simpl.
  rewrite matchAll_bare. reflexivity.
Qed.

Lemma parseCommand_drops_first_code_unit_witness :
  command (parseCommand (js "clone x")) = js "lone".
Proof.
  apply (proj2 (parseCommand_drops_first_code_unit (js "clone x"))
               99 (js "lone")).
  - reflexivity.
  - discriminate.
  - discriminate.
Defined.

(** ** The admission controller *)

Lemma str_eqb_spec (a b : jsstring) : reflect (a = b) (str_eqb a b).
Proof.
  revert b. induction a as [|x a IH]; intros [|y b]; simpl;
    try (constructor; congruence).
  destruct (N.eqb_spec x y) as [->|Hne]; simpl.
  - destruct (IH b) as [->|Hne]; constructor; congruence.
  - constructor. congruence.
Qed.

Lemma str_eqb_refl (a : jsstring) : str_eqb a a = true.
Proof. destruct (str_eqb_spec a a); congruence. Qed.


Lemma submissions_app (key : jsstring) (h1 h2 : list LockEvent) :
  submissions key (h1 ++ h2) = submissions key h1 ++ submissions key h2.
Proof.
  induction h1 as [|[k u|k u|k u r] h1 IH]; simpl; try assumption.
  - reflexivity.
  - destruct (str_eqb k key); simpl; congruence.
Qed.

Lemma completions_app (key : jsstring) (h1 h2 : list LockEvent) :
  completions key (h1 ++ h2) = completions key h1 ++ completions key h2.
Proof.
  induction h1 as [|[k u|k u|k u r] h1 IH]; simpl; try assumption.
  - reflexivity.
  - destruct (str_eqb k key); simpl; congruence.
Qed.

Lemma lifetimes_app (key : jsstring) (h1 h2 : list LockEvent)
    (o : option nat) :
  lifetimes key o (h1 ++ h2)
  = match lifetimes key o h1 with
    | Some o' => lifetimes key o' h2
    | None => None
    end.
Proof.
  revert o. induction h1 as [|[k u|k u|k u r] h1 IH]; intros o; simpl.
  - reflexivity.
  - apply IH.
  - destruct (str_eqb k key); [|apply IH].
    destruct o; [reflexivity|apply IH].
  - destruct (str_eqb k key); [|apply IH].
    destruct o as [v|]; [|reflexivity].
    destruct (Nat.eqb u v); [apply IH|reflexivity].
Qed.

Lemma chain_invariant_init (n : nat) (key : jsstring) :
  chain_invariant (newLockManager n) key.
Proof.
  unfold chain_invariant, pending, executing. simpl.
  rewrite lookup_empty. repeat split. intros flag. discriminate.
Qed.

Lemma chain_invariant_step (lm lm' : LockManager) (a : LockAction) :
  (forall key, chain_invariant lm key) ->
  lockStep lm a = Some lm' ->
  forall key, chain_invariant lm' key.
Proof.
  intros Hinv Hstep key. destruct (Hinv key) as (Hne & Hsub & Hlife).
  unfold chain_invariant, pending, executing in *.
  destruct a as [k|k|k r]; simpl in Hstep.
  - (* acquireLock *)
    destruct (truthy k); simpl in Hstep;
      [|injection Hstep as <-; auto].
    injection Hstep as <-. simpl.
    rewrite submissions_app, completions_app, lifetimes_app, Hlife. simpl.
    rewrite app_nil_r.
    destruct (str_eqb_spec k key) as [->|Hk].
    + rewrite lookup_insert_eq.
      destruct (chains lm !! key) as [[flag units]|] eqn:Hc.
      * repeat split.
        -- intros f H. injection H as _ H. now destruct units.
        -- rewrite Hsub, <- app_assoc. reflexivity.
        -- destruct flag; [|reflexivity].
           destruct units; [|reflexivity]. now destruct (Hne true).
      * repeat split.
        -- intros f H. discriminate H.
        -- rewrite Hsub, <- app_assoc. reflexivity.
    + rewrite lookup_insert_ne by assumption.
      rewrite app_nil_r. auto.
  - (* a unit takes a permit and starts *)
    destruct (chains lm !! k) as [[[] [|u units]]|] eqn:Hc;
      try discriminate Hstep.
    destruct (permits_taken lm <? maxConcurrent lm)%nat;
      [|discriminate Hstep].
    injection Hstep as <-. simpl.
    rewrite submissions_app, completions_app, lifetimes_app, Hlife. simpl.
    rewrite !app_nil_r.
    destruct (str_eqb_spec k key) as [->|Hk].
    + rewrite lookup_insert_eq. rewrite Hc in *.
      repeat split; [intros f H; discriminate H|assumption].
    + rewrite lookup_insert_ne by assumption. auto.
  - (* the executing unit settles *)
    destruct (chains lm !! k) as [[[] [|u units]]|] eqn:Hc;
      try discriminate Hstep.
    injection Hstep as <-. simpl.
    rewrite submissions_app, completions_app, lifetimes_app, Hlife. simpl.
    rewrite app_nil_r.
    destruct (str_eqb_spec k key) as [->|Hk].
    + rewrite Hc in *. rewrite Nat.eqb_refl.
      destruct units as [|v units].
      * rewrite lookup_delete_eq. repeat split.
        -- intros f H. discriminate H.
        -- rewrite Hsub. now rewrite app_nil_r.
      * rewrite lookup_insert_eq. repeat split.
        -- intros f H. discriminate H.
        -- rewrite Hsub. now rewrite <- app_assoc.
    + rewrite app_nil_r.
      destruct units as [|v units].
      * rewrite lookup_delete_ne by assumption. auto.
      * rewrite lookup_insert_ne by assumption. auto.
Qed.

Lemma chain_invariant_run (actions : list LockAction)
    (lm lm' : LockManager) :
  (forall key, chain_invariant lm key) ->
  lockRun lm actions = Some lm' ->
  forall key, chain_invariant lm' key.
Proof.
  revert lm. induction actions as [|a rest IH]; intros lm Hinv Hrun; simpl in Hrun.
  - injection Hrun as <-. exact Hinv.
  - destruct (lockStep lm a) as [lm1|] eqn:Hstep; [|discriminate Hrun].
    apply (IH lm1); [|exact Hrun].
    exact (chain_invariant_step lm lm1 a Hinv Hstep).
Qed.

(** C1: whatever calls of [acquireLock], starts and settlements happen, in
    whatever interleaving over whatever keys, the history of the controller
    shows for every key at most one unit executing at a time (a unit of
    the key starts only when none of that key executes, and the one that
    settles is the one that executes), and the units of the key settle in
    the order they were submitted: those submitted are those settled, in
    that order, followed by those still in the chain. *)
Theorem acquireLock_fifo_no_overlap
    (n : nat) (actions : list LockAction) (lm : LockManager)
    (key : jsstring) :
  lockRun (newLockManager n) actions = Some lm ->
  no_overlap key (history lm) = true
  /\ submissions key (history lm)
     = completions key (history lm) ++ pending key lm.
Proof.
  intros Hrun.
  destruct (chain_invariant_run actions _ lm (chain_invariant_init n) Hrun key)
    as (_ & Hsub & Hlife).
  split; [|exact Hsub].
  unfold no_overlap. now rewrite Hlife.
Qed.

Lemma acquireLock_fifo_no_overlap_witness :
  no_overlap (js "chat-1") (history scenarioLock) = true
  /\ submissions (js "chat-1") (history scenarioLock)
     = completions (js "chat-1") (history scenarioLock)
       ++ pending (js "chat-1") scenarioLock.
Proof.
  apply (acquireLock_fifo_no_overlap 2 scenarioActions scenarioLock
                                     (js "chat-1")).
  vm_compute. reflexivity.
Defined.

(** ** Runs and the relation they respect *)

Section Respects.
Variable okev : Event -> Prop.
Variable E : Env.

Lemma step_refl (s : State) : step_rel okev s s.
Proof.
  split.
  - unfold sessions_shrink. induction (sessions s); constructor; auto.
  - exists []. split; [now rewrite app_nil_r|constructor].
Qed.

Lemma step_trans (a b c : State) :
  step_rel okev a b -> step_rel okev b c -> step_rel okev a c.
Proof.
  intros [Hs1 (e1 & Ht1 & Hf1)] [Hs2 (e2 & Ht2 & Hf2)]. split.
  - unfold sessions_shrink in *.
    revert Hs2. generalize (sessions c).
    induction Hs1 as [|x y l1 l2 [Hc Ha] _ IH]; intros l3 Hs2;
      inversion Hs2 as [|y' z l2' l3' [Hc' Ha'] Hs2']; subst;
      constructor; auto.
    split; [congruence|auto].
  - exists (e1 ++ e2). split.
    + now rewrite Ht2, Ht1, app_assoc.
    + apply Forall_app; auto.
Qed.

Lemma step_same (s s' : State) :
  sessions s' = sessions s -> trace s' = trace s -> step_rel okev s s'.
Proof.
  intros Hs Ht. destruct (step_refl s) as [H1 (evs & H2 & H3)]. split.
  - unfold sessions_shrink in *. now rewrite Hs.
  - exists evs. now rewrite Ht.
Qed.

Lemma step_log (ev : Event) (s : State) :
  okev ev -> step_rel okev s (log ev s).
Proof.
  intros H. split.
  - apply (step_refl s).
  - exists [ev]. split; [reflexivity|]. constructor; [exact H|constructor].
Qed.

Lemma step_sessions (f : Session -> Session) (s : State) :
  (forall x, sess_conversation_id (f x) = sess_conversation_id x
             /\ (active (f x) = true -> active x = true)) ->
  step_rel okev s (set_sessions (map f (sessions s)) s).
Proof.
  intros Hf. split.
  - unfold sessions_shrink. simpl.
    induction (sessions s); simpl; constructor; auto.
  - exists []. simpl. split; [now rewrite app_nil_r|constructor].
Qed.

Lemma respects_ret {A} (a : A) : respects (step_rel okev) E (ret a).
Proof. intros s. apply step_refl. Qed.

Lemma respects_throw {A} (e : jsstring) :
  respects (step_rel okev) E (@throw A e).
Proof. intros s. apply step_refl. Qed.

Lemma respects_ask : respects (step_rel okev) E ask.
Proof. intros s. apply step_refl. Qed.

Lemma respects_get : respects (step_rel okev) E get.
Proof. intros s. apply step_refl. Qed.

Lemma respects_bind {A B} (m : M A) (k : A -> M B) :
  respects (step_rel okev) E m ->
  (forall a, respects (step_rel okev) E (k a)) ->
  respects (step_rel okev) E (bind m k).
Proof.
  intros Hm Hk s. unfold bind. specialize (Hm s).
  destruct (m E s) as [[a|e] s1]; simpl in *; [|exact Hm].
  eapply step_trans; [exact Hm|apply Hk].
Qed.

Lemma respects_tryCatch {A} (m : M A) (h : jsstring -> M A) :
  respects (step_rel okev) E m ->
  (forall e, respects (step_rel okev) E (h e)) ->
  respects (step_rel okev) E (tryCatch m h).
Proof.
  intros Hm Hh s. unfold tryCatch. specialize (Hm s).
  destruct (m E s) as [[a|e] s1]; simpl in *; [exact Hm|].
  eapply step_trans; [exact Hm|apply Hh].
Qed.


Lemma respects_quiet_modify (f : State -> State) :
  (forall s, sessions (f s) = sessions s) ->
  (forall s, trace (f s) = trace s) ->
  respects (step_rel okev) E (modify f).
Proof. intros H1 H2 s. simpl. apply step_same; auto. Qed.

Lemma respects_call (op : Op) : respects (step_rel okev) E (call op).
Proof.
  intros s. unfold call.
  destruct (fault E op (tick s)); simpl; now apply step_same.
Qed.

Lemma respects_emit (ev : Event) :
  okev ev -> respects (step_rel okev) E (emit ev).
Proof. intros H s. apply step_log, H. Qed.

Lemma respects_on_session (id : jsstring) (f : Session -> Session) :
  (forall x, sess_conversation_id (f x) = sess_conversation_id x
             /\ (active (f x) = true -> active x = true)) ->
  respects (step_rel okev) E
    (modify (fun s => set_sessions (on_session id f (sessions s)) s)).
Proof.
  intros Hf s. apply step_sessions. intros x.
  destruct (str_eqb (sess_id x) id); [apply Hf|auto].
Qed.
End Respects.

(** Induction on directory entries, with the entries of a directory. *)
Fixpoint Dirent_nested_ind (P : Dirent -> Prop)
    (Hfile : forall name, P (FileEntry name))
    (Hdir : forall name sub, Forall P sub -> P (DirEntry name sub))
    (Hother : forall name, P (OtherEntry name))
    (d : Dirent) : P d :=
  match d with
  | FileEntry name => Hfile name
  | DirEntry name sub =>
      Hdir name sub
        ((fix all (l : list Dirent) : Forall P l :=
            match l with
            | [] => @List.Forall_nil _ P
            | e :: l' =>
                @List.Forall_cons _ P e l' (Dirent_nested_ind P Hfile Hdir Hother e)
                            (all l')
            end) sub)
  | OtherEntry name => Hother name
  end.

Create HintDb ops discriminated.
Create HintDb respects_db discriminated.

#[global] Hint Unfold row_id createCodebase getCodebase updateCodebaseCommands
  getCodebaseCommands registerCommand findCodebaseByPath
  getOrCreateConversation updateConversation getActiveSession
  deactivateSession updateSession updateSessionMetadata sendMessage readFile
  writeFile readdir access execAsync getAssistantClient nextChunk
  findMarkdownFilesRecursive case_status case_getcwd case_setcwd case_clone
  case_command_set case_load_commands case_commands case_repos case_reset
  case_default handleCommand resolvePrompt streamChunk batchChunk : ops.

(** Walks down a computation: binds, handlers, branches, then the
    operations themselves. *)
Ltac walk_step :=
  match goal with
  | |- respects _ _ (bind _ _) => apply respects_bind; [|intros ?]
  | |- respects _ _ (tryCatch _ _) => apply respects_tryCatch; [|intros ?]
  | |- respects _ _ (ret _) => apply respects_ret
  | |- respects _ _ (throw _) => apply respects_throw
  | |- respects _ _ ask => apply respects_ask
  | |- respects _ _ get => apply respects_get
  | |- respects _ _ (call _) => apply respects_call
  | |- respects _ _ (emit _) => apply respects_emit; auto; try exact I
  | |- respects _ _
         (modify (fun s => set_sessions (on_session _ _ (sessions s)) s)) =>
      apply respects_on_session; intros ?; simpl;
      split; [reflexivity|intros ?; first [assumption|discriminate]]
  | |- respects _ _ (modify _) =>
      apply respects_quiet_modify; intros ?; reflexivity
  | |- respects _ _ (if ?b then _ else _) => destruct b
  | |- respects _ _ (match ?x with _ => _ end) => destruct x
  | |- respects _ _ _ => solve [auto with respects_db]
  end.

Ltac walk := repeat (cbv zeta; walk_step).

Section Operations.
Variable okev : Event -> Prop.
Variable E : Env.
Hypothesis ok_send : forall c t, okev (EvSend c t).
Hypothesis ok_exec : forall c, okev (EvExec c).
Hypothesis ok_write : forall p t, okev (EvWriteFile p t).
Hypothesis ok_deactivate : forall i, okev (EvDeactivateSession i).
Hypothesis ok_update : forall i t, okev (EvUpdateSession i t).

Lemma respects_scanEntry (entry : Dirent) (root rel : jsstring) :
  respects (step_rel okev) E (scanEntry root rel entry).
Proof using Type*.
  revert root rel.
  induction entry as [name|name sub IHsub|name] using Dirent_nested_ind;
    intros root rel; simpl; walk.
  induction IHsub as [|e l He _ IHl]; walk.
Qed.

Lemma respects_scanAll (l : list Dirent) (root rel : jsstring) :
  respects (step_rel okev) E (scanAll root rel l).
Proof using Type*.
  induction l as [|e l IHl]; simpl; walk.
  apply respects_scanEntry.
Qed.

Lemma respects_detectCommandFolder (target : jsstring)
    (folders : list jsstring) :
  respects (step_rel okev) E (detectCommandFolder target folders).
Proof using Type*.
  induction folders as [|f l IHl]; simpl; autounfold with ops; walk.
Qed.

Hint Resolve respects_scanAll respects_detectCommandFolder : respects_db.

Lemma respects_handleCommand (conversation : Conversation)
    (text : jsstring) :
  respects (step_rel okev) E (handleCommand conversation text).
Proof using Type*.
  autounfold with ops. walk.
Qed.



Lemma respects_resolvePrompt (c t : jsstring) (ctx : option jsstring)
    (conversation : Conversation) :
  respects (step_rel okev) E (resolvePrompt c t ctx conversation).
Proof using Type*. autounfold with ops. walk. Qed.

End Operations.

Section Streaming.
Variable okev : Event -> Prop.
Variable E : Env.
Hypothesis ok_send : forall c t, okev (EvSend c t).
Hypothesis ok_update : forall i t, okev (EvUpdateSession i t).
Hypothesis ok_chunk : forall c, okev (EvChunk c).
Hypothesis ok_metadata : forall i c, okev (EvUpdateSessionMetadata i c).

Lemma respects_streamLoop (c sid : jsstring) (chunks : list MessageChunk) :
  respects (step_rel okev) E (streamLoop c sid chunks).
Proof using Type*.
  induction chunks as [|msg rest IH]; simpl; autounfold with ops; walk.
Qed.

Lemma respects_batchLoop (sid : jsstring) (chunks : list MessageChunk)
    (acc : list jsstring) :
  respects (step_rel okev) E (batchLoop sid chunks acc).
Proof using Type*.
  revert acc.
  induction chunks as [|msg rest IH]; intros acc; simpl;
    autounfold with ops; walk.
Qed.


End Streaming.

(** The relation that only asks the sessions not to grow. *)
Abbreviation shrinking := (step_rel (fun _ => True)).

Section Shrinking.
Variable E : Env.

Lemma shrinking_streamLoop (c sid : jsstring) (chunks : list MessageChunk) :
  respects shrinking E (streamLoop c sid chunks).
Proof. apply respects_streamLoop; intros; exact I. Qed.

Lemma shrinking_batchLoop (sid : jsstring) (chunks : list MessageChunk)
    (acc : list jsstring) :
  respects shrinking E (batchLoop sid chunks acc).
Proof. apply respects_batchLoop; intros; exact I. Qed.

Lemma shrinking_sendQuery (t p c : jsstring) (r : option jsstring) :
  respects shrinking E (sendQuery t p c r).
Proof. unfold sendQuery. walk. Qed.

Lemma shrinking_handleCommand (conversation : Conversation)
    (text : jsstring) :
  respects shrinking E (handleCommand conversation text).
Proof. apply respects_handleCommand; intros; exact I. Qed.

Lemma shrinking_resolvePrompt (c t : jsstring) (ctx : option jsstring)
    (conversation : Conversation) :
  respects shrinking E (resolvePrompt c t ctx conversation).
Proof. apply respects_resolvePrompt; intros; exact I. Qed.
End Shrinking.

#[global] Hint Resolve shrinking_streamLoop shrinking_batchLoop
  shrinking_sendQuery shrinking_handleCommand shrinking_resolvePrompt
  : respects_db.

(** ** At most one active session per conversation *)

Lemma active_count_app (cid : jsstring) (l1 l2 : list Session) :
  active_count cid (l1 ++ l2) = (active_count cid l1 + active_count cid l2)%nat.
Proof. unfold active_count. now rewrite List.filter_app, length_app. Qed.

Lemma active_count_shrink (cid : jsstring) (l l' : list Session) :
  Forall2 (fun x y => sess_conversation_id y = sess_conversation_id x
                      /\ (active y = true -> active x = true)) l l' ->
  (active_count cid l' <= active_count cid l)%nat.
Proof.
  unfold active_count.
  induction 1 as [|x y l l' [Hc Ha] _ IH]; simpl; [lia|].
  rewrite Hc.
  destruct (str_eqb (sess_conversation_id x) cid); simpl; [|exact IH].
  destruct (active y); simpl.
  - rewrite Ha by reflexivity. simpl. lia.
  - destruct (active x); simpl; lia.
Qed.

Lemma single_active_step (okev : Event -> Prop) (s s' : State) :
  step_rel okev s s' -> single_active s -> single_active s'.
Proof.
  intros [Hs _] H cid. specialize (H cid).
  pose proof (active_count_shrink cid _ _ Hs). lia.
Qed.


Lemma active_count_find_none (cid : jsstring) (l : list Session) :
  List.find (fun x => str_eqb (sess_conversation_id x) cid && active x) l
  = None ->
  active_count cid l = 0%nat.
Proof.
  unfold active_count. induction l as [|a l IH]; simpl; [reflexivity|].
  destruct (str_eqb (sess_conversation_id a) cid && active a);
    [discriminate|exact IH].
Qed.

Lemma active_count_deactivated (cid id : jsstring) (l : list Session) :
  (active_count cid (on_session id (set_active false) l)
   <= active_count cid l)%nat.
Proof.
  apply active_count_shrink. unfold on_session.
  induction l as [|a l IH]; simpl; constructor; [|exact IH].
  destruct (str_eqb (sess_id a) id); simpl; split; auto; discriminate.
Qed.

Lemma active_count_deactivate_found (cid : jsstring) (x : Session)
    (l : list Session) :
  List.find (fun y => str_eqb (sess_conversation_id y) cid && active y) l
  = Some x ->
  (active_count cid l <= 1)%nat ->
  active_count cid (on_session (sess_id x) (set_active false) l) = 0%nat.
Proof.
  induction l as [|a l IH]; simpl; [discriminate|].
  intros Hfind Hle.
  unfold active_count in *. simpl in *.
  destruct (str_eqb (sess_conversation_id a) cid && active a) eqn:Ha.
  - injection Hfind as ->. rewrite str_eqb_refl. simpl.
    rewrite andb_false_r. simpl in Hle.
    pose proof (active_count_deactivated cid (sess_id x) l) as Hd.
    unfold active_count in Hd. lia.
  - destruct (str_eqb (sess_id a) (sess_id x)); simpl.
    + rewrite andb_false_r. apply IH; assumption.
    + rewrite Ha. apply IH; assumption.
Qed.

Section Preserves.
Variable E : Env.

Lemma preserves_respects {A} (okev : Event -> Prop) (m : M A) :
  respects (step_rel okev) E m -> preserves E m.
Proof. intros H s Hs. exact (single_active_step okev _ _ (H s) Hs). Qed.

Lemma preserves_bind {A B} (m : M A) (k : A -> M B) :
  preserves E m -> (forall a, preserves E (k a)) ->
  preserves E (bind m k).
Proof.
  intros Hm Hk s Hs. unfold bind. specialize (Hm s Hs).
  destruct (m E s) as [[a|e] s1]; simpl in *; [|exact Hm].
  apply Hk, Hm.
Qed.

Lemma preserves_tryCatch {A} (m : M A) (h : jsstring -> M A) :
  preserves E m -> (forall e, preserves E (h e)) ->
  preserves E (tryCatch m h).
Proof.
  intros Hm Hh s Hs. unfold tryCatch. specialize (Hm s Hs).
  destruct (m E s) as [[a|e] s1]; simpl in *; [exact Hm|].
  apply Hh, Hm.
Qed.

(** A session is created for a conversation that has no active one. *)
Lemma createSession_single_active (cid : jsstring) (cb : option jsstring)
    (t : jsstring) (s : State) :
  single_active s ->
  active_count cid (sessions s) = 0%nat ->
  single_active (snd (createSession cid cb t E s)).
Proof.
  intros Hs H0. unfold createSession, row_id, bind, call, ask, get, modify,
    emit, ret.
  destruct (fault E OpCreateSession (tick s)); simpl.
  - exact Hs.
  - intros c. cbn [sessions log set_sessions]. rewrite active_count_app.
    unfold active_count at 2. simpl. rewrite andb_true_r.
    destruct (str_eqb_spec cid c) as [<-|Hne]; simpl.
    + rewrite H0. lia.
    + specialize (Hs c). lia.
Qed.

Lemma getActiveSession_run (cid : jsstring) (s : State) :
  getActiveSession cid E s
  = match fault E OpGetActiveSession (tick s) with
    | Some e => (Throw e, bump s)
    | None => (Ok (activeSession cid s), bump s)
    end.
Proof.
  unfold getActiveSession, bind, call, get, ret.
  destruct (fault E OpGetActiveSession (tick s)); reflexivity.
Qed.

Lemma deactivateSession_run (id : jsstring) (s : State) :
  deactivateSession id E s
  = match fault E OpDeactivateSession (tick s) with
    | Some e => (Throw e, bump s)
    | None =>
        (Ok tt,
         log (EvDeactivateSession id)
           (set_sessions (on_session id (set_active false) (sessions s))
                         (bump s)))
    end.
Proof.
  unfold deactivateSession, bind, call, modify, emit.
  destruct (fault E OpDeactivateSession (tick s)); reflexivity.
Qed.

Lemma getCodebase_run (id : option jsstring) (s : State) :
  getCodebase id E s
  = match fault E OpGetCodebase (tick s) with
    | Some e => (Throw e, bump s)
    | None => (Ok (List.find (id_is id) (codebases s)), bump s)
    end.
Proof.
  unfold getCodebase, bind, call, get, ret.
  destruct (fault E OpGetCodebase (tick s)); reflexivity.
Qed.

(** The session [handleMessage] goes on with is the only active one of
    its conversation. *)
Lemma session_setup_preserves {A} (conversation : Conversation)
    (commandName : option jsstring)
    (k : option Codebase -> Session -> M A) :
  (forall c x, preserves E (k c x)) ->
  preserves E
    (let* session := getActiveSession (conv_id conversation) in
     let* codebase := getCodebase (conv_codebase_id conversation) in
     let* session := sessionFor conversation commandName session in
     k codebase session).
Proof.
  intros Hk s Hs.
  set (cid := conv_id conversation).
  set (cb := conv_codebase_id conversation).
  set (t := conv_ai_assistant_type conversation).
  unfold bind at 1. rewrite getActiveSession_run.
  destruct (fault E OpGetActiveSession (tick s)) as [err|]; simpl;
    [exact Hs|].
  unfold bind at 1. rewrite getCodebase_run. simpl.
  destruct (fault E OpGetCodebase (S (tick s))) as [err|]; simpl;
    [exact Hs|].
  set (codebase := List.find (id_is cb) (codebases s)).
  assert (Hb : single_active (bump (bump s))) by exact Hs.
  unfold activeSession.
  remember (List.find
              (fun x => str_eqb (sess_conversation_id x) cid && active x)
              (sessions s)) as found eqn:Hfound.
  symmetry in Hfound.
  assert (Hcreate : forall s1,
             single_active s1 -> active_count cid (sessions s1) = 0%nat ->
             single_active
               (snd ((let* session := createSession cid cb t in
                      k codebase session) E s1))).
  { intros s1 H1 H0. unfold bind.
    pose proof (createSession_single_active cid cb t s1 H1 H0) as Hc.
    destruct (createSession cid cb t E s1) as [[x|e] s2]; simpl in *;
      [apply Hk|]; exact Hc. }
  unfold sessionFor. fold cid cb t.
  destruct (commandIs (js "execute") commandName
            && lastCommandIs (js "plan-feature") found).
  - destruct found as [x|].
    + unfold bind at 1. unfold bind at 1.
      rewrite deactivateSession_run. simpl.
      destruct (fault E OpDeactivateSession (S (S (tick s)))) as [err|];
        [exact Hs|].
      apply (Hcreate
               (log (EvDeactivateSession (sess_id x))
                  (set_sessions
                     (on_session (sess_id x) (set_active false)
                                 (sessions s))
                     (bump (bump (bump s)))))).
      * intros c. simpl.
        pose proof (active_count_deactivated c (sess_id x) (sessions s)).
        specialize (Hs c). lia.
      * simpl. apply active_count_deactivate_found; [exact Hfound|apply Hs].
    + unfold bind at 1. unfold bind at 1. unfold ret at 1.
      apply Hcreate; [exact Hb|].
      simpl. now apply active_count_find_none.
  - destruct found as [x|].
    + unfold bind at 1. unfold ret at 1. apply Hk. exact Hb.
    + apply Hcreate; [exact Hb|].
      simpl. now apply active_count_find_none.
Qed.

Lemma preserves_aiConversation (platform : Platform) (cid : jsstring)
    (conversation : Conversation) (prompt : jsstring)
    (commandName : option jsstring) :
  preserves E (aiConversation platform cid conversation prompt commandName).
Proof.
  unfold aiConversation.
  apply preserves_bind.
  { apply (preserves_respects (fun _ => True)).
    autounfold with ops. walk. }
  intros _. cbv zeta.
  apply (session_setup_preserves conversation commandName).
  intros codebase session.
  apply (preserves_respects (fun _ => True)).
  unfold deliver, sendMessage, updateSessionMetadata. walk.
Qed.

Lemma preserves_handleMessage (platform : Platform)
    (conversationId text : jsstring) (issueContext : option jsstring) :
  preserves E (handleMessage platform conversationId text issueContext).
Proof.
  unfold handleMessage, handleMessageBody.
  apply preserves_tryCatch.
  - apply preserves_bind.
    { apply (preserves_respects (fun _ => True)). walk. }
    intros E'. cbv zeta.
    apply preserves_bind.
    { apply (preserves_respects (fun _ => True)).
      autounfold with ops. walk. }
    intros conversation.
    destruct (startsWith (js "/") (normalizeCommand E' text)
              && negb (startsWith (js "/command-invoke")
                                  (normalizeCommand E' text))).
    + apply (preserves_respects (fun _ => True)).
      unfold sendMessage, getOrCreateConversation, row_id. walk.
    + apply preserves_bind.
      { apply (preserves_respects (fun _ => True)).
        apply shrinking_resolvePrompt. }
      intros [[prompt commandName]|].
      * apply preserves_aiConversation.
      * apply (preserves_respects (fun _ => True)). walk.
  - intros e. apply (preserves_respects (fun _ => True)).
    autounfold with ops. walk.
Qed.
End Preserves.

(** ** Runs in which no collaborator fails *)

Lemma new_events_app (s s' : State) (evs : list Event) :
  trace s' = trace s ++ evs -> new_events s s' = evs.
Proof.
  intros H. unfold new_events. rewrite H.
  rewrite skipn_app, Nat.sub_diag, skipn_all. reflexivity.
Qed.

Lemma after_query_quiet (evs : list Event) :
  Forall quiet_event evs -> after_query evs = None.
Proof.
  induction 1 as [|ev evs Hev _ IH]; simpl; [reflexivity|].
  destruct ev; simpl in *; try exact IH; contradiction.
Qed.

Lemma bind_ok {A B} (m : M A) (k : A -> M B) (E : Env) (s s' : State)
    (a : A) :
  m E s = (Ok a, s') -> bind m k E s = k a E s'.
Proof. intros H. unfold bind. now rewrite H. Qed.

Lemma bind_throw {A B} (m : M A) (k : A -> M B) (E : Env) (s s' : State)
    (e : jsstring) :
  m E s = (Throw e, s') -> bind m k E s = (Throw e, s').
Proof. intros H. unfold bind. now rewrite H. Qed.

Section NoFault.
Variable E : Env.
Hypothesis Hnf : no_fault E.

Lemma call_ok (op : Op) (s : State) : call op E s = (Ok (tick s), bump s).
Proof using Hnf. unfold call. now rewrite Hnf. Qed.

Lemma sendMessage_ok (c t : jsstring) (s : State) :
  sendMessage c t E s = (Ok tt, log (EvSend c t) (bump s)).
Proof using Hnf.
  unfold sendMessage. now rewrite (bind_ok _ _ _ _ _ _ (call_ok _ _)).
Qed.

Lemma getCodebase_ok (id : option jsstring) (s : State) :
  getCodebase id E s = (Ok (List.find (id_is id) (codebases s)), bump s).
Proof using Hnf. rewrite getCodebase_run. now rewrite Hnf. Qed.

Lemma getActiveSession_ok (cid : jsstring) (s : State) :
  getActiveSession cid E s = (Ok (activeSession cid s), bump s).
Proof using Hnf. rewrite getActiveSession_run. now rewrite Hnf. Qed.

Lemma deactivateSession_ok (id : jsstring) (s : State) :
  deactivateSession id E s
  = (Ok tt,
     log (EvDeactivateSession id)
       (set_sessions (on_session id (set_active false) (sessions s))
                     (bump s))).
Proof using Hnf. rewrite deactivateSession_run. now rewrite Hnf. Qed.

Lemma createSession_ok (cid : jsstring) (cb : option jsstring)
    (t : jsstring) (s : State) :
  createSession cid cb t E s
  = (Ok (newSession E cid cb t s),
     log (EvCreateSession (uuid E (next_row s)) cid)
       (set_sessions (sessions s ++ [newSession E cid cb t s])
                     (take_row (bump s)))).
Proof using Hnf.
  unfold createSession. rewrite (bind_ok _ _ _ _ _ _ (call_ok _ _)).
  reflexivity.
Qed.

Lemma updateSession_ok (id t : jsstring) (s : State) :
  updateSession id t E s
  = (Ok tt,
     log (EvUpdateSession id t)
       (set_sessions (on_session id (set_token t) (sessions s)) (bump s))).
Proof using Hnf.
  unfold updateSession. rewrite (bind_ok _ _ _ _ _ _ (call_ok _ _)).
  reflexivity.
Qed.

Lemma updateSessionMetadata_ok (id c : jsstring) (s : State) :
  updateSessionMetadata id c E s
  = (Ok tt,
     log (EvUpdateSessionMetadata id c)
       (set_sessions (on_session id (set_lastCommand c) (sessions s))
                     (bump s))).
Proof using Hnf.
  unfold updateSessionMetadata.
  rewrite (bind_ok _ _ _ _ _ _ (call_ok _ _)). reflexivity.
Qed.

Lemma getAssistantClient_ok (t : jsstring) (s : State) :
  getAssistantClient t E s = (Ok tt, bump s).
Proof using Hnf.
  unfold getAssistantClient.
  now rewrite (bind_ok _ _ _ _ _ _ (call_ok _ _)).
Qed.

Lemma nextChunk_ok (s : State) : nextChunk E s = (Ok tt, bump s).
Proof using Hnf.
  unfold nextChunk. now rewrite (bind_ok _ _ _ _ _ _ (call_ok _ _)).
Qed.

Lemma readFile_ok (path : jsstring) (s : State) :
  readFile path E s = (Ok (file_text E (tick s) path), bump s).
Proof using Hnf.
  unfold readFile. now rewrite (bind_ok _ _ _ _ _ _ (call_ok _ _)).
Qed.

Lemma sendQuery_ok (t p c : jsstring) (r : option jsstring) (s : State) :
  sendQuery t p c r E s
  = (Ok (ai_stream E (tick s) t p c r), log (EvQuery p c r) (bump s)).
Proof using Hnf.
  unfold sendQuery. now rewrite (bind_ok _ _ _ _ _ _ (call_ok _ _)).
Qed.

Lemma getOrCreateConversation_ok (p c : jsstring) (s : State) :
  exists conv s1,
    getOrCreateConversation p c E s = (Ok conv, s1)
    /\ trace s1 = trace s /\ sessions s1 = sessions s
    /\ codebases s1 = codebases s
    /\ (findConversation p c s = Some conv
        \/ findConversation p c s = None /\ conv_codebase_id conv = None).
Proof using Hnf.
  unfold getOrCreateConversation.
  rewrite (bind_ok _ _ _ _ _ _ (call_ok _ _)).
  unfold bind at 1, ask. unfold bind at 1, get.
  unfold findConversation. cbn [conversations bump].
  destruct (List.find _ (conversations s)) as [conv|] eqn:Hf.
  - exists conv, (bump s). repeat split; auto.
  - eexists _, _. split; [reflexivity|]. repeat split; auto.
Qed.

Lemma streamChunk_ok (c sid : jsstring) (msg : MessageChunk) (s : State) :
  exists s',
    streamChunk c sid msg E s = (Ok tt, s')
    /\ trace s' = trace s ++ streamReaction E c sid msg.
Proof using Hnf.
  unfold streamChunk, streamReaction, bind at 1, ask.
  destruct (chunk_type msg).
  - destruct (truthy_opt (content msg)).
    + rewrite sendMessage_ok. eexists; split; reflexivity.
    + eexists; split; [reflexivity|]. now rewrite app_nil_r.
  - destruct (truthy_opt (sessionId msg)).
    + rewrite updateSession_ok. eexists; split; reflexivity.
    + eexists; split; [reflexivity|]. now rewrite app_nil_r.
  - eexists; split; [reflexivity|]. now rewrite app_nil_r.
  - destruct (truthy_opt (toolName msg)).
    + rewrite sendMessage_ok. eexists; split; reflexivity.
    + eexists; split; [reflexivity|]. now rewrite app_nil_r.
  - eexists; split; [reflexivity|]. now rewrite app_nil_r.
Qed.

Lemma streamLoop_ok (c sid : jsstring) (chunks : list MessageChunk)
    (s : State) :
  exists s',
    streamLoop c sid chunks E s = (Ok tt, s')
    /\ trace s' = trace s ++ streamEvents E c sid chunks.
Proof using Hnf.
  revert s. induction chunks as [|msg rest IH]; intros s; simpl.
  - rewrite nextChunk_ok. eexists; split; [reflexivity|].
    now rewrite app_nil_r.
  - rewrite (bind_ok _ _ _ _ _ _ (nextChunk_ok _)).
    unfold bind at 1, emit, modify.
    destruct (streamChunk_ok c sid msg (log (EvChunk msg) (bump s)))
      as (s1 & Hrun & Ht).
    rewrite (bind_ok _ _ _ _ _ _ Hrun).
    destruct (IH s1) as (s2 & Hrun2 & Ht2).
    exists s2. split; [exact Hrun2|].
    rewrite Ht2, Ht. simpl. rewrite <- !app_assoc. reflexivity.
Qed.

Lemma batchChunk_ok (sid : jsstring) (msg : MessageChunk) (s : State) :
  exists s',
    batchChunk sid msg E s = (Ok (assistantTexts [msg]), s')
    /\ trace s' = trace s ++ batchReaction sid msg.
Proof using Hnf.
  unfold batchChunk, batchReaction, assistantTexts. simpl.
  destruct (chunk_type msg).
  - destruct (truthy_opt (content msg)); eexists; (split; [reflexivity|]);
      now rewrite app_nil_r.
  - destruct (truthy_opt (sessionId msg)).
    + rewrite (bind_ok _ _ _ _ _ _ (updateSession_ok _ _ _)).
      eexists; split; reflexivity.
    + eexists; split; [reflexivity|]. now rewrite app_nil_r.
  - eexists; split; [reflexivity|]. now rewrite app_nil_r.
  - eexists; split; [reflexivity|]. now rewrite app_nil_r.
  - eexists; split; [reflexivity|]. now rewrite app_nil_r.
Qed.

Lemma assistantTexts_cons (msg : MessageChunk)
    (rest : list MessageChunk) :
  assistantTexts (msg :: rest) = assistantTexts [msg] ++ assistantTexts rest.
Proof. unfold assistantTexts. simpl. now rewrite app_nil_r. Qed.

Lemma batchLoop_ok (sid : jsstring) (chunks : list MessageChunk)
    (acc : list jsstring) (s : State) :
  exists s',
    batchLoop sid chunks acc E s = (Ok (acc ++ assistantTexts chunks), s')
    /\ trace s' = trace s ++ batchEvents sid chunks.
Proof using Hnf.
  revert acc s.
  induction chunks as [|msg rest IH]; intros acc s; cbn [batchLoop].
  - rewrite (bind_ok _ _ _ _ _ _ (nextChunk_ok _)).
    eexists; split; [unfold ret; cbn; now rewrite app_nil_r|].
    cbn. now rewrite app_nil_r.
  - rewrite (bind_ok _ _ _ _ _ _ (nextChunk_ok _)).
    unfold bind at 1, emit, modify.
    destruct (batchChunk_ok sid msg (log (EvChunk msg) (bump s)))
      as (s1 & Hrun & Ht).
    rewrite (bind_ok _ _ _ _ _ _ Hrun).
    destruct (IH (acc ++ assistantTexts [msg]) s1) as (s2 & Hrun2 & Ht2).
    exists s2. split.
    + rewrite Hrun2, (assistantTexts_cons msg rest), app_assoc.
      reflexivity.
    + rewrite Ht2, Ht. cbn. rewrite <- !app_assoc. reflexivity.
Qed.
End NoFault.

(** ** The run that reaches the backend *)

Lemma assistantTexts_truthy (chunks : list MessageChunk) :
  Forall (fun t => truthy t = true) (assistantTexts chunks).
Proof.
  unfold assistantTexts.
  induction chunks as [|c rest IH]; simpl; [constructor|].
  apply Forall_app. split; [|exact IH].
  destruct (chunk_type c); try constructor.
  destruct (content c) as [[|x t]|]; simpl; repeat constructor.
Qed.

Lemma last_Forall {A} (P : A -> Prop) (l : list A) (x : A) :
  Forall P l -> last l = Some x -> P x.
Proof.
  induction 1 as [|a l Ha _ IH]; simpl; [discriminate|].
  destruct l; [intros H; injection H as <-; exact Ha|exact IH].
Qed.

Lemma finalMessageOf_summary (msgs : list jsstring) :
  finalMessageOf msgs
  = match last msgs with Some m => summaryOf m | None => [] end.
Proof.
  unfold finalMessageOf, summaryOf.
  destruct (last msgs) as [m|]; [|reflexivity].
  cbv zeta. now destruct (trim _).
Qed.

Lemma summaryOf_truthy (m : jsstring) :
  truthy m = true -> truthy (summaryOf m) = true.
Proof.
  intros Hm. unfold summaryOf. cbv zeta. now destruct (trim _).
Qed.

Section Backend.
Variable E : Env.
Hypothesis Hnf : no_fault E.

Lemma sessionFor_ok (conversation : Conversation)
    (commandName : option jsstring) (old : option Session) (s : State) :
  let rotate := needsNewSession old commandName in
  let id := uuid E (next_row s) in
  exists session s',
    sessionFor conversation commandName old E s = (Ok session, s')
    /\ trace s'
       = trace s ++ sessionEvents old rotate id (conv_id conversation)
    /\ resumeToken session = sessionToken old rotate
    /\ sess_id session = sessionUsed old rotate id.
Proof using Hnf.
  intros rotate id. subst rotate id.
  unfold sessionFor, needsNewSession, sessionEvents, sessionToken,
    sessionUsed.
  destruct (commandIs (js "execute") commandName
            && lastCommandIs (js "plan-feature") old).
  - destruct old as [x|].
    + rewrite (bind_ok _ _ _ _ _ _ (deactivateSession_ok E Hnf _ _)); cbv beta.
      rewrite createSession_ok by exact Hnf.
      eexists _, _. split; [reflexivity|]. cbn.
      rewrite <- app_assoc. repeat split.
    + unfold bind at 1, ret at 1.
      rewrite createSession_ok by exact Hnf.
      eexists _, _. split; [reflexivity|]. repeat split.
  - destruct old as [x|].
    + eexists _, _. split; [reflexivity|].
      rewrite app_nil_r. repeat split.
    + rewrite createSession_ok by exact Hnf.
      eexists _, _. split; [reflexivity|]. repeat split.
Qed.

Lemma deliver_ok (platform : Platform) (cid : jsstring)
    (conversation : Conversation) (prompt cwd : jsstring)
    (session : Session) (s : State) :
  exists chunks s',
    deliver platform cid conversation prompt cwd session E s = (Ok tt, s')
    /\ trace s'
       = trace s
         ++ EvQuery prompt cwd (resumeToken session)
         :: deliveryEvents E (getStreamingMode platform) cid
                           (sess_id session) chunks.
Proof using Hnf.
  unfold deliver, deliveryEvents.
  destruct (getStreamingMode platform).
  - rewrite (bind_ok _ _ _ _ _ _ (sendQuery_ok E Hnf _ _ _ _ _)); cbv beta.
    edestruct (streamLoop_ok E Hnf) as (s' & Hrun & Ht).
    eexists _, _. split; [exact Hrun|].
    rewrite Ht. cbn. now rewrite <- app_assoc.
  - rewrite (bind_ok _ _ _ _ _ _ (sendQuery_ok E Hnf _ _ _ _ _)); cbv beta.
    edestruct (batchLoop_ok E Hnf) as (s1 & Hrun & Ht).
    exists (ai_stream E (tick s) (conv_ai_assistant_type conversation)
                      prompt cwd (resumeToken session)).
    rewrite (bind_ok _ _ _ _ _ _ Hrun); cbv beta. cbv zeta. cbn [app].
    rewrite finalMessageOf_summary.
    match goal with
    | |- context [last (assistantTexts ?l)] =>
        pose proof (assistantTexts_truthy l) as Hall;
        destruct (last (assistantTexts l)) as [m|] eqn:Hlast
    end.
    + rewrite (summaryOf_truthy m (last_Forall _ _ _ Hall Hlast)).
      rewrite sendMessage_ok by exact Hnf.
      eexists. split; [reflexivity|]. cbn. rewrite Ht. cbn.
      rewrite <- !app_assoc. reflexivity.
    + eexists. split; [reflexivity|]. rewrite Ht. cbn.
      rewrite app_nil_r, <- !app_assoc. reflexivity.
Qed.

Lemma aiConversation_ok (platform : Platform) (cid : jsstring)
    (conversation : Conversation) (prompt : jsstring)
    (commandName : option jsstring) (s : State) :
  exists evs s',
    aiConversation platform cid conversation prompt commandName E s
    = (Ok tt, s')
    /\ trace s' = trace s ++ evs
    /\ ai_run E platform cid conversation
              (activeSession (conv_id conversation) s) commandName evs.
Proof using Hnf.
  unfold aiConversation.
  rewrite (bind_ok _ _ _ _ _ _ (getAssistantClient_ok E Hnf _ _)); cbv beta.
  rewrite (bind_ok _ _ _ _ _ _ (getActiveSession_ok E Hnf _ _)); cbv beta.
  rewrite (bind_ok _ _ _ _ _ _ (getCodebase_ok E Hnf _ _)); cbv beta.
  cbv zeta.
  change (activeSession (conv_id conversation) (bump s))
    with (activeSession (conv_id conversation) s).
  set (old := activeSession (conv_id conversation) s).
  pose proof (sessionFor_ok conversation commandName old
                            (bump (bump (bump s)))) as Hfor.
  cbv zeta in Hfor.
  destruct Hfor as (session & s1 & Hrun1 & Ht1 & Htok & Hid).
  rewrite (bind_ok _ _ _ _ _ _ Hrun1); cbv beta.
  edestruct deliver_ok as (chunks & s2 & Hrun2 & Ht2).
  rewrite (bind_ok _ _ _ _ _ _ Hrun2); cbv beta.
  assert (Hrec : exists s',
             (if truthy_opt commandName
              then updateSessionMetadata (sess_id session)
                                         (or_else commandName [])
              else ret tt) E s2 = (Ok tt, s')
             /\ trace s'
                = trace s2 ++ recordEvents (sess_id session) commandName).
  { unfold recordEvents. destruct (truthy_opt commandName).
    - rewrite updateSessionMetadata_ok by exact Hnf.
      eexists. split; reflexivity.
    - eexists. split; [reflexivity|]. now rewrite app_nil_r. }
  destruct Hrec as (s3 & Hrun3 & Ht3).
  eexists _, s3. split; [exact Hrun3|]. split.
  - rewrite Ht3, Ht2, Ht1. cbn [trace bump].
    rewrite <- !app_assoc. reflexivity.
  - unfold ai_run. eexists _, _, _, chunks. cbv zeta.
    rewrite <- Hid, <- Htok. cbn [next_row bump]. reflexivity.
Qed.
End Backend.

Lemma quiet_send (c t : jsstring) : quiet_event (EvSend c t).
Proof. exact I. Qed.

Lemma quiet_exec (c : jsstring) : quiet_event (EvExec c).
Proof. exact I. Qed.

Lemma quiet_write (p t : jsstring) : quiet_event (EvWriteFile p t).
Proof. exact I. Qed.

Lemma quiet_deactivate (i : jsstring) : quiet_event (EvDeactivateSession i).
Proof. exact I. Qed.

Lemma quiet_update (i t : jsstring) : quiet_event (EvUpdateSession i t).
Proof. exact I. Qed.

Lemma quiet_handleCommand (E : Env) (conversation : Conversation)
    (text : jsstring) :
  respects (step_rel quiet_event) E (handleCommand conversation text).
Proof.
  apply respects_handleCommand;
    auto using quiet_send, quiet_exec, quiet_write, quiet_deactivate,
      quiet_update.
Qed.

Lemma quiet_resolvePrompt (E : Env) (c t : jsstring)
    (ctx : option jsstring) (conversation : Conversation) :
  respects (step_rel quiet_event) E (resolvePrompt c t ctx conversation).
Proof.
  apply respects_resolvePrompt;
    auto using quiet_send, quiet_exec, quiet_write, quiet_deactivate,
      quiet_update.
Qed.

#[global] Hint Resolve quiet_handleCommand quiet_resolvePrompt : respects_db.

(** The slash-command branch of [handleMessage], with the handler of the
    [try] block around it. *)
Lemma quiet_command_branch (E : Env) (platform : Platform)
    (cid text : jsstring) (conversation : Conversation) :
  respects (step_rel quiet_event) E
    (tryCatch
       (let* result := handleCommand conversation text in
        let* _ := sendMessage cid (message result) in
        if modified result
        then (let* _ := getOrCreateConversation (getPlatformType platform)
                                                cid in
              ret tt)
        else ret tt)
       (fun _ => sendMessage cid errorNotice)).
Proof.
  unfold sendMessage, getOrCreateConversation, row_id. walk.
Qed.

Section Queried.
Variable E : Env.
Hypothesis Hnf : no_fault E.

Lemma resolvePrompt_some (cid text : jsstring) (ctx : option jsstring)
    (conversation : Conversation) (s s' : State)
    (prompt : jsstring) (cn : option jsstring) :
  resolvePrompt cid text ctx conversation E s
  = (Ok (Some (prompt, cn)), s') ->
  trace s' = trace s /\ sessions s' = sessions s
  /\ cn = commandNameOf text
  /\ truthy_opt (conv_codebase_id conversation) = true.
Proof using Hnf.
  unfold resolvePrompt, commandNameOf.
  destruct (startsWith (js "/command-invoke") text).
  - destruct (args (parseCommand text)) as [|name rest].
    { rewrite (bind_ok _ _ _ _ _ _ (sendMessage_ok E Hnf _ _ _)).
      discriminate. }
    destruct (truthy_opt (conv_codebase_id conversation)); cbn [negb].
    2:{ rewrite (bind_ok _ _ _ _ _ _ (sendMessage_ok E Hnf _ _ _)).
        discriminate. }
    rewrite (bind_ok _ _ _ _ _ _ (getCodebase_ok E Hnf _ _)).
    destruct (List.find _ (codebases s)) as [codebase|].
    2:{ rewrite (bind_ok _ _ _ _ _ _ (sendMessage_ok E Hnf _ _ _)).
        discriminate. }
    destruct (assoc name (commands codebase)) as [def|].
    2:{ destruct (existsb (str_eqb name) inherited_keys);
          [unfold throw; discriminate|].
        rewrite (bind_ok _ _ _ _ _ _ (sendMessage_ok E Hnf _ _ _)).
        discriminate. }
    unfold bind at 1, ask. cbv zeta. unfold tryCatch.
    rewrite (bind_ok _ _ _ _ _ _ (readFile_ok E Hnf _ _)).
    unfold ret. intros H. injection H as _ <- <-. auto.
  - destruct (truthy_opt (conv_codebase_id conversation)); cbn [negb].
    + unfold ret. intros H. injection H as _ <- <-. auto.
    + rewrite (bind_ok _ _ _ _ _ _ (sendMessage_ok E Hnf _ _ _)).
      discriminate.
Qed.

(** A run that queries the backend is a run of the backend branch, for a
    conversation that was in the store with a codebase linked. *)
Lemma handleMessage_queried (platform : Platform) (cid text : jsstring)
    (ctx : option jsstring) (s : State) :
  let s' := snd (handleMessage platform cid text ctx E s) in
  after_query (new_events s s') <> None ->
  exists conversation,
    findConversation (getPlatformType platform) cid s = Some conversation
    /\ truthy_opt (conv_codebase_id conversation) = true
    /\ fst (handleMessage platform cid text ctx E s) = Ok tt
    /\ ai_run E platform cid conversation
              (activeSession (conv_id conversation) s)
              (commandNameOf (normalizeCommand E text))
              (new_events s s').
Proof using Hnf.
  cbv zeta.
  remember (handleMessage platform cid text ctx E s) as r eqn:Hr.
  unfold handleMessage, handleMessageBody, tryCatch in Hr.
  unfold bind at 1, ask in Hr.
  destruct (getOrCreateConversation_ok E Hnf (getPlatformType platform)
                                      cid s)
    as (conversation & s1 & Hrun & Ht & Hs & Hc & Hfind).
  rewrite (bind_ok _ _ _ _ _ _ Hrun) in Hr. cbv beta zeta in Hr.
  set (msg := normalizeCommand E text) in *.
  destruct (startsWith (js "/") msg
            && negb (startsWith (js "/command-invoke") msg)).
  - (* a slash command *)
    intros Hq. exfalso. apply Hq.
    pose proof (quiet_command_branch E platform cid msg conversation s1)
      as [_ (evs & Hevs & Hquiet)].
    unfold tryCatch in Hevs. rewrite <- Hr in Hevs.
    rewrite Ht in Hevs. rewrite (new_events_app _ _ _ Hevs).
    now apply after_query_quiet.
  - pose proof (quiet_resolvePrompt E cid msg ctx conversation s1)
      as [_ (evs1 & Hevs1 & Hquiet1)].
    destruct (resolvePrompt cid msg ctx conversation E s1)
      as [[[[prompt cn]|]|e] s2] eqn:Hres; cbn [snd] in Hevs1.
    + (* the backend branch *)
      rewrite (bind_ok _ _ _ _ _ _ Hres) in Hr. cbv beta iota in Hr.
      destruct (resolvePrompt_some _ _ _ _ _ _ _ _ Hres)
        as (Ht2 & Hs2 & -> & Hlinked).
      destruct (aiConversation_ok E Hnf platform cid conversation prompt
                                  (commandNameOf msg) s2)
        as (evs & s3 & Hrun3 & Ht3 & Hai).
      rewrite Hrun3 in Hr. subst r. cbn [fst snd]. intros _.
      rewrite Ht2, Ht in Ht3. rewrite (new_events_app _ _ _ Ht3).
      exists conversation.
      assert (Hold : activeSession (conv_id conversation) s2
                     = activeSession (conv_id conversation) s).
      { unfold activeSession. now rewrite Hs2, Hs. }
      rewrite Hold in Hai.
      destruct Hfind as [Hfind|[_ Hnone]].
      * auto.
      * rewrite Hnone in Hlinked. discriminate Hlinked.
    + (* the sender was answered *)
      rewrite (bind_ok _ _ _ _ _ _ Hres) in Hr. cbv beta iota in Hr.
      unfold ret in Hr. subst r. cbn [fst snd].
      intros Hq. exfalso. apply Hq.
      rewrite Ht in Hevs1. rewrite (new_events_app _ _ _ Hevs1).
      now apply after_query_quiet.
    + (* a failure, and the notice *)
      rewrite (bind_throw _ _ _ _ _ _ Hres) in Hr.
      rewrite sendMessage_ok in Hr by exact Hnf. subst r. cbn [fst snd].
      intros Hq. exfalso. apply Hq.
      rewrite (new_events_app s _ (evs1 ++ [EvSend cid errorNotice])).
      * apply after_query_quiet. apply Forall_app.
        split; [exact Hquiet1|]. repeat constructor.
      * cbn [trace log bump]. rewrite Hevs1, Ht, <- app_assoc.
        reflexivity.
Qed.
End Queried.

(** ** The shape of a run that queries the backend, whatever fails *)







Section Shape.
Variable E : Env.

Lemma sendMessage_run (c t : jsstring) (s : State) :
  sendMessage c t E s
  = match fault E OpSendMessage (tick s) with
    | Some e => (Throw e, bump s)
    | None => (Ok tt, log (EvSend c t) (bump s))
    end.
Proof.
  unfold sendMessage, bind, call, emit, modify.
  destruct (fault E OpSendMessage (tick s)); reflexivity.
Qed.

Lemma readFile_run (path : jsstring) (s : State) :
  readFile path E s
  = match fault E OpReadFile (tick s) with
    | Some e => (Throw e, bump s)
    | None => (Ok (file_text E (tick s) path), bump s)
    end.
Proof.
  unfold readFile, bind, call, ask, ret.
  destruct (fault E OpReadFile (tick s)); reflexivity.
Qed.




Lemma getOrCreateConversation_run (p c : jsstring) (s : State) :
  exists r s1,
    getOrCreateConversation p c E s = (r, s1)
    /\ trace s1 = trace s /\ sessions s1 = sessions s
    /\ match r with
       | Ok conv =>
           findConversation p c s = Some conv
           \/ findConversation p c s = None /\ conv_codebase_id conv = None
       | Throw _ => True
       end.
Proof.
  unfold getOrCreateConversation, bind at 1, call.
  destruct (fault E OpGetOrCreateConversation (tick s)) as [e|].
  { eexists _, _. split; [reflexivity|]. auto. }
  unfold bind at 1, ask. unfold bind at 1, get.
  unfold findConversation. cbn [conversations bump].
  destruct (List.find _ (conversations s)) as [conv|] eqn:Hf.
  - exists (Ok conv), (bump s). repeat split; auto.
  - eexists _, _. split; [reflexivity|]. repeat split; auto.
Qed.

(** The failure handler of [handleMessage] adds at most the notice. *)
Lemma notice_adds (cid : jsstring) (ra : Res unit) (s : State) :
  exists tail,
    trace (snd (match ra with
                | Ok a => (Ok a, s)
                | Throw _ => sendMessage cid errorNotice E s
                end))
    = trace s ++ tail
    /\ Forall is_send tail.
Proof.
  destruct ra as [a|e].
  - exists []. split; [now rewrite app_nil_r|constructor].
  - rewrite sendMessage_run.
    destruct (fault E OpSendMessage (tick s)).
    + exists []. split; [now rewrite app_nil_r|constructor].
    + exists [EvSend cid errorNotice]. split; [reflexivity|].
      repeat constructor.
Qed.

Lemma notice_keeps_sessions (cid : jsstring) (ra : Res unit) (s : State) :
  sessions (snd (match ra with
                 | Ok a => (Ok a, s)
                 | Throw _ => sendMessage cid errorNotice E s
                 end))
  = sessions s.
Proof.
  destruct ra as [a|e]; [reflexivity|].
  rewrite sendMessage_run.
  destruct (fault E OpSendMessage (tick s)); reflexivity.
Qed.

(** With no codebase linked, [resolvePrompt] answers the sender and settles
    no prompt. *)
Lemma resolvePrompt_unlinked_run (cid text : jsstring)
    (ctx : option jsstring) (conversation : Conversation) (s : State) :
  truthy_opt (conv_codebase_id conversation) = false ->
  exists r s' evs,
    resolvePrompt cid text ctx conversation E s = (r, s')
    /\ (r = Ok None \/ exists e, r = Throw e)
    /\ trace s' = trace s ++ evs /\ Forall is_send evs
    /\ sessions s' = sessions s.
Proof.
  intros Hno.
  assert (Hsend : forall t,
             exists r s' evs,
               (let* _ := sendMessage cid t in ret None) E s
               = (r : Res (option (jsstring * option jsstring)), s')
               /\ (r = Ok None \/ exists e, r = Throw e)
               /\ trace s' = trace s ++ evs /\ Forall is_send evs
               /\ sessions s' = sessions s).
  { intros t. unfold bind. rewrite sendMessage_run.
    destruct (fault E OpSendMessage (tick s)) as [e|].
    - exists (Throw e), (bump s), []. split; [reflexivity|].
      split; [right; now exists e|].
      split; [now rewrite app_nil_r|]. split; [constructor|reflexivity].
    - exists (Ok None), (log (EvSend cid t) (bump s)), [EvSend cid t].
      split; [reflexivity|]. split; [now left|].
      split; [reflexivity|]. split; [repeat constructor|reflexivity]. }
  unfold resolvePrompt. rewrite Hno. cbn [negb].
  destruct (startsWith (js "/command-invoke") text).
  - destruct (args (parseCommand text)) as [|name rest]; apply Hsend.
  - apply Hsend.
Qed.





End Shape.


(** ** The claims about [handleMessage] *)

(** C3: every run of [handleMessage], whatever the message (a prompt, the
    plan-to-execute transition, a slash command such as [/reset],
    [/setcwd] or [/clone]) and wherever a collaborator fails, and every run
    of [handleCommand], keeps at most one session active per conversation.
    As this holds for the state in which any failure leaves the store, a
    session is created only when no session of the conversation is active:
    none was found, or the one found has just been deactivated. *)
Theorem single_active_session_preserved
    (E : Env) (platform : Platform) (conversationId text : jsstring)
    (issueContext : option jsstring) (conversation : Conversation)
    (s : State) :
  single_active s ->
  single_active (snd (handleMessage platform conversationId text
                                    issueContext E s))
  /\ single_active (snd (handleCommand conversation text E s)).
Proof.
  intros Hs. split.
  - now apply preserves_handleMessage.
  - exact (preserves_respects E (fun _ => True) _
             (shrinking_handleCommand E conversation text) s Hs).
Qed.

Lemma single_active_session_preserved_witness :
  single_active
    (snd (handleMessage telegramStream (js "chat-1")
            (js "/command-invoke execute") None
            (scenarioEnv allUp [textChunk (js "done"); resultChunk (js "tok-2")]) plannedState))
  /\ single_active
       (snd (handleCommand
               {| conv_id := js "conv-1"; platform_type := js "telegram";
                  platform_conversation_id := js "chat-1";
                  conv_codebase_id := Some (js "cb-1");
                  conv_cwd := Some (js "/workspace/app");
                  conv_ai_assistant_type := js "claude" |}
               (js "/command-invoke execute")
               (scenarioEnv allUp [textChunk (js "done"); resultChunk (js "tok-2")]) plannedState)).
Proof.
  apply single_active_session_preserved.
  intros cid. unfold active_count, plannedState.
  cbn [sessions set_sessions List.filter].
  match goal with |- context [if ?b then _ else _] => destruct b end;
    simpl; lia.
Defined.



(** *** Reading the events of a run *)











Lemma commandIs_commandNameOf (name text : jsstring) :
  commandIs name (commandNameOf text) = invokes name text.
Proof.
  unfold commandNameOf, invokes.
  destruct (startsWith (js "/command-invoke") text); reflexivity.
Qed.









(** *** Runs of the command handler resolve when no collaborator fails *)

Section Total.
Variable E : Env.
Hypothesis Hnf : no_fault E.







End Total.



Section TotalHandler.
Variable E : Env.
Hypothesis Hnf : no_fault E.




End TotalHandler.

Lemma resolvePrompt_unlinked (E : Env) (cid text : jsstring)
    (ctx : option jsstring) (conversation : Conversation) (s : State) :
  no_fault E ->
  truthy_opt (conv_codebase_id conversation) = false ->
  exists notice,
    resolvePrompt cid text ctx conversation E s
    = (Ok None, log (EvSend cid notice) (bump s))
    /\ (notice = noCodebaseText \/ notice = invokeUsageText).
Proof.
  intros Hnf Hno. unfold resolvePrompt. rewrite Hno. cbn [negb].
  destruct (startsWith (js "/command-invoke") text).
  - destruct (args (parseCommand text)) as [|name rest].
    + exists invokeUsageText.
      rewrite (bind_ok _ _ _ _ _ _ (sendMessage_ok E Hnf _ _ _)). auto.
    + exists noCodebaseText.
      rewrite (bind_ok _ _ _ _ _ _ (sendMessage_ok E Hnf _ _ _)). auto.
  - exists noCodebaseText.
    rewrite (bind_ok _ _ _ _ _ _ (sendMessage_ok E Hnf _ _ _)). auto.
Qed.

Lemma unlinked_prompt_answered
    (E : Env) (platform : Platform) (conversationId text : jsstring)
    (issueContext : option jsstring) (s : State) :
  no_fault E ->
  let normalized := normalizeCommand E text in
  startsWith (js "/") normalized = false
  \/ startsWith (js "/command-invoke") normalized = true ->
  linkedCodebase (getPlatformType platform) conversationId s = false ->
  let r := handleMessage platform conversationId text issueContext E s in
  fst r = Ok tt
  /\ exists notice,
       new_events s (snd r) = [EvSend conversationId notice]
       /\ (notice = noCodebaseText \/ notice = invokeUsageText).
Proof.
  intros Hnf normalized Hprompt Hno. cbv zeta.
  remember (handleMessage platform conversationId text issueContext E s)
    as r eqn:Hr.
  unfold handleMessage, handleMessageBody, tryCatch in Hr.
  unfold bind at 1, ask in Hr.
  destruct (getOrCreateConversation_ok E Hnf (getPlatformType platform)
                                      conversationId s)
    as (conversation & s1 & Hrun & Ht & Hs & Hc & Hfind).
  rewrite (bind_ok _ _ _ _ _ _ Hrun) in Hr. cbv beta zeta in Hr.
  fold normalized in Hr.
  assert (Hcond : startsWith (js "/") normalized
                  && negb (startsWith (js "/command-invoke") normalized)
                  = false).
  { destruct Hprompt as [-> | ->]; [reflexivity|apply andb_false_r]. }
  rewrite Hcond in Hr.
  assert (Hunlinked : truthy_opt (conv_codebase_id conversation) = false).
  { unfold linkedCodebase in Hno.
    destruct Hfind as [Hfind|[_ Hnone]].
    - now rewrite Hfind in Hno.
    - now rewrite Hnone. }
  destruct (resolvePrompt_unlinked E conversationId normalized issueContext
                                   conversation s1 Hnf Hunlinked)
    as (notice & Hres & Hnotice).
  rewrite (bind_ok _ _ _ _ _ _ Hres) in Hr. cbv beta iota in Hr.
  unfold ret in Hr. subst r. cbn [fst snd].
  split; [reflexivity|].
  exists notice. split; [|exact Hnotice].
  apply new_events_app. cbn [trace log bump]. now rewrite Ht.
Qed.

Lemma unlinked_prompt_touches_nothing
    (E : Env) (platform : Platform) (conversationId text : jsstring)
    (issueContext : option jsstring) (s : State) :
  let normalized := normalizeCommand E text in
  startsWith (js "/") normalized = false
  \/ startsWith (js "/command-invoke") normalized = true ->
  linkedCodebase (getPlatformType platform) conversationId s = false ->
  let r := handleMessage platform conversationId text issueContext E s in
  sessions (snd r) = sessions s
  /\ Forall is_send (new_events s (snd r)).
Proof.
  intros normalized Hprompt Hno. cbv zeta.
  remember (handleMessage platform conversationId text issueContext E s)
    as r eqn:Hr.
  unfold handleMessage, handleMessageBody, tryCatch in Hr.
  unfold bind at 1, ask in Hr.
  destruct (getOrCreateConversation_run E (getPlatformType platform)
                                       conversationId s)
    as (r0 & s1 & Hrun & Ht & Hs & Hfind).
  unfold bind at 1 in Hr. rewrite Hrun in Hr. cbv beta zeta in Hr.
  destruct r0 as [conversation|e].
  2:{ destruct (notice_adds E conversationId (Throw e) s1)
        as (tail & Htail & Hsend).
      pose proof (notice_keeps_sessions E conversationId (Throw e) s1)
        as Hkeep.
      rewrite <- Hr in Htail, Hkeep. split; [congruence|].
      rewrite Ht in Htail. now rewrite (new_events_app _ _ _ Htail). }
  fold normalized in Hr.
  assert (Hcond : startsWith (js "/") normalized
                  && negb (startsWith (js "/command-invoke") normalized)
                  = false).
  { destruct Hprompt as [-> | ->]; [reflexivity|apply andb_false_r]. }
  rewrite Hcond in Hr.
  assert (Hunlinked : truthy_opt (conv_codebase_id conversation) = false).
  { unfold linkedCodebase in Hno.
    destruct Hfind as [Hfind|[_ Hnone]].
    - now rewrite Hfind in Hno.
    - now rewrite Hnone. }
  destruct (resolvePrompt_unlinked_run E conversationId normalized
                                       issueContext conversation s1
                                       Hunlinked)
    as (r1 & s2 & evs & Hres & Hr1 & Ht2 & Hsends & Hs2).
  unfold bind at 1 in Hr. rewrite Hres in Hr.
  destruct Hr1 as [->|[e ->]].
  - unfold ret in Hr. subst r. cbn [snd]. split; [congruence|].
    rewrite Ht in Ht2. now rewrite (new_events_app _ _ _ Ht2).
  - destruct (notice_adds E conversationId (Throw e) s2)
      as (tail & Htail & Hsend).
    pose proof (notice_keeps_sessions E conversationId (Throw e) s2)
      as Hkeep.
    rewrite <- Hr in Htail, Hkeep. split; [congruence|].
    rewrite (new_events_app s _ (evs ++ tail)).
    + apply Forall_app. now split.
    + rewrite Htail, Ht2, Ht, <- app_assoc. reflexivity.
Qed.

(** C7: a message that produces a prompt (its normalized text does not
    begin with a slash, or begins with [/command-invoke]) and arrives on a
    conversation with no codebase linked only has messages sent to the
    sender: whatever fails, the run leaves the sessions as they were, none
    created, and does not query the backend.  When no collaborator fails it
    resolves after exactly one send, of an error message: that no codebase
    is configured, or the usage of [/command-invoke] when the message names
    no command. *)
Theorem no_codebase_is_answered
    (E : Env) (platform : Platform) (conversationId text : jsstring)
    (issueContext : option jsstring) (s : State) :
  let normalized := normalizeCommand E text in
  startsWith (js "/") normalized = false
  \/ startsWith (js "/command-invoke") normalized = true ->
  linkedCodebase (getPlatformType platform) conversationId s = false ->
  let r := handleMessage platform conversationId text issueContext E s in
  sessions (snd r) = sessions s
  /\ Forall is_send (new_events s (snd r))
  /\ (no_fault E ->
      fst r = Ok tt
      /\ exists notice,
           new_events s (snd r) = [EvSend conversationId notice]
           /\ (notice = noCodebaseText \/ notice = invokeUsageText)).
Proof.
  intros normalized Hprompt Hno r.
  destruct (unlinked_prompt_touches_nothing
              E platform conversationId text issueContext s Hprompt Hno)
    as [Hkeep Hsends].
  split; [exact Hkeep|]. split; [exact Hsends|].
  intros Hnf.
  exact (unlinked_prompt_answered E platform conversationId text
                                  issueContext s Hnf Hprompt Hno).
Qed.

Lemma no_codebase_is_answered_witness :
  let r := handleMessage telegramStream (js "chat-1") (js "hello") None
             (scenarioEnv allUp []) emptyState in
  sessions (snd r) = sessions emptyState
  /\ Forall is_send (new_events emptyState (snd r))
  /\ (no_fault (scenarioEnv allUp []) ->
      fst r = Ok tt
      /\ exists notice,
           new_events emptyState (snd r) = [EvSend (js "chat-1") notice]
           /\ (notice = noCodebaseText \/ notice = invokeUsageText)).
Proof.
  apply (no_codebase_is_answered
           (scenarioEnv allUp []) telegramStream (js "chat-1")
           (js "hello") None emptyState).
  - left. reflexivity.
  - reflexivity.
Defined.




(** * Further properties *)

(** ** The command parser, continued *)

Lemma matchAll_ws (s : jsstring) :
  forallb is_ws s = true -> matchAll s Between = [].
Proof.
  induction s as [|c s IH]; simpl; [reflexivity|].
  destruct (is_ws c); [exact IH|discriminate].
Qed.

Lemma takeWord_no_ws (w t : jsstring) :
  no_ws w = true -> takeWord t = [] -> takeWord (w ++ t) = w.
Proof.
  intros Hw Ht. induction w as [|c w IH]; simpl in *; [exact Ht|].
  apply andb_prop in Hw as [Hc Hw]. apply negb_true_iff in Hc.
  rewrite Hc. now rewrite IH.
Qed.

Lemma dropWord_no_ws (w t : jsstring) :
  no_ws w = true -> dropWord t = t -> dropWord (w ++ t) = t.
Proof.
  intros Hw Ht. induction w as [|c w IH]; simpl in *; [exact Ht|].
  apply andb_prop in Hw as [Hc Hw]. apply negb_true_iff in Hc.
  rewrite Hc. now apply IH.
Qed.

Lemma breaks_takeWord (t : jsstring) : breaks t -> takeWord t = [].
Proof. destruct t as [|c t]; simpl; [reflexivity|]. now intros ->. Qed.

Lemma breaks_dropWord (t : jsstring) : breaks t -> dropWord t = t.
Proof. destruct t as [|c t]; simpl; [reflexivity|]. now intros ->. Qed.

Lemma matchAll_quoted (q : N) (body t acc : jsstring) :
  forallb (fun c => negb (c =? q)) body = true ->
  matchAll (body ++ q :: t) (InQuote q acc)
  = (acc ++ body ++ [q]) :: matchAll t Between.
Proof.
  revert acc. induction body as [|c body IH]; intros acc Hb; simpl in *.
  - now rewrite N.eqb_refl.
  - apply andb_prop in Hb as [Hc Hb]. apply negb_true_iff in Hc.
    rewrite Hc, IH by exact Hb. now rewrite <- app_assoc.
Qed.

Lemma is_quote_not_ws (q : N) : is_quote q = true -> is_ws q = false.
Proof.
  unfold is_quote. intros H. apply orb_prop in H as [H|H];
    apply N.eqb_eq in H; subst q; reflexivity.
Qed.

Lemma matchAll_open (q : N) (rest : jsstring) :
  is_quote q = true -> closes q rest = true ->
  matchAll (q :: rest) Between = matchAll rest (InQuote q [q]).
Proof.
  intros Hq Hcl. cbn [matchAll]. rewrite (is_quote_not_ws q Hq).
  unfold is_quote in Hq. now rewrite Hq, Hcl.
Qed.

Lemma matchAll_written (a : Argument) (t : jsstring) :
  well_written a = true -> breaks t ->
  matchAll (written a ++ t) Between = written a :: matchAll t Between.
Proof.
  intros Ha Ht. destruct a as [[|c w]|q body]; simpl in Ha; try discriminate.
  - apply andb_prop in Ha as [Hq Hw]. apply negb_true_iff in Hq.
    pose proof Hw as Hw'. simpl in Hw'.
    apply andb_prop in Hw' as [Hc Hw']. apply negb_true_iff in Hc.
    cbn [written app matchAll]. rewrite Hc.
    unfold is_quote in Hq. rewrite Hq. cbn [andb].
    rewrite matchAll_bare.
    rewrite (takeWord_no_ws w t Hw' (breaks_takeWord t Ht)).
    rewrite (dropWord_no_ws w t Hw' (breaks_dropWord t Ht)).
    reflexivity.
  - apply andb_prop in Ha as [Ha Hb]. apply andb_prop in Ha as [Hq Hne].
    cbn [written]. 
    replace ((q :: body ++ [q]) ++ t) with (q :: body ++ q :: t)
      by (cbn [app]; now rewrite <- app_assoc).
    rewrite matchAll_open; [|exact Hq|].
    + now rewrite matchAll_quoted by exact Hb.
    + destruct body as [|b body]; [discriminate|].
      simpl in Hb. apply andb_prop in Hb as [Hb0 Hb].
      cbn [closes app]. rewrite Hb0, existsb_app. simpl.
      rewrite N.eqb_refl. now rewrite orb_true_r.
Qed.

Lemma stripQuotes_written (a : Argument) :
  well_written a = true -> stripQuotes (written a) = meant a.
Proof.
  intros Ha. destruct a as [[|c w]|q body]; simpl in Ha; try discriminate.
  - apply andb_prop in Ha as [Hq _]. apply negb_true_iff in Hq.
    unfold is_quote in Hq. apply orb_false_elim in Hq as [Hd Hs].
    unfold stripQuotes. cbn [written startsWith].
    rewrite (N.eqb_sym dq c), (N.eqb_sym sq c), Hd, Hs. reflexivity.
  - apply andb_prop in Ha as [Ha _]. apply andb_prop in Ha as [Hq _].
    assert (Hends : forall x, endsWith [x] (q :: body ++ [q]) = (x =? q)).
    { intros x. unfold endsWith. cbn [rev]. rewrite rev_app_distr.
      cbn [rev app startsWith]. now rewrite andb_true_r. }
    unfold stripQuotes. cbn [written]. rewrite !Hends.
    cbn [startsWith]. rewrite !andb_true_r, !andb_diag.
    unfold is_quote in Hq. rewrite (N.eqb_sym dq q), (N.eqb_sym sq q), Hq.
    unfold slice_1_m1. cbn [tl]. now rewrite removelast_last.
Qed.

Lemma matchAll_arguments (arguments : list Argument) :
  forallb well_written arguments = true ->
  matchAll (join_with (js " ") (map written arguments)) Between
  = map written arguments.
Proof.
  induction arguments as [|a l IH]; intros Hl; [reflexivity|].
  simpl in Hl. apply andb_prop in Hl as [Ha Hl].
  destruct l as [|b l].
  - cbn [map join_with]. rewrite <- (app_nil_r (written a)) at 1.
    now rewrite matchAll_written.
  - change (join_with (js " ") (map written (a :: b :: l)))
      with (written a ++ js " " ++ join_with (js " ") (map written (b :: l))).
    rewrite matchAll_written; [|exact Ha|reflexivity].
    change (js " " ++ ?x) with (32 :: x).
    cbn [matchAll]. change (is_ws 32) with true. cbv iota.
    rewrite IH by exact Hl. reflexivity.
Qed.

(** X1: a text of white space only, the empty text included, parses to the
    empty command name and no argument. *)
Theorem parseCommand_blank (text : jsstring) :
  forallb is_ws text = true ->
  parseCommand text = {| command := []; args := [] |}.
Proof.
  intros H. unfold parseCommand. now rewrite matchAll_ws.
Qed.

Lemma parseCommand_blank_witness :
  parseCommand (js "  ") = {| command := []; args := [] |}.
Proof. apply parseCommand_blank. reflexivity. Defined.

(** X2: writing a command line and parsing it is a round trip.  For a
    command name without white space and arguments that are bare words or
    quoted runs, the parser gives back the name and the arguments as they
    were meant: a quoted run is one argument, without its quotes, whatever
    white space it holds. *)
Theorem parseCommand_commandLine (name : jsstring)
    (arguments : list Argument) :
  no_ws name = true ->
  forallb well_written arguments = true ->
  parseCommand (commandLine name arguments)
  = {| command := name; args := map meant arguments |}.
Proof.
  intros Hn Hl. unfold parseCommand, commandLine.
  assert (Hm : matchAll (join_with (js " ")
                           ((slash :: name) :: map written arguments))
                        Between
               = (slash :: name) :: map written arguments).
  { destruct arguments as [|a l].
    - cbn [map join_with matchAll]. change (is_ws slash) with false.
      cbv iota. cbn [andb orb]. change ((slash =? dq) || (slash =? sq))
        with false. cbn [andb]. rewrite matchAll_bare.
      rewrite <- (app_nil_r name) at 1 2.
      rewrite takeWord_no_ws, dropWord_no_ws by auto. reflexivity.
    - change (join_with (js " ") ((slash :: name) :: map written (a :: l)))
        with (slash :: name ++ 32 :: join_with (js " ")
                                      (map written (a :: l))).
      cbn [matchAll]. change (is_ws slash) with false. cbv iota.
      change ((slash =? dq) || (slash =? sq)) with false. cbn [andb].
      rewrite matchAll_bare.
      rewrite takeWord_no_ws, dropWord_no_ws by auto.
      cbn [matchAll]. change (is_ws 32) with true. cbv iota.
      rewrite matchAll_arguments by exact Hl. reflexivity. }
  rewrite Hm. cbn [truthy negb substring1 tl]. f_equal.
  clear Hm. induction arguments as [|a l IH]; [reflexivity|].
  simpl in Hl. apply andb_prop in Hl as [Ha Hl].
  cbn [map]. rewrite stripQuotes_written by exact Ha.
  now rewrite IH.
Qed.

Lemma parseCommand_commandLine_witness :
  parseCommand
    (commandLine (js "command-invoke")
       [Bare (js "plan"); Quoted dq (js "multi word arg");
        Quoted sq (js "it said: ") ])
  = {| command := js "command-invoke";
       args := [js "plan"; js "multi word arg"; js "it said: "] |}.
Proof.
  apply (parseCommand_commandLine (js "command-invoke")
           [Bare (js "plan"); Quoted dq (js "multi word arg");
            Quoted sq (js "it said: ")]); reflexivity.
Defined.

(** ** The Slack adapter *)

Lemma Forall_forallb {A} (p : A -> bool) (l : list A) :
  forallb p l = true -> Forall (fun x => p x = true) l.
Proof.
  induction l as [|x l IH]; simpl; [constructor|].
  intros H. apply andb_prop in H as [Hx Hl]. constructor; auto.
Qed.

Lemma not_In_existsb (c : N) (l : jsstring) :
  existsb (N.eqb c) l = false -> ~ In c l.
Proof.
  induction l as [|x l IH]; simpl; [tauto|].
  intros H. apply orb_false_elim in H as [Hx Hl].
  intros [->|Hin]; [now rewrite N.eqb_refl in Hx|now apply IH].
Qed.

Lemma split_from_app (c : N) (a b cur : jsstring) :
  split_from [c] (a ++ c :: b) 0 cur
  = split_from [c] a 0 cur ++ split_from [c] b 0 [].
Proof.
  revert cur. induction a as [|x a IH]; intros cur; cbn [app split_from].
  - cbn [startsWith]. now rewrite N.eqb_refl.
  - cbn [startsWith length Nat.pred]. rewrite andb_true_r.
    destruct (c =? x); [cbn [app]; now rewrite IH|apply IH].
Qed.

Lemma split_from_none (c : N) (s cur : jsstring) :
  ~ In c s -> split_from [c] s 0 cur = [cur ++ s].
Proof.
  revert cur. induction s as [|x s IH]; intros cur Hs; cbn [split_from].
  - now rewrite app_nil_r.
  - cbn [startsWith]. rewrite andb_true_r.
    destruct (N.eqb_spec c x) as [->|Hx]; [exfalso; apply Hs; now left|].
    rewrite IH by (intros H; apply Hs; now right).
    now rewrite <- app_assoc.
Qed.

Lemma split_from_pieces (c : N) (s cur : jsstring) :
  ~ In c cur -> Forall (fun piece => ~ In c piece) (split_from [c] s 0 cur).
Proof.
  revert cur. induction s as [|x s IH]; intros cur Hc; cbn [split_from].
  - now constructor.
  - cbn [startsWith length Nat.pred]. rewrite andb_true_r.
    destruct (N.eqb_spec c x) as [->|Hx].
    + constructor; [exact Hc|]. apply IH. intros [].
    + apply IH. intros H. apply in_app_or in H as [H|[H|[]]]; auto.
Qed.

Lemma join_with_cons (sep p : jsstring) (ps : list jsstring) :
  ps <> [] -> join_with sep (p :: ps) = p ++ sep ++ join_with sep ps.
Proof. destruct ps; [congruence|reflexivity]. Qed.

Lemma split_from_nonempty (sep s cur : jsstring) (skip : nat) :
  split_from sep s skip cur <> [].
Proof.
  revert skip cur. induction s as [|x s IH]; intros skip cur;
    cbn [split_from]; [discriminate|].
  destruct skip; [|apply IH].
  destruct (startsWith sep (x :: s)); [discriminate|apply IH].
Qed.

Lemma join_split_from (c : N) (s cur : jsstring) :
  join_with [c] (split_from [c] s 0 cur) = cur ++ s.
Proof.
  revert cur. induction s as [|x s IH]; intros cur; cbn [split_from].
  - cbn [join_with]. now rewrite app_nil_r.
  - cbn [startsWith length Nat.pred]. rewrite andb_true_r.
    destruct (N.eqb_spec c x) as [->|Hx].
    + rewrite join_with_cons by apply split_from_nonempty.
      now rewrite IH.
    + rewrite IH. now rewrite <- app_assoc.
Qed.

Section SlackAdapter.
Import SlackAdapter.
Variable refuses : nat -> option jsstring.
Hypothesis accepts : forall n, refuses n = None.
Variable channel : jsstring.
Variable threadTs : option jsstring.

Lemma postMessage_ok (p : PostMessage) (posted : Posted) :
  postMessage refuses p posted = (Ok tt, posted ++ [p]).
Proof using accepts. unfold postMessage. now rewrite accepts. Qed.

Lemma sendLines_ok (lines : list jsstring) (chunk : jsstring)
    (posted : Posted) :
  sendLines refuses channel threadTs lines chunk posted
  = (Ok (snd (grouped lines chunk)),
     posted ++ map (post channel threadTs) (fst (grouped lines chunk))).
Proof using accepts.
  revert chunk posted.
  induction lines as [|line rest IH]; intros chunk posted;
    cbn [sendLines grouped].
  - cbn. now rewrite app_nil_r.
  - destruct (MAX_LENGTH - 100 <? strlen chunk + strlen line + 1).
    + destruct (truthy chunk).
      * rewrite postMessage_ok, IH. cbn [fst snd app map].
        now rewrite <- app_assoc.
      * rewrite IH. reflexivity.
    + apply IH.
Qed.
End SlackAdapter.

Lemma nonEmptyLines_line (line : jsstring) :
  ~ In 10 line -> SlackAdapter.nonEmptyLines line = List.filter truthy [line].
Proof.
  intros H. unfold SlackAdapter.nonEmptyLines, splitOn, nl.
  now rewrite split_from_none.
Qed.

Lemma nonEmptyLines_app (a b : jsstring) :
  SlackAdapter.nonEmptyLines (a ++ nl ++ b)
  = SlackAdapter.nonEmptyLines a ++ SlackAdapter.nonEmptyLines b.
Proof.
  unfold SlackAdapter.nonEmptyLines, splitOn, nl. cbn [app].
  now rewrite split_from_app, List.filter_app.
Qed.

Lemma grouped_lines (lines : list jsstring) (chunk : jsstring) :
  Forall (fun line => ~ In 10 line) lines ->
  flat_map SlackAdapter.nonEmptyLines (fst (SlackAdapter.grouped lines chunk))
  ++ SlackAdapter.nonEmptyLines (snd (SlackAdapter.grouped lines chunk))
  = SlackAdapter.nonEmptyLines chunk ++ List.filter truthy lines.
Proof.
  intros Hl. revert chunk.
  induction Hl as [|line rest Hline _ IH]; intros chunk;
    cbn [SlackAdapter.grouped].
  - cbn. now rewrite app_nil_r.
  - transitivity (SlackAdapter.nonEmptyLines chunk
                  ++ SlackAdapter.nonEmptyLines line
                  ++ List.filter truthy rest).
    2:{ f_equal. rewrite (nonEmptyLines_line line Hline). cbn.
        now destruct (truthy line). }
    destruct (_ <? _).
    + cbn [fst snd]. rewrite flat_map_app, <- app_assoc, IH.
      destruct chunk as [|c chunk]; cbn [truthy flat_map app].
      * reflexivity.
      * now rewrite app_nil_r.
    + rewrite IH. destruct chunk as [|c chunk]; cbn [truthy app].
      * reflexivity.
      * change (c :: chunk ++ nl ++ line) with ((c :: chunk) ++ nl ++ line).
        rewrite nonEmptyLines_app. now rewrite <- app_assoc.
Qed.

Lemma strlen_app (a b : jsstring) :
  SlackAdapter.strlen (a ++ b) = SlackAdapter.strlen a + SlackAdapter.strlen b.
Proof. unfold SlackAdapter.strlen. rewrite length_app. lia. Qed.

Lemma grouped_limit (lines : list jsstring) (chunk : jsstring) :
  SlackAdapter.strlen chunk <= SlackAdapter.MAX_LENGTH ->
  Forall (fun line => SlackAdapter.strlen line <= SlackAdapter.MAX_LENGTH)
         lines ->
  Forall (fun t => SlackAdapter.strlen t <= SlackAdapter.MAX_LENGTH)
         (fst (SlackAdapter.grouped lines chunk))
  /\ SlackAdapter.strlen (snd (SlackAdapter.grouped lines chunk))
     <= SlackAdapter.MAX_LENGTH.
Proof.
  intros Hc Hl. revert chunk Hc.
  induction Hl as [|line rest Hline _ IH]; intros chunk Hc;
    cbn [SlackAdapter.grouped].
  - split; [constructor|exact Hc].
  - destruct (N.ltb_spec (SlackAdapter.MAX_LENGTH - 100)
                (SlackAdapter.strlen chunk + SlackAdapter.strlen line + 1))
      as [Hover|Hfits].
    + cbn [fst snd]. destruct (IH line Hline) as [Hf Hs].
      split; [|exact Hs]. apply Forall_app. split; [|exact Hf].
      destruct (truthy chunk); repeat constructor; exact Hc.
    + apply IH. rewrite !strlen_app.
      unfold SlackAdapter.MAX_LENGTH in *.
      destruct (truthy chunk);
        [change (SlackAdapter.strlen nl) with 1
        |change (SlackAdapter.strlen []) with 0]; lia.
Qed.

Lemma join_with_app (sep : jsstring) (l1 l2 : list jsstring) :
  l1 <> [] -> l2 <> [] ->
  join_with sep (l1 ++ l2) = join_with sep l1 ++ sep ++ join_with sep l2.
Proof.
  intros H1 H2. induction l1 as [|p l1 IH]; [congruence|].
  destruct l1 as [|q l1].
  - cbn [app]. now rewrite join_with_cons.
  - change ((p :: q :: l1) ++ l2) with (p :: (q :: l1) ++ l2).
    rewrite join_with_cons by discriminate.
    rewrite IH by discriminate.
    rewrite (join_with_cons sep p (q :: l1)) by discriminate.
    now rewrite <- !app_assoc.
Qed.

Lemma grouped_join (lines : list jsstring) (chunk : jsstring) :
  truthy chunk = true ->
  Forall (fun line => truthy line = true) lines ->
  join_with nl (fst (SlackAdapter.grouped lines chunk)
                ++ [snd (SlackAdapter.grouped lines chunk)])
  = join_with nl (chunk :: lines)
  /\ truthy (snd (SlackAdapter.grouped lines chunk)) = true.
Proof.
  intros Hc Hl. revert chunk Hc.
  induction Hl as [|line rest Hline _ IH]; intros chunk Hc;
    cbn [SlackAdapter.grouped].
  - split; [reflexivity|exact Hc].
  - destruct (_ <? _).
    + cbn [fst snd]. destruct (IH line Hline) as [Hj Hs].
      split; [|exact Hs]. rewrite Hc. cbn [app].
      rewrite join_with_cons
        by (intros H; apply app_eq_nil in H as [_ H]; discriminate H).
      rewrite Hj. reflexivity.
    + rewrite Hc.
      assert (Hc' : truthy (chunk ++ nl ++ line) = true)
        by (destruct chunk; [discriminate|reflexivity]).
      destruct (IH _ Hc') as [Hj Hs]. split; [|exact Hs].
      rewrite Hj. destruct rest as [|r rest].
      * cbn [join_with]. reflexivity.
      * rewrite !join_with_cons by discriminate.
        now rewrite <- !app_assoc.
Qed.

(** X3: a message of at most 4000 code units, or without a line feed, is
    posted whole in one call, to the channel and thread its conversation
    identifier names: the adapter splits at line feeds only, so a longer
    message of one line is not split. *)
Theorem slack_sendMessage_whole (refuses : nat -> option jsstring)
    (conversationId message : jsstring) (posted : SlackAdapter.Posted) :
  (forall n, refuses n = None) ->
  SlackAdapter.strlen message <= SlackAdapter.MAX_LENGTH
  \/ ~ In 10 message ->
  SlackAdapter.sendMessage refuses conversationId message posted
  = (Ok tt,
     posted
     ++ [SlackAdapter.post
           (fst (SlackAdapter.parseConversationId conversationId))
           (snd (SlackAdapter.parseConversationId conversationId))
           message]).
Proof.
  intros Hacc Hm. unfold SlackAdapter.sendMessage.
  destruct (SlackAdapter.parseConversationId conversationId) as [ch th].
  cbn [fst snd].
  destruct (N.leb_spec (SlackAdapter.strlen message) SlackAdapter.MAX_LENGTH)
    as [Hshort|Hlong].
  - now apply postMessage_ok.
  - destruct Hm as [Hm|Hm]; [lia|].
    rewrite sendLines_ok by exact Hacc.
    unfold splitOn, nl. rewrite split_from_none by exact Hm.
    cbn [app SlackAdapter.grouped].
    assert (Hne : truthy message = true)
      by (destruct message; [exfalso; revert Hlong; cbv; discriminate
                            |reflexivity]).
    destruct (_ <? _); cbn [fst snd map app truthy]; rewrite app_nil_r, Hne;
      now apply postMessage_ok.
Qed.

Lemma slack_sendMessage_whole_witness :
  SlackAdapter.sendMessage (fun _ => None) (js "C12345678:1234567890.123456")
    (js "Hello, world!") []
  = (Ok tt,
     [{| SlackAdapter.channel := js "C12345678";
         SlackAdapter.text := js "Hello, world!";
         SlackAdapter.thread_ts := Some (js "1234567890.123456") |}]).
Proof.
  apply (slack_sendMessage_whole (fun _ => None)
           (js "C12345678:1234567890.123456") (js "Hello, world!") []).
  - reflexivity.
  - left. vm_compute. discriminate.
Defined.

Lemma grouped_first (line : jsstring) (rest : list jsstring) :
  SlackAdapter.grouped (line :: rest) [] = SlackAdapter.grouped rest line.
Proof.
  cbn [SlackAdapter.grouped truthy app].
  destruct (_ <? _); [|reflexivity].
  now destruct (SlackAdapter.grouped rest line).
Qed.

(** What [sendMessage] posts when no call is refused. *)
Lemma slack_sendMessage_ok (refuses : nat -> option jsstring)
    (conversationId message : jsstring) (posted : SlackAdapter.Posted) :
  (forall n, refuses n = None) ->
  let channel := fst (SlackAdapter.parseConversationId conversationId) in
  let threadTs := snd (SlackAdapter.parseConversationId conversationId) in
  let g := SlackAdapter.grouped (splitOn nl message) [] in
  SlackAdapter.sendMessage refuses conversationId message posted
  = (Ok tt,
     posted
     ++ map (SlackAdapter.post channel threadTs)
            (if SlackAdapter.strlen message <=? SlackAdapter.MAX_LENGTH
             then [message]
             else fst g ++ (if truthy (snd g) then [snd g] else []))).
Proof.
  intros Hacc. cbv zeta. unfold SlackAdapter.sendMessage.
  destruct (SlackAdapter.parseConversationId conversationId) as [ch th].
  cbn [fst snd]. destruct (_ <=? _).
  - now apply postMessage_ok.
  - rewrite sendLines_ok by exact Hacc.
    destruct (truthy _).
    + rewrite postMessage_ok by exact Hacc.
      now rewrite map_app, app_assoc.
    + now rewrite app_nil_r.
Qed.

(** X4: whatever its length, what the adapter posts for a message holds
    the lines of the message that are not empty, all of them and in their
    order; the empty lines are the only thing that can be lost. *)
Theorem slack_sendMessage_keeps_lines (refuses : nat -> option jsstring)
    (conversationId message : jsstring) (posted : SlackAdapter.Posted) :
  (forall n, refuses n = None) ->
  exists texts,
    SlackAdapter.sendMessage refuses conversationId message posted
    = (Ok tt,
       posted
       ++ map (SlackAdapter.post
                 (fst (SlackAdapter.parseConversationId conversationId))
                 (snd (SlackAdapter.parseConversationId conversationId)))
              texts)
    /\ flat_map SlackAdapter.nonEmptyLines texts
       = SlackAdapter.nonEmptyLines message.
Proof.
  intros Hacc. eexists. split.
  - apply (slack_sendMessage_ok refuses conversationId message posted Hacc).
  - cbv zeta. destruct (_ <=? _).
    + cbn [flat_map]. now rewrite app_nil_r.
    + rewrite flat_map_app.
      assert (Hl : Forall (fun line => ~ In 10 line) (splitOn nl message))
        by (apply split_from_pieces; intros []).
      pose proof (grouped_lines (splitOn nl message) [] Hl) as Hg.
      change (SlackAdapter.nonEmptyLines []) with (@nil jsstring) in Hg.
      cbn [app] in Hg. unfold SlackAdapter.nonEmptyLines at 3.
      rewrite <- Hg. f_equal.
      destruct (snd _) as [|c chunk]; cbn [truthy flat_map];
        [reflexivity|now rewrite app_nil_r].
Qed.

Lemma slack_sendMessage_keeps_lines_witness :
  exists texts,
    SlackAdapter.sendMessage (fun _ => None) (js "C1")
      (nl ++ js "first" ++ nl ++ nl ++ js "second") []
    = (Ok tt,
       map (SlackAdapter.post
              (fst (SlackAdapter.parseConversationId (js "C1")))
              (snd (SlackAdapter.parseConversationId (js "C1"))))
           texts)
    /\ flat_map SlackAdapter.nonEmptyLines texts
       = SlackAdapter.nonEmptyLines
           (nl ++ js "first" ++ nl ++ nl ++ js "second").
Proof.
  apply (slack_sendMessage_keeps_lines (fun _ => None) (js "C1")
           (nl ++ js "first" ++ nl ++ nl ++ js "second") []).
  reflexivity.
Defined.

(** X5: for a message without an empty line, the texts the adapter posts,
    joined by line feeds, are the message: nothing is lost, repeated or
    reordered by the splitting. *)
Theorem slack_sendMessage_round_trip (refuses : nat -> option jsstring)
    (conversationId message : jsstring) (posted : SlackAdapter.Posted) :
  (forall n, refuses n = None) ->
  Forall (fun line => truthy line = true) (splitOn nl message) ->
  exists texts,
    SlackAdapter.sendMessage refuses conversationId message posted
    = (Ok tt,
       posted
       ++ map (SlackAdapter.post
                 (fst (SlackAdapter.parseConversationId conversationId))
                 (snd (SlackAdapter.parseConversationId conversationId)))
              texts)
    /\ join_with nl texts = message.
Proof.
  intros Hacc Hl. eexists. split.
  - apply (slack_sendMessage_ok refuses conversationId message posted Hacc).
  - cbv zeta. destruct (_ <=? _); [reflexivity|].
    pose proof (join_split_from 10 message []) as Hjoin.
    fold nl in Hjoin. fold (splitOn nl message) in Hjoin.
    destruct (splitOn nl message) as [|line rest] eqn:Hs.
    { exfalso. revert Hs. apply split_from_nonempty. }
    rewrite grouped_first.
    apply Forall_cons_iff in Hl as [Hline Hrest].
    destruct (grouped_join rest line Hline Hrest) as [Hj Ht].
    rewrite Ht, Hj. exact Hjoin.
Qed.

Lemma slack_sendMessage_round_trip_witness :
  exists texts,
    SlackAdapter.sendMessage (fun _ => None) (js "C1") longMessage []
    = (Ok tt,
       map (SlackAdapter.post
              (fst (SlackAdapter.parseConversationId (js "C1")))
              (snd (SlackAdapter.parseConversationId (js "C1"))))
           texts)
    /\ join_with nl texts = longMessage.
Proof.
  apply (slack_sendMessage_round_trip (fun _ => None) (js "C1") longMessage
           []).
  - reflexivity.
  - apply Forall_forallb. vm_compute. reflexivity.
Defined.

(** X6: when no line of the message is longer than 4000 code units, no
    text the adapter posts is longer than 4000 code units. *)
Theorem slack_sendMessage_limit (refuses : nat -> option jsstring)
    (conversationId message : jsstring) (posted : SlackAdapter.Posted) :
  (forall n, refuses n = None) ->
  Forall (fun line => SlackAdapter.strlen line <= SlackAdapter.MAX_LENGTH)
         (splitOn nl message) ->
  exists texts,
    SlackAdapter.sendMessage refuses conversationId message posted
    = (Ok tt,
       posted
       ++ map (SlackAdapter.post
                 (fst (SlackAdapter.parseConversationId conversationId))
                 (snd (SlackAdapter.parseConversationId conversationId)))
              texts)
    /\ Forall (fun t => SlackAdapter.strlen t <= SlackAdapter.MAX_LENGTH)
              texts.
Proof.
  intros Hacc Hl. eexists. split.
  - apply (slack_sendMessage_ok refuses conversationId message posted Hacc).
  - cbv zeta. destruct (N.leb_spec (SlackAdapter.strlen message)
                                   SlackAdapter.MAX_LENGTH) as [Hshort|_].
    + repeat constructor. exact Hshort.
    + assert (H0 : SlackAdapter.strlen [] <= SlackAdapter.MAX_LENGTH)
        by (cbv; discriminate).
      destruct (grouped_limit (splitOn nl message) [] H0 Hl) as [Hf Hs].
      apply Forall_app. split; [exact Hf|].
      destruct (truthy _); repeat constructor. exact Hs.
Qed.

Lemma slack_sendMessage_limit_witness :
  exists texts,
    SlackAdapter.sendMessage (fun _ => None) (js "C1") longMessage []
    = (Ok tt,
       map (SlackAdapter.post
              (fst (SlackAdapter.parseConversationId (js "C1")))
              (snd (SlackAdapter.parseConversationId (js "C1"))))
           texts)
    /\ Forall (fun t => SlackAdapter.strlen t <= SlackAdapter.MAX_LENGTH)
              texts.
Proof.
  apply (slack_sendMessage_limit (fun _ => None) (js "C1") longMessage []).
  - reflexivity.
  - apply (List.Forall_impl
             (P := fun line => (SlackAdapter.strlen line
                                <=? SlackAdapter.MAX_LENGTH) = true)).
    + intros line H. now apply N.leb_le.
    + apply Forall_forallb. vm_compute. reflexivity.
Defined.

(** X7: a conversation identifier made of a channel and a thread
    timestamp, neither holding a colon, is parsed back into the two; with
    an empty timestamp the thread is undefined.  The identifier the adapter
    takes from an event is the channel alone, so what is sent under it
    goes to the channel and to no thread. *)
Theorem slack_parseConversationId_round_trip
    (event : SlackAdapter.SlackMessageEvent) (ts : jsstring) :
  ~ In 58 (SlackAdapter.event_channel event) -> ~ In 58 ts ->
  SlackAdapter.parseConversationId
    (SlackAdapter.getConversationId event ++ js ":" ++ ts)
  = (SlackAdapter.event_channel event, if truthy ts then Some ts else None)
  /\ SlackAdapter.parseConversationId (SlackAdapter.getConversationId event)
     = (SlackAdapter.event_channel event, None).
Proof.
  intros Hc Hts. unfold SlackAdapter.parseConversationId,
    SlackAdapter.getConversationId, splitOn.
  change (js ":") with [58]. cbn [app]. split.
  - rewrite split_from_app, !split_from_none by assumption. reflexivity.
  - rewrite split_from_none by assumption. reflexivity.
Qed.

Lemma slack_parseConversationId_round_trip_witness :
  SlackAdapter.parseConversationId (js "C12345678:1234567890.123456")
  = (js "C12345678", Some (js "1234567890.123456"))
  /\ SlackAdapter.parseConversationId (js "C12345678")
     = (js "C12345678", None).
Proof.
  apply (slack_parseConversationId_round_trip
           {| SlackAdapter.event_channel := js "C12345678";
              SlackAdapter.event_thread_ts := Some (js "1234567890.123456");
              SlackAdapter.event_ts := js "1234567890.654321";
              SlackAdapter.event_text := Some (js "Hello");
              SlackAdapter.event_user := None |}
           (js "1234567890.123456"));
    apply not_In_existsb; reflexivity.
Defined.

(** ** Normalizing a message *)

Lemma trimStart_no_ws (w : jsstring) : no_ws w = true -> trimStart w = w.
Proof.
  destruct w as [|c w]; [reflexivity|]. simpl. intros H.
  apply andb_prop in H as [Hc _]. apply negb_true_iff in Hc.
  now rewrite Hc.
Qed.

Lemma no_ws_rev (w : jsstring) : no_ws (rev w) = no_ws w.
Proof.
  unfold no_ws. induction w as [|c w IH]; [reflexivity|].
  cbn [rev]. rewrite forallb_app, IH. cbn [forallb].
  rewrite andb_true_r. apply andb_comm.
Qed.

Lemma trim_no_ws (w : jsstring) : no_ws w = true -> trim w = w.
Proof.
  intros H. unfold trim, trimEnd. rewrite (trimStart_no_ws w H).
  rewrite trimStart_no_ws by now rewrite no_ws_rev.
  apply rev_involutive.
Qed.

Lemma split_ws_no_ws (w cur : jsstring) :
  no_ws w = true -> split_ws_from w false cur = [cur ++ w].
Proof.
  revert cur. induction w as [|c w IH]; intros cur H; cbn [split_ws_from].
  - now rewrite app_nil_r.
  - simpl in H. apply andb_prop in H as [Hc Hw]. apply negb_true_iff in Hc.
    rewrite Hc, IH by exact Hw. now rewrite <- app_assoc.
Qed.

Lemma parseCommand_word (w : jsstring) :
  no_ws w = true ->
  parseCommand (slash :: w) = {| command := w; args := [] |}.
Proof.
  intros H. unfold parseCommand. cbn [matchAll].
  change (is_ws slash) with false. cbv iota.
  change ((slash =? dq) || (slash =? sq)) with false. cbn [andb].
  assert (Ht : takeWord w = w)
    by (rewrite <- (app_nil_r w) at 1; now apply takeWord_no_ws).
  assert (Hd : dropWord w = [])
    by (rewrite <- (app_nil_r w) at 1; now apply dropWord_no_ws).
  rewrite matchAll_bare, Ht, Hd. reflexivity.
Qed.

Lemma trimStart_snoc (x : jsstring) (c : N) :
  is_ws c = false -> exists y, trimStart (x ++ [c]) = y ++ [c].
Proof.
  intros Hc. induction x as [|d x IH]; cbn [app trimStart].
  - rewrite Hc. now exists [].
  - destruct (is_ws d); [exact IH|]. now exists (d :: x).
Qed.

Lemma trim_slash (x : jsstring) :
  startsWith (js "/") (trim (slash :: x)) = true.
Proof.
  unfold trim, trimEnd. cbn [trimStart]. change (is_ws slash) with false.
  cbv iota. cbn [rev].
  destruct (trimStart_snoc (rev x) slash eq_refl) as (y & ->).
  rewrite rev_app_distr. reflexivity.
Qed.

(** X8: normalizing is idempotent: a normalized message is left as it is
    by a second normalization. *)
Theorem normalizeCommand_idempotent (E : Env) (text : jsstring) :
  normalizeCommand E (normalizeCommand E text) = normalizeCommand E text.
Proof.
  assert (Hn : normalizeCommand E text = text
               \/ normalizeCommand E text = slash :: trim text)
    by (unfold normalizeCommand; cbv zeta; destruct (_ && _ && _); auto).
  destruct Hn as [Hn|Hn]; rewrite Hn; [exact Hn|].
  unfold normalizeCommand. cbv zeta. rewrite trim_slash. cbn [negb].
  now rewrite andb_false_r.
Qed.

Lemma known_truthy (x : jsstring) :
  existsb (str_eqb x) KNOWN_COMMANDS = true -> truthy x = true.
Proof. destruct x; [vm_compute; discriminate|reflexivity]. Qed.

Lemma normalizeCommand_word (E : Env) (w : jsstring) :
  no_ws w = true -> startsWith (js "/") w = false ->
  existsb (str_eqb (toLowerCase E w)) KNOWN_COMMANDS = true ->
  normalizeCommand E w = slash :: w.
Proof.
  intros Hw Hs Hk. unfold normalizeCommand. cbv zeta.
  rewrite (trim_no_ws w Hw). unfold split_ws.
  rewrite (split_ws_no_ws w [] Hw). cbn [app head option_map truthy_opt].
  rewrite (known_truthy _ Hk). unfold or_else. rewrite (known_truthy _ Hk).
  rewrite Hk, Hs. reflexivity.
Qed.

Lemma handleCommand_unknown (conversation : Conversation)
    (text : jsstring) (E : Env) (s : State) :
  existsb (str_eqb (command (parseCommand text))) handledCommands = false ->
  handleCommand conversation text E s
  = (Ok (answer false (unknownCommandText (command (parseCommand text)))),
     s).
Proof.
  intros H. unfold handleCommand. cbv zeta.
  cbn [existsb handledCommands] in H.
  repeat (apply orb_false_elim in H as [-> H]). reflexivity.
Qed.

(** X9: the known command words are recognised whatever their case, but
    the command handler compares the word as it was typed: a message of one
    word that is a known command only up to case, or a known command the
    handler has no case for ([codebase-switch]), gets the slash prepended
    and is answered with the unknown-command text, and nothing else
    happens. *)
Theorem bare_word_unknown_command (E : Env) (platform : Platform)
    (conversationId w : jsstring) (issueContext : option jsstring)
    (s : State) :
  no_fault E ->
  no_ws w = true -> startsWith (js "/") w = false ->
  existsb (str_eqb (toLowerCase E w)) KNOWN_COMMANDS = true ->
  existsb (str_eqb w) handledCommands = false ->
  startsWith (js "command-invoke") w = false ->
  let r := handleMessage platform conversationId w issueContext E s in
  fst r = Ok tt
  /\ new_events s (snd r) = [EvSend conversationId (unknownCommandText w)]
  /\ sessions (snd r) = sessions s.
Proof.
  intros Hnf Hw Hs Hk Hh Hi. cbv zeta.
  destruct (getOrCreateConversation_ok E Hnf (getPlatformType platform)
                                      conversationId s)
    as (conversation & s0 & Hrun & Ht & Hss & _).
  assert (Hall : handleMessage platform conversationId w issueContext E s
                 = (Ok tt,
                    log (EvSend conversationId (unknownCommandText w))
                        (bump s0))).
  { unfold handleMessage, handleMessageBody, tryCatch.
    unfold bind at 1, ask. cbv beta zeta.
    rewrite (normalizeCommand_word E w Hw Hs Hk).
    rewrite (bind_ok _ _ _ _ _ _ Hrun). cbv beta.
    change (js "/command-invoke") with (slash :: js "command-invoke").
    change (js "/") with [slash].
    cbn [startsWith]. rewrite N.eqb_refl, Hi. cbn [andb negb].
    assert (Hcmd : handleCommand conversation (slash :: w) E s0
                   = (Ok (answer false (unknownCommandText w)), s0)).
    { rewrite handleCommand_unknown; rewrite (parseCommand_word w Hw);
        [reflexivity|exact Hh]. }
    rewrite (bind_ok _ _ _ _ _ _ Hcmd). cbv beta.
    rewrite (bind_ok _ _ _ _ _ _ (sendMessage_ok E Hnf _ _ _)).
    reflexivity. }
  rewrite Hall. cbn [fst snd sessions log bump].
  repeat split; [|exact Hss].
  apply new_events_app. cbn [trace log bump]. now rewrite Ht.
Qed.

Lemma bare_word_unknown_command_witness :
  let r := handleMessage telegramStream (js "chat-1") (js "Help") None
             (scenarioEnv allUp []) emptyState in
  fst r = Ok tt
  /\ new_events emptyState (snd r)
     = [EvSend (js "chat-1") (unknownCommandText (js "Help"))]
  /\ sessions (snd r) = sessions emptyState.
Proof.
  apply (bare_word_unknown_command (scenarioEnv allUp []) telegramStream
           (js "chat-1") (js "Help") None emptyState);
    try reflexivity.
  intros op n. reflexivity.
Defined.

(** ** The prompt of a run *)

Lemma bind_ext {A B} (m : M A) (k k' : A -> M B) (E : Env) (s : State) :
  (forall a s', k a E s' = k' a E s') -> bind m k E s = bind m k' E s.
Proof.
  intros H. unfold bind. destruct (m E s) as [[a|e] s']; [apply H|].
  reflexivity.
Qed.

Lemma tryCatch_ext {A} (m m' : M A) (h : jsstring -> M A) (E : Env)
    (s : State) :
  m E s = m' E s -> tryCatch m h E s = tryCatch m' h E s.
Proof. intros H. unfold tryCatch. now rewrite H. Qed.

Lemma resolvePrompt_context (cid text : jsstring) (ctx : option jsstring)
    (conversation : Conversation) (E : Env) (s : State) :
  startsWith (js "/command-invoke") text = false
  \/ truthy_opt ctx = false ->
  resolvePrompt cid text ctx conversation E s
  = resolvePrompt cid text None conversation E s.
Proof.
  intros H. unfold resolvePrompt.
  destruct (startsWith (js "/command-invoke") text); [|reflexivity].
  destruct H as [H|H]; [discriminate H|].
  destruct (args (parseCommand text)) as [|name rest]; [reflexivity|].
  destruct (negb _); [reflexivity|].
  apply bind_ext. intros [codebase|] s1; [|reflexivity].
  destruct (assoc name (commands codebase)); [|reflexivity].
  apply bind_ext. intros E0 s2. cbv zeta.
  apply tryCatch_ext. apply bind_ext. intros commandText s3.
  rewrite H. reflexivity.
Qed.

(** X10: the issue context reaches the backend only through a
    [/command-invoke]: for any other message, and for an empty context,
    [handleMessage] does what it does without a context. *)
Theorem issueContext_only_for_invocations (E : Env) (platform : Platform)
    (conversationId text : jsstring) (issueContext : option jsstring)
    (s : State) :
  startsWith (js "/command-invoke") (normalizeCommand E text) = false
  \/ truthy_opt issueContext = false ->
  handleMessage platform conversationId text issueContext E s
  = handleMessage platform conversationId text None E s.
Proof.
  intros H.
  assert (Hbody : handleMessageBody platform conversationId text
                                    issueContext E s
                  = handleMessageBody platform conversationId text None
                                      E s).
  { unfold handleMessageBody, bind, ask. cbv zeta.
    destruct (getOrCreateConversation _ _ E s) as [[conversation|e] s0];
      [|reflexivity].
    destruct (_ && _); [reflexivity|].
    now rewrite (resolvePrompt_context _ _ _ _ _ _ H). }
  unfold handleMessage, tryCatch. now rewrite Hbody.
Qed.

Lemma issueContext_only_for_invocations_witness :
  handleMessage telegramStream (js "chat-1") (js "fix the bug")
    (Some (js "Issue 7: the parser fails")) (scenarioEnv allUp []) linkedState
  = handleMessage telegramStream (js "chat-1") (js "fix the bug") None
      (scenarioEnv allUp []) linkedState.
Proof.
  apply (issueContext_only_for_invocations (scenarioEnv allUp [])
           telegramStream (js "chat-1") (js "fix the bug")
           (Some (js "Issue 7: the parser fails")) linkedState).
  left. reflexivity.
Defined.

Lemma bind_bind_ok {A B C} (m : M A) (k0 : A -> M B) (k : B -> M C)
    (E : Env) (s s' : State) (a : A) :
  m E s = (Ok a, s') -> bind (bind m k0) k E s = bind (k0 a) k E s'.
Proof. intros H. unfold bind. now rewrite H. Qed.

Lemma getOrCreateConversation_found (E : Env) (p c : jsstring) (s : State)
    (conversation : Conversation) :
  fault E OpGetOrCreateConversation (tick s) = None ->
  findConversation p c s = Some conversation ->
  getOrCreateConversation p c E s = (Ok conversation, bump s).
Proof.
  intros Hf Hfind. unfold getOrCreateConversation, bind at 1, call.
  rewrite Hf. unfold bind at 1, ask. unfold bind at 1, get.
  unfold findConversation in Hfind. cbn [conversations bump].
  now rewrite Hfind.
Qed.

(** X11: a [/command-invoke] of a name the codebase has no command for is
    answered with the not-found text, and nothing else happens: no query,
    no session.  When the name is one that every object inherits
    ([constructor], [toString], ...), the lookup finds the inherited
    property instead, the run fails on its missing path, and the answer is
    the error notice. *)
Theorem invoke_of_missing_command (E : Env) (platform : Platform)
    (conversationId text : jsstring) (issueContext : option jsstring)
    (s : State) (conversation : Conversation) (codebase : Codebase)
    (name : jsstring) (rest : list jsstring) :
  no_fault E ->
  startsWith (js "/command-invoke") (normalizeCommand E text) = true ->
  args (parseCommand (normalizeCommand E text)) = name :: rest ->
  findConversation (getPlatformType platform) conversationId s
  = Some conversation ->
  truthy_opt (conv_codebase_id conversation) = true ->
  List.find (id_is (conv_codebase_id conversation)) (codebases s)
  = Some codebase ->
  assoc name (commands codebase) = None ->
  let r := handleMessage platform conversationId text issueContext E s in
  fst r = Ok tt
  /\ new_events s (snd r)
     = [EvSend conversationId
          (if existsb (str_eqb name) inherited_keys
           then errorNotice else commandNotFoundText name)]
  /\ sessions (snd r) = sessions s.
Proof.
  intros Hnf Hinv Hargs Hconv Hlinked Hcb Hassoc. cbv zeta.
  assert (Hall : handleMessage platform conversationId text issueContext E s
                 = (Ok tt,
                    log (EvSend conversationId
                           (if existsb (str_eqb name) inherited_keys
                            then errorNotice else commandNotFoundText name))
                        (bump (bump (bump s))))).
  { unfold handleMessage, handleMessageBody, tryCatch.
    unfold bind at 1, ask. cbv beta zeta.
    rewrite (bind_ok _ _ _ _ _ _
               (getOrCreateConversation_found E _ _ s conversation
                  (Hnf _ _) Hconv)).
    cbv beta. rewrite Hinv, andb_false_r.
    unfold resolvePrompt. rewrite Hinv, Hargs, Hlinked. cbn [negb].
    rewrite (bind_bind_ok _ _ _ _ _ _ _ (getCodebase_ok E Hnf _ _)).
    cbn [codebases bump]. rewrite Hcb, Hassoc.
    destruct (existsb (str_eqb name) inherited_keys).
    - unfold throw, bind. now rewrite sendMessage_ok.
    - rewrite (bind_bind_ok _ _ _ _ _ _ _ (sendMessage_ok E Hnf _ _ _)).
      reflexivity. }
  rewrite Hall. cbn [fst snd sessions log bump].
  repeat split. now apply new_events_app.
Qed.

Lemma invoke_of_missing_command_witness :
  let r := handleMessage telegramStream (js "chat-1")
             (js "/command-invoke deploy now") None
             (scenarioEnv allUp []) linkedState in
  fst r = Ok tt
  /\ new_events linkedState (snd r)
     = [EvSend (js "chat-1")
          (if existsb (str_eqb (js "deploy")) inherited_keys
           then errorNotice else commandNotFoundText (js "deploy"))]
  /\ sessions (snd r) = sessions linkedState.
Proof.
  apply (invoke_of_missing_command (scenarioEnv allUp []) telegramStream
           (js "chat-1") (js "/command-invoke deploy now") None linkedState
           scenarioConversation scenarioCodebase
           (js "deploy") [js "now"]);
    try reflexivity.
  intros op n. reflexivity.
Defined.

(** X12: when the file of an invoked command cannot be read, the sender is
    told so with the message of the error, the promise resolves, and
    nothing else happens: the failure is handled where it occurs and does
    not reach the error notice. *)
Theorem invoke_with_unreadable_file (E : Env) (platform : Platform)
    (conversationId text : jsstring) (issueContext : option jsstring)
    (s : State) (conversation : Conversation) (codebase : Codebase)
    (name : jsstring) (rest : list jsstring) (commandDef : CommandDef)
    (err : jsstring) :
  (forall n, fault E OpReadFile n = Some err) ->
  (forall op n, op <> OpReadFile -> fault E op n = None) ->
  startsWith (js "/command-invoke") (normalizeCommand E text) = true ->
  args (parseCommand (normalizeCommand E text)) = name :: rest ->
  findConversation (getPlatformType platform) conversationId s
  = Some conversation ->
  truthy_opt (conv_codebase_id conversation) = true ->
  List.find (id_is (conv_codebase_id conversation)) (codebases s)
  = Some codebase ->
  assoc name (commands codebase) = Some commandDef ->
  let r := handleMessage platform conversationId text issueContext E s in
  fst r = Ok tt
  /\ new_events s (snd r)
     = [EvSend conversationId (js "Failed to read command file: " ++ err)]
  /\ sessions (snd r) = sessions s.
Proof.
  intros Hread Hother Hinv Hargs Hconv Hlinked Hcb Hassoc. cbv zeta.
  assert (Hall : handleMessage platform conversationId text issueContext E s
                 = (Ok tt,
                    log (EvSend conversationId
                           (js "Failed to read command file: " ++ err))
                        (bump (bump (bump (bump s)))))).
  { unfold handleMessage, handleMessageBody, tryCatch.
    unfold bind at 1, ask. cbv beta zeta.
    rewrite (bind_ok _ _ _ _ _ _
               (getOrCreateConversation_found E _ _ s conversation
                  (Hother OpGetOrCreateConversation _ ltac:(discriminate))
                  Hconv)).
    cbv beta. rewrite Hinv, andb_false_r.
    unfold resolvePrompt. rewrite Hinv, Hargs, Hlinked. cbn [negb].
    assert (Hget : getCodebase (conv_codebase_id conversation) E (bump s)
                   = (Ok (Some codebase), bump (bump s))).
    { rewrite getCodebase_run, Hother by discriminate.
      cbn [codebases bump]. now rewrite Hcb. }
    rewrite (bind_bind_ok _ _ _ _ _ _ _ Hget). rewrite Hassoc.
    rewrite (bind_bind_ok ask _ _ E _ _ E eq_refl). cbv beta zeta.
    match goal with
    | |- context [tryCatch ?m ?h] =>
        assert (Htry : tryCatch m h E (bump (bump s))
                       = (Ok None,
                          log (EvSend conversationId
                                 (js "Failed to read command file: " ++ err))
                              (bump (bump (bump (bump s))))))
    end.
    { unfold tryCatch.
      assert (Hrf : forall p, readFile p E (bump (bump s))
                              = (Throw err, bump (bump (bump s))))
        by (intros p; now rewrite readFile_run, Hread).
      rewrite (bind_throw _ _ _ _ _ _ (Hrf _)).
      assert (Hsend : forall t, sendMessage conversationId t E
                                  (bump (bump (bump s)))
                                = (Ok tt,
                                   log (EvSend conversationId t)
                                     (bump (bump (bump (bump s))))))
        by (intros t; now rewrite sendMessage_run, Hother by discriminate).
      now rewrite (bind_ok _ _ _ _ _ _ (Hsend _)). }
    now rewrite (bind_ok _ _ _ _ _ _ Htry). }
  rewrite Hall. cbn [fst snd sessions log bump].
  repeat split. now apply new_events_app.
Qed.

Lemma invoke_with_unreadable_file_witness :
  let r := handleMessage telegramStream (js "chat-1")
             (js "/command-invoke execute now") None
             (scenarioEnv readDown []) linkedState in
  fst r = Ok tt
  /\ new_events linkedState (snd r)
     = [EvSend (js "chat-1")
          (js "Failed to read command file: " ++ js "unreachable")]
  /\ sessions (snd r) = sessions linkedState.
Proof.
  apply (invoke_with_unreadable_file (scenarioEnv readDown [])
           telegramStream (js "chat-1") (js "/command-invoke execute now")
           None linkedState scenarioConversation scenarioCodebase
           (js "execute") [js "now"]
           {| cmd_path := js "execute.md";
              cmd_description := js "execute" |}
           (js "unreachable"));
    try reflexivity.
  intros op n H. destruct op; try reflexivity. congruence.
Defined.

(** ** The command handler, continued *)

Lemma bind_inv {A B} (m : M A) (k : A -> M B) (E : Env) (s s' : State)
    (r : B) :
  bind m k E s = (Ok r, s') ->
  exists a s1, m E s = (Ok a, s1) /\ k a E s1 = (Ok r, s').
Proof.
  unfold bind. destruct (m E s) as [[a|e] s1]; [eauto|discriminate].
Qed.

Lemma tryCatch_total {A} (m : M A) (f : jsstring -> A) (E : Env)
    (s : State) :
  exists a s', tryCatch m (fun err => ret (f err)) E s = (Ok a, s').
Proof.
  unfold tryCatch, ret. destruct (m E s) as [[a|e] s']; eauto.
Qed.

(** Evaluates the comparisons of two literals. *)
Ltac literals :=
  repeat match goal with
         | |- context [str_eqb (js ?a) (js ?b)] =>
             let v := eval vm_compute in (str_eqb (js a) (js b)) in
             change (str_eqb (js a) (js b)) with v
         end;
  cbv iota.

Ltac literals_in H :=
  repeat match type of H with
         | context [str_eqb (js ?a) (js ?b)] =>
             let v := eval vm_compute in (str_eqb (js a) (js b)) in
             change (str_eqb (js a) (js b)) with v in H
         end;
  cbv iota in H.

(** X13: the promise of [handleCommand] rejects only for the four commands
    that go to the store outside a [try] block: for every other command,
    known or not, and whatever fails on the way (the clone, the file
    system, the store), it resolves with a result. *)
Theorem handleCommand_resolves (E : Env) (conversation : Conversation)
    (text : jsstring) (s : State) :
  existsb (str_eqb (command (parseCommand text)))
          [js "status"; js "setcwd"; js "commands"; js "reset"] = false ->
  exists result s',
    handleCommand conversation text E s = (Ok result, s').
Proof.
  intros H. cbn [existsb] in H.
  apply orb_false_elim in H as [H1 H]. apply orb_false_elim in H as [H2 H].
  apply orb_false_elim in H as [H3 H]. apply orb_false_elim in H as [H4 _].
  unfold handleCommand. cbv zeta. rewrite H1, H2, H3, H4.
  destruct (str_eqb _ (js "help")); [eexists _, _; reflexivity|].
  destruct (str_eqb _ (js "getcwd")); [eexists _, _; reflexivity|].
  destruct (str_eqb _ (js "clone")).
  { unfold case_clone. destruct (args (parseCommand text)) as [|arg0 rest];
      [eexists _, _; reflexivity|].
    destruct (negb (truthy arg0)); [eexists _, _; reflexivity|].
    cbv zeta. apply tryCatch_total. }
  destruct (str_eqb _ (js "command-set")).
  { unfold case_command_set.
    destruct (args (parseCommand text)) as [|name [|path parts]];
      try (eexists _, _; reflexivity).
    destruct (negb _); [eexists _, _; reflexivity|].
    unfold bind at 1, ask. cbv zeta. apply tryCatch_total. }
  destruct (str_eqb _ (js "load-commands")).
  { unfold case_load_commands.
    destruct (args (parseCommand text)) as [|folder rest];
      [eexists _, _; reflexivity|].
    destruct (negb _); [eexists _, _; reflexivity|].
    unfold bind at 1, ask. cbv zeta. apply tryCatch_total. }
  destruct (str_eqb _ (js "repos")).
  { unfold case_repos. cbv zeta. apply tryCatch_total. }
  eexists _, _. reflexivity.
Qed.

Lemma handleCommand_resolves_witness :
  exists result s',
    handleCommand scenarioConversation (js "/clone owner/repo")
                  (scenarioEnv (fun _ => true) []) linkedState
    = (Ok result, s').
Proof.
  apply (handleCommand_resolves (scenarioEnv (fun _ => true) [])
           scenarioConversation (js "/clone owner/repo") linkedState).
  reflexivity.
Defined.

Lemma active_count_zero_find (cid : jsstring) (l : list Session) :
  active_count cid l = 0%nat ->
  List.find (fun x => str_eqb (sess_conversation_id x) cid && active x) l
  = None.
Proof.
  unfold active_count. induction l as [|a l IH]; simpl; [reflexivity|].
  destruct (str_eqb (sess_conversation_id a) cid && active a);
    [discriminate|exact IH].
Qed.

Lemma activeSession_shrink (cid : jsstring) (s s' : State) :
  shrinking s s' -> activeSession cid s = None -> activeSession cid s' = None.
Proof.
  intros [Hs _] Hnone. unfold activeSession in *.
  apply active_count_zero_find.
  pose proof (active_count_shrink cid _ _ Hs) as Hle.
  rewrite (active_count_find_none cid _ Hnone) in Hle. lia.
Qed.

Lemma keeps_run {A} (E : Env) (m : M A) (s s' : State) (r : Res A) :
  respects shrinking E m -> m E s = (r, s') -> shrinking s s'.
Proof. intros Hm Hr. specialize (Hm s). now rewrite Hr in Hm. Qed.

(** A prefix that leaves the sessions alone, before a run that clears. *)
Lemma prefix_keeps {A B} (m : M A) (k : A -> M B) (E : Env) (s s' : State)
    (r : B) (Q : Prop) :
  respects shrinking E m ->
  (forall a s1, single_active s1 -> k a E s1 = (Ok r, s') -> Q) ->
  single_active s -> bind m k E s = (Ok r, s') -> Q.
Proof.
  intros Hm Hk Hs Hrun. apply bind_inv in Hrun as (a & s1 & Hm1 & Hk1).
  apply (Hk a s1); [|exact Hk1].
  exact (single_active_step _ _ _ (keeps_run E m s s1 _ Hm Hm1) Hs).
Qed.

Lemma deactivate_clears (E : Env) (cid : jsstring) (s s1 s2 : State)
    (session : option Session) :
  single_active s ->
  getActiveSession cid E s = (Ok session, s1) ->
  match session with
  | Some x => deactivateSession (sess_id x)
  | None => ret tt
  end E s1 = (Ok tt, s2) ->
  activeSession cid s2 = None.
Proof.
  intros Hs Hget Hde. rewrite getActiveSession_run in Hget.
  destruct (fault E OpGetActiveSession (tick s)); [discriminate|].
  injection Hget as <- <-.
  destruct (activeSession cid s) as [x|] eqn:Hact.
  - rewrite deactivateSession_run in Hde.
    destruct (fault E OpDeactivateSession _); [discriminate|].
    injection Hde as <-. unfold activeSession. cbn [sessions log set_sessions].
    apply active_count_zero_find.
    apply (active_count_deactivate_found cid x); [exact Hact|apply Hs].
  - injection Hde as <-. exact Hact.
Qed.

(** The reset of [/setcwd] and [/clone], and what follows it. *)
Lemma clear_then_keeps {B} (E : Env) (cid : jsstring) (k : unit -> M B)
    (s s' : State) (r : B) :
  (forall u, respects shrinking E (k u)) ->
  single_active s ->
  bind (getActiveSession cid)
       (fun session =>
          bind (match session with
                | Some x => deactivateSession (sess_id x)
                | None => ret tt
                end) k) E s = (Ok r, s') ->
  activeSession cid s' = None.
Proof.
  intros Hk Hs Hrun.
  apply bind_inv in Hrun as (session & s1 & Hget & Hrun).
  apply bind_inv in Hrun as ([] & s2 & Hde & Hrun).
  apply (activeSession_shrink cid s2 s' (keeps_run E (k tt) s2 s' _ (Hk tt) Hrun)).
  exact (deactivate_clears E cid s s1 s2 session Hs Hget Hde).
Qed.

Lemma tryCatch_success (m : M CommandResult) (f : jsstring -> jsstring)
    (E : Env) (s s' : State) (result : CommandResult) :
  tryCatch m (fun err => ret (answer false (f err))) E s = (Ok result, s') ->
  success result = true ->
  m E s = (Ok result, s').
Proof.
  unfold tryCatch, ret. destruct (m E s) as [[a|e] s1]; [auto|].
  intros H. injection H as <- <-. discriminate.
Qed.

Ltac keeps := autounfold with ops; walk.

(** X14: starting from a store with at most one active session per
    conversation, every [/reset], [/setcwd] or [/clone] that succeeds
    leaves the conversation without an active session, so that the next
    message starts a fresh one. *)
Theorem successful_reset_clears_session (E : Env)
    (conversation : Conversation) (text : jsstring) (s s' : State)
    (result : CommandResult) :
  single_active s ->
  In (command (parseCommand text)) [js "reset"; js "setcwd"; js "clone"] ->
  handleCommand conversation text E s = (Ok result, s') ->
  success result = true ->
  activeSession (conv_id conversation) s' = None.
Proof.
  intros Hs Hin Hrun Hok. unfold handleCommand in Hrun. cbv zeta in Hrun.
  destruct Hin as [Hc|[Hc|[Hc|[]]]]; rewrite <- Hc in Hrun;
    literals_in Hrun.
  - (* reset *)
    unfold case_reset in Hrun.
    apply bind_inv in Hrun as (session & s1 & Hget & Hrun).
    destruct session as [x|].
    + apply bind_inv in Hrun as ([] & s2 & Hde & Hrun).
      injection Hrun as _ <-.
      exact (deactivate_clears E _ s s1 s2 (Some x) Hs Hget Hde).
    + injection Hrun as _ <-.
      exact (deactivate_clears E _ s s1 s1 None Hs Hget eq_refl).
  - (* setcwd *)
    unfold case_setcwd in Hrun.
    destruct (args (parseCommand text)) as [|arg0 rest].
    { injection Hrun as <- _. discriminate Hok. }
    cbv zeta in Hrun. revert Hs Hrun.
    apply prefix_keeps; [keeps|intros existing s1].
    apply prefix_keeps; [keeps|intros _ s2].
    apply prefix_keeps; [keeps|intros _ s3].
    intros Hs3 Hrun. revert Hrun. apply clear_then_keeps; [|exact Hs3].
    intros _. keeps.
  - (* clone *)
    unfold case_clone in Hrun.
    destruct (args (parseCommand text)) as [|arg0 rest].
    { injection Hrun as <- _. discriminate Hok. }
    destruct (negb (truthy arg0)).
    { injection Hrun as <- _. discriminate Hok. }
    cbv zeta in Hrun. apply tryCatch_success in Hrun; [|exact Hok].
    unfold bind at 1, ask in Hrun. cbv zeta in Hrun.
    revert Hs Hrun.
    apply prefix_keeps; [keeps|intros _ s1].
    apply prefix_keeps; [keeps|intros _ s2].
    apply prefix_keeps; [keeps|intros suggested s3].
    apply prefix_keeps; [keeps|intros codebase s4].
    apply prefix_keeps; [keeps|intros _ s5].
    intros Hs5 Hrun. revert Hrun. apply clear_then_keeps; [|exact Hs5].
    intros _. keeps; apply respects_detectCommandFolder; auto.
Qed.

Lemma single_active_plannedState : single_active plannedState.
Proof.
  intros cid. unfold active_count, plannedState.
  cbn [sessions set_sessions List.filter].
  match goal with |- context [if ?b then _ else _] => destruct b end;
    simpl; lia.
Qed.

Lemma successful_reset_clears_session_witness :
  activeSession (js "conv-1")
    (snd (handleCommand scenarioConversation (js "/setcwd /workspace/app")
            (scenarioEnv allUp []) plannedState))
  = None.
Proof.
  eapply (successful_reset_clears_session (scenarioEnv allUp [])
            scenarioConversation (js "/setcwd /workspace/app") plannedState).
  - exact single_active_plannedState.
  - right. left. reflexivity.
  - vm_compute. reflexivity.
  - reflexivity.
Defined.

Section Runs.
Variable E : Env.

Lemma findCodebaseByPath_run (path : jsstring) (s : State) :
  findCodebaseByPath path E s
  = match fault E OpFindCodebaseByPath (tick s) with
    | Some e => (Throw e, bump s)
    | None =>
        (Ok (List.find (fun c => str_eqb (default_cwd c) path) (codebases s)),
         bump s)
    end.
Proof.
  unfold findCodebaseByPath, bind, call, get, ret.
  destruct (fault E OpFindCodebaseByPath (tick s)); reflexivity.
Qed.

Lemma updateConversation_run (id : jsstring) (u : ConversationUpdate)
    (s : State) :
  updateConversation id u E s
  = match fault E OpUpdateConversation (tick s) with
    | Some e => (Throw e, bump s)
    | None =>
        (Ok tt,
         set_conversations
           (map (fun c => if str_eqb (conv_id c) id then apply_update u c
                          else c)
                (conversations s)) (bump s))
    end.
Proof.
  unfold updateConversation, bind, call, modify.
  destruct (fault E OpUpdateConversation (tick s)); reflexivity.
Qed.

Lemma execAsync_run (cmd : jsstring) (s : State) :
  execAsync cmd E s
  = match fault E OpExec (tick s) with
    | Some e => (Throw e, bump s)
    | None => (Ok tt, log (EvExec cmd) (bump s))
    end.
Proof.
  unfold execAsync, bind, call, emit, modify.
  destruct (fault E OpExec (tick s)); reflexivity.
Qed.


Lemma createCodebase_run (name : jsstring) (url : option jsstring)
    (cwd : jsstring) (ai : option jsstring) (s : State) :
  createCodebase name url cwd ai E s
  = match fault E OpCreateCodebase (tick s) with
    | Some e => (Throw e, bump s)
    | None =>
        let row := {| cb_id := uuid E (next_row s); cb_name := name;
                      repository_url := if truthy_opt url then url else None;
                      default_cwd := cwd;
                      cb_ai_assistant_type := or_else ai (js "claude");
                      commands := [] |} in
        (Ok row, set_codebases (codebases s ++ [row]) (take_row (bump s)))
    end.
Proof.
  unfold createCodebase, row_id, bind, call, ask, get, modify, ret.
  destruct (fault E OpCreateCodebase (tick s)); reflexivity.
Qed.

Lemma getCodebaseCommands_run (id : jsstring) (s : State) :
  getCodebaseCommands id E s
  = match fault E OpGetCodebaseCommands (tick s) with
    | Some e => (Throw e, bump s)
    | None =>
        (Ok (match List.find (id_is (Some id)) (codebases s) with
             | Some c => commands c
             | None => []
             end), bump s)
    end.
Proof.
  unfold getCodebaseCommands, bind, call, get, ret.
  destruct (fault E OpGetCodebaseCommands (tick s)); reflexivity.
Qed.

Lemma updateCodebaseCommands_run (id : jsstring)
    (cmds : list (jsstring * CommandDef)) (s : State) :
  updateCodebaseCommands id cmds E s
  = match fault E OpUpdateCodebaseCommands (tick s) with
    | Some e => (Throw e, bump s)
    | None =>
        (Ok tt,
         set_codebases
           (map (fun c => if str_eqb (cb_id c) id then set_commands cmds c
                          else c)
                (codebases s)) (bump s))
    end.
Proof.
  unfold updateCodebaseCommands, bind, call, modify.
  destruct (fault E OpUpdateCodebaseCommands (tick s)); reflexivity.
Qed.
End Runs.

(** X15: [/setcwd] does not depend on git: when every call of the shell
    fails and nothing else does, the command still succeeds, the working
    directory of the conversation is the arguments joined by one space, and
    the conversation is linked to the first codebase that has this
    directory as its default, if there is one. *)
Theorem setcwd_ignores_git_failure (E : Env) (conversation : Conversation)
    (text : jsstring) (s : State) :
  (forall op n, op <> OpExec -> fault E op n = None) ->
  command (parseCommand text) = js "setcwd" ->
  args (parseCommand text) <> [] ->
  let newCwd := join_with (js " ") (args (parseCommand text)) in
  let existing :=
    List.find (fun c => str_eqb (default_cwd c) newCwd) (codebases s) in
  exists result s',
    handleCommand conversation text E s = (Ok result, s')
    /\ success result = true /\ modified result = true
    /\ conversations s'
       = map (fun c =>
                if str_eqb (conv_id c) (conv_id conversation)
                then apply_update
                       {| upd_cwd := Some newCwd;
                          upd_codebase_id := option_map cb_id existing |} c
                else c)
             (conversations s).
Proof.
  intros Hother Hc Hargs. cbv zeta.
  unfold handleCommand. cbv zeta. rewrite Hc. literals.
  unfold case_setcwd.
  destruct (args (parseCommand text)) as [|arg0 rest]; [congruence|].
  cbv zeta. set (newCwd := join_with (js " ") (arg0 :: rest)).
  assert (H1 : findCodebaseByPath newCwd E s
               = (Ok (List.find (fun c => str_eqb (default_cwd c) newCwd)
                                (codebases s)), bump s))
    by (now rewrite findCodebaseByPath_run, Hother by discriminate).
  rewrite (bind_ok _ _ _ _ _ _ H1).
  set (existing := List.find _ (codebases s)).
  set (u := {| upd_cwd := Some newCwd;
               upd_codebase_id := option_map cb_id existing |}).
  assert (H2 : match existing with
               | Some cb =>
                   updateConversation (conv_id conversation)
                     {| upd_cwd := Some newCwd;
                        upd_codebase_id := Some (cb_id cb) |}
               | None =>
                   updateConversation (conv_id conversation)
                     {| upd_cwd := Some newCwd; upd_codebase_id := None |}
               end E (bump s)
               = (Ok tt,
                  set_conversations
                    (map (fun c => if str_eqb (conv_id c) (conv_id conversation)
                                   then apply_update u c else c)
                         (conversations s)) (bump (bump s)))).
  { subst u. destruct existing;
      now rewrite updateConversation_run, Hother by discriminate. }
  rewrite (bind_ok _ _ _ _ _ _ H2).
  match goal with
  | |- context [tryCatch ?m ?h] =>
      assert (H3 : exists s3,
                 tryCatch m h E
                   (set_conversations
                      (map (fun c =>
                              if str_eqb (conv_id c) (conv_id conversation)
                              then apply_update u c else c)
                           (conversations s)) (bump (bump s)))
                 = (Ok tt, s3)
                 /\ conversations s3
                    = map (fun c =>
                             if str_eqb (conv_id c) (conv_id conversation)
                             then apply_update u c else c)
                          (conversations s))
  end.
  { unfold tryCatch. rewrite execAsync_run.
    destruct (fault E OpExec _); eexists; split; reflexivity. }
  destruct H3 as (s3 & H3 & Hc3).
  rewrite (bind_ok _ _ _ _ _ _ H3).
  rewrite (bind_ok _ _ _ _ _ _ (eq_trans (getActiveSession_run E _ s3)
                                  ltac:(now rewrite Hother by discriminate))).
  destruct (activeSession (conv_id conversation) s3) as [x|].
  - rewrite (bind_ok _ _ _ _ _ _
               (eq_trans (deactivateSession_run E _ _)
                  ltac:(now rewrite Hother by discriminate))).
    eexists _, _. split; [reflexivity|]. repeat split. exact Hc3.
  - unfold bind at 1, ret at 1.
    eexists _, _. split; [reflexivity|]. repeat split. exact Hc3.
Qed.

Lemma setcwd_ignores_git_failure_witness :
  exists result s',
    handleCommand scenarioConversation (js "/setcwd /workspace/my app")
      (scenarioEnv execDown []) plannedState = (Ok result, s')
    /\ success result = true /\ modified result = true
    /\ conversations s'
       = map (fun c =>
                if str_eqb (conv_id c) (conv_id scenarioConversation)
                then apply_update
                       {| upd_cwd := Some (js "/workspace/my app");
                          upd_codebase_id := None |} c
                else c)
             (conversations plannedState).
Proof.
  apply (setcwd_ignores_git_failure (scenarioEnv execDown [])
           scenarioConversation (js "/setcwd /workspace/my app")
           plannedState).
  - intros op n H. destruct op; try reflexivity. congruence.
  - reflexivity.
  - discriminate.
Defined.

(** ** Cloning *)













(** ** The table of codebases *)

Lemma assoc_assign_same {V} (name : jsstring) (v : V)
    (entries : list (jsstring * V)) :
  assoc name (assign name v entries) = assigned name v entries.
Proof.
  unfold assigned.
  induction entries as [|[k v0] rest IH]; cbn [assign assoc].
  - destruct (str_eqb name (js "__proto__")); [reflexivity|].
    cbn [assoc]. now rewrite str_eqb_refl.
  - destruct (str_eqb k name) eqn:Hk; cbn [assoc]; rewrite Hk.
    + now destruct (str_eqb name (js "__proto__")).
    + exact IH.
Qed.

Lemma assoc_assign_stored {V} (name : jsstring) (v : V)
    (entries : list (jsstring * V)) :
  str_eqb name (js "__proto__") = false ->
  assoc name (assign name v entries) = Some v.
Proof.
  intros Hname. rewrite assoc_assign_same. unfold assigned.
  now rewrite Hname.
Qed.

Lemma assoc_assign_other {V} (name k : jsstring) (v : V)
    (entries : list (jsstring * V)) :
  k <> name -> assoc k (assign name v entries) = assoc k entries.
Proof.
  intros Hk. induction entries as [|[k0 v0] rest IH]; cbn [assign assoc].
  - destruct (str_eqb name (js "__proto__")); [reflexivity|]. cbn [assoc].
    destruct (str_eqb_spec name k); [congruence|reflexivity].
  - destruct (str_eqb_spec k0 name) as [->|Hn]; cbn [assoc].
    + destruct (str_eqb_spec name k); [congruence|reflexivity].
    + now rewrite IH.
Qed.

Lemma find_map_same {A} (p : A -> bool) (f : A -> A) (l : list A) :
  (forall a, p (f a) = p a) ->
  List.find p (map f l) = option_map f (List.find p l).
Proof.
  intros Hp. induction l as [|a l IH]; [reflexivity|].
  cbn [map List.find]. rewrite Hp. destruct (p a); [reflexivity|exact IH].
Qed.

Lemma find_app_none {A} (p : A -> bool) (l1 l2 : list A) :
  List.find p l1 = None -> List.find p (l1 ++ l2) = List.find p l2.
Proof.
  induction l1 as [|a l1 IH]; [reflexivity|]. cbn [app List.find].
  destruct (p a); [discriminate|exact IH].
Qed.

Lemma find_commands_updated (id : jsstring)
    (cmds : list (jsstring * CommandDef)) (l : list Codebase) :
  List.find (id_is (Some id))
    (map (fun c => if str_eqb (cb_id c) id then set_commands cmds c else c) l)
  = option_map (set_commands cmds) (List.find (id_is (Some id)) l).
Proof.
  induction l as [|c l IH]; [reflexivity|].
  cbn [map List.find id_is].
  destruct (str_eqb (cb_id c) id) eqn:Hc; cbn [set_commands cb_id];
    rewrite Hc; [reflexivity|exact IH].
Qed.

(** X17: registering a command and reading the commands of the codebase
    back.  When [registerCommand] resolves for the identifier of a codebase
    of the table, the commands read back for that identifier hold the
    definition under its name, and every other name is as it was.  The name
    [__proto__] is the exception: nothing is stored under it, unless the
    commands already held an entry of that name, which then takes the
    definition. *)
Theorem registerCommand_then_get (E : Env) (id name : jsstring)
    (def : CommandDef) (s s' : State) (codebase : Codebase) :
  List.find (id_is (Some id)) (codebases s) = Some codebase ->
  registerCommand id name def E s = (Ok tt, s') ->
  fault E OpGetCodebaseCommands (tick s') = None ->
  exists cmds,
    getCodebaseCommands id E s' = (Ok cmds, bump s')
    /\ assoc name cmds = assigned name def (commands codebase)
    /\ forall k, k <> name -> assoc k cmds = assoc k (commands codebase).
Proof.
  intros Hfind Hrun Hget. unfold registerCommand in Hrun.
  apply bind_inv in Hrun as (old & s1 & Hold & Hupd).
  rewrite getCodebaseCommands_run in Hold.
  destruct (fault E OpGetCodebaseCommands (tick s)); [discriminate|].
  rewrite Hfind in Hold. injection Hold as <- <-.
  rewrite updateCodebaseCommands_run in Hupd.
  destruct (fault E OpUpdateCodebaseCommands _); [discriminate|].
  injection Hupd as <-.
  rewrite getCodebaseCommands_run, Hget.
  cbn [codebases set_codebases bump].
  rewrite find_commands_updated, Hfind. cbn [option_map set_commands commands].
  eexists. split; [reflexivity|]. split.
  - apply assoc_assign_same.
  - intros k Hk. now apply assoc_assign_other.
Qed.

Lemma registerCommand_then_get_witness :
  exists cmds,
    getCodebaseCommands (js "cb-1") (scenarioEnv allUp [])
      (snd (registerCommand (js "cb-1") (js "deploy")
              {| cmd_path := js "deploy.md";
                 cmd_description := js "Custom: deploy" |}
              (scenarioEnv allUp []) linkedState))
    = (Ok cmds,
       bump (snd (registerCommand (js "cb-1") (js "deploy")
                    {| cmd_path := js "deploy.md";
                       cmd_description := js "Custom: deploy" |}
                    (scenarioEnv allUp []) linkedState)))
    /\ assoc (js "deploy") cmds
       = Some {| cmd_path := js "deploy.md";
                 cmd_description := js "Custom: deploy" |}
    /\ forall k, k <> js "deploy" ->
                 assoc k cmds = assoc k (commands scenarioCodebase).
Proof.
  apply (registerCommand_then_get (scenarioEnv allUp []) (js "cb-1")
           (js "deploy")
           {| cmd_path := js "deploy.md";
              cmd_description := js "Custom: deploy" |}
           linkedState _ scenarioCodebase); reflexivity.
Defined.

(** X18: creating a codebase and reading it back.  The row that
    [createCodebase] resolves with is the row [getCodebase] finds under its
    identifier, when the table holds no row with that identifier yet; its
    assistant type is [claude] when none, or the empty one, was given, and
    its repository address is null when none, or the empty one, was
    given. *)
Theorem createCodebase_then_get (E : Env) (name : jsstring)
    (url : option jsstring) (cwd : jsstring) (ai : option jsstring)
    (s s' : State) (row : Codebase) :
  Forall (fun c => cb_id c <> uuid E (next_row s)) (codebases s) ->
  createCodebase name url cwd ai E s = (Ok row, s') ->
  fault E OpGetCodebase (tick s') = None ->
  getCodebase (Some (cb_id row)) E s' = (Ok (Some row), bump s')
  /\ cb_ai_assistant_type row = or_else ai (js "claude")
  /\ repository_url row = (if truthy_opt url then url else None)
  /\ cb_name row = name /\ default_cwd row = cwd /\ commands row = [].
Proof.
  intros Hfresh Hrun Hget. rewrite createCodebase_run in Hrun.
  destruct (fault E OpCreateCodebase (tick s)); [discriminate|].
  cbv zeta in Hrun. injection Hrun as <- <-.
  split; [|repeat split].
  rewrite getCodebase_run, Hget.
  cbn [codebases set_codebases take_row bump cb_id].
  assert (Hnone : List.find (id_is (Some (uuid E (next_row s))))
                            (codebases s) = None).
  { clear Hget. induction Hfresh as [|c l Hc _ IH]; [reflexivity|].
    cbn [List.find id_is].
    destruct (str_eqb_spec (cb_id c) (uuid E (next_row s)));
      [contradiction|exact IH]. }
  rewrite (find_app_none _ _ _ Hnone).
  cbn [List.find id_is cb_id]. now rewrite str_eqb_refl.
Qed.

Lemma createCodebase_then_get_witness :
  let r := createCodebase (js "app") (Some []) (js "/workspace/app") None
             (scenarioEnv allUp []) emptyState in
  match fst r with
  | Ok row =>
      getCodebase (Some (cb_id row)) (scenarioEnv allUp []) (snd r)
      = (Ok (Some row), bump (snd r))
      /\ cb_ai_assistant_type row = js "claude"
      /\ repository_url row = None
  | Throw _ => False
  end.
Proof.
  cbv zeta.
  destruct (createCodebase (js "app") (Some []) (js "/workspace/app") None
              (scenarioEnv allUp []) emptyState) as [[row|e] s'] eqn:Hrun;
    [|vm_compute in Hrun; discriminate Hrun].
  cbn [fst snd].
  destruct (createCodebase_then_get (scenarioEnv allUp []) (js "app")
              (Some []) (js "/workspace/app") None emptyState s' row)
    as (H1 & H2 & H3 & _).
  - constructor.
  - exact Hrun.
  - reflexivity.
  - auto.
Defined.

(** ** The store after a run that queried the backend *)

Lemma storeTokens_app (id : jsstring) (t1 t2 : list jsstring)
    (ss : list Session) :
  storeTokens id (t1 ++ t2) ss = storeTokens id t2 (storeTokens id t1 ss).
Proof. unfold storeTokens. apply fold_left_app. Qed.

Lemma reportedTokens_cons (msg : MessageChunk) (rest : list MessageChunk) :
  reportedTokens (msg :: rest) = reportedTokens [msg] ++ reportedTokens rest.
Proof. unfold reportedTokens. simpl. now rewrite app_nil_r. Qed.

Section State.
Variable E : Env.
Hypothesis Hnf : no_fault E.

Lemma streamChunk_state (c sid : jsstring) (msg : MessageChunk)
    (s : State) :
  exists s',
    streamChunk c sid msg E s = (Ok tt, s')
    /\ conversations s' = conversations s
    /\ sessions s' = storeTokens sid (reportedTokens [msg]) (sessions s).
Proof using Hnf.
  unfold streamChunk, reportedTokens, storeTokens, bind at 1, ask.
  cbn [flat_map app].
  destruct (chunk_type msg).
  - destruct (truthy_opt (content msg)).
    + rewrite sendMessage_ok by exact Hnf. eexists; repeat split.
    + eexists; repeat split.
  - destruct (truthy_opt (sessionId msg)).
    + rewrite updateSession_ok by exact Hnf. eexists; repeat split.
    + eexists; repeat split.
  - eexists; repeat split.
  - destruct (truthy_opt (toolName msg)).
    + rewrite sendMessage_ok by exact Hnf. eexists; repeat split.
    + eexists; repeat split.
  - eexists; repeat split.
Qed.

Lemma streamLoop_state (c sid : jsstring) (chunks : list MessageChunk)
    (s : State) :
  exists s',
    streamLoop c sid chunks E s = (Ok tt, s')
    /\ conversations s' = conversations s
    /\ sessions s' = storeTokens sid (reportedTokens chunks) (sessions s).
Proof using Hnf.
  revert s. induction chunks as [|msg rest IH]; intros s; cbn [streamLoop].
  - rewrite nextChunk_ok by exact Hnf. eexists; repeat split.
  - rewrite (bind_ok _ _ _ _ _ _ (nextChunk_ok E Hnf _)).
    unfold bind at 1, emit, modify.
    destruct (streamChunk_state c sid msg (log (EvChunk msg) (bump s)))
      as (s1 & Hrun & Hc & Hs).
    rewrite (bind_ok _ _ _ _ _ _ Hrun).
    destruct (IH s1) as (s2 & Hrun2 & Hc2 & Hs2).
    exists s2. split; [exact Hrun2|]. split.
    + now rewrite Hc2, Hc.
    + rewrite (reportedTokens_cons msg rest), storeTokens_app, Hs2, Hs.
      reflexivity.
Qed.

Lemma batchChunk_state (sid : jsstring) (msg : MessageChunk) (s : State) :
  exists pushed s',
    batchChunk sid msg E s = (Ok pushed, s')
    /\ conversations s' = conversations s
    /\ sessions s' = storeTokens sid (reportedTokens [msg]) (sessions s).
Proof using Hnf.
  unfold batchChunk, reportedTokens, storeTokens. cbn [flat_map app].
  destruct (chunk_type msg).
  - destruct (truthy_opt (content msg)); eexists _, _; repeat split.
  - destruct (truthy_opt (sessionId msg)).
    + rewrite (bind_ok _ _ _ _ _ _ (updateSession_ok E Hnf _ _ _)).
      eexists _, _; repeat split.
    + eexists _, _; repeat split.
  - eexists _, _; repeat split.
  - eexists _, _; repeat split.
  - eexists _, _; repeat split.
Qed.

Lemma batchLoop_state (sid : jsstring) (chunks : list MessageChunk)
    (acc : list jsstring) (s : State) :
  exists msgs s',
    batchLoop sid chunks acc E s = (Ok msgs, s')
    /\ conversations s' = conversations s
    /\ sessions s' = storeTokens sid (reportedTokens chunks) (sessions s).
Proof using Hnf.
  revert acc s.
  induction chunks as [|msg rest IH]; intros acc s; cbn [batchLoop].
  - rewrite (bind_ok _ _ _ _ _ _ (nextChunk_ok E Hnf _)).
    eexists _, _; repeat split.
  - rewrite (bind_ok _ _ _ _ _ _ (nextChunk_ok E Hnf _)).
    unfold bind at 1, emit, modify.
    destruct (batchChunk_state sid msg (log (EvChunk msg) (bump s)))
      as (pushed & s1 & Hrun & Hc & Hs).
    rewrite (bind_ok _ _ _ _ _ _ Hrun).
    destruct (IH (acc ++ pushed) s1) as (msgs & s2 & Hrun2 & Hc2 & Hs2).
    exists msgs, s2. split; [exact Hrun2|]. split.
    + now rewrite Hc2, Hc.
    + rewrite (reportedTokens_cons msg rest), storeTokens_app, Hs2, Hs.
      reflexivity.
Qed.

Lemma deliver_state (platform : Platform) (cid : jsstring)
    (conversation : Conversation) (prompt cwd : jsstring)
    (session : Session) (s : State) :
  let chunks := ai_stream E (tick s) (conv_ai_assistant_type conversation)
                          prompt cwd (resumeToken session) in
  exists s',
    deliver platform cid conversation prompt cwd session E s = (Ok tt, s')
    /\ trace s'
       = trace s
         ++ EvQuery prompt cwd (resumeToken session)
         :: deliveryEvents E (getStreamingMode platform) cid
                           (sess_id session) chunks
    /\ conversations s' = conversations s
    /\ sessions s'
       = storeTokens (sess_id session) (reportedTokens chunks) (sessions s).
Proof using Hnf.
  cbv zeta. unfold deliver, deliveryEvents.
  destruct (getStreamingMode platform).
  - rewrite (bind_ok _ _ _ _ _ _ (sendQuery_ok E Hnf _ _ _ _ _)); cbv beta.
    edestruct (streamLoop_ok E Hnf) as (s' & Hrun & Ht).
    edestruct streamLoop_state as (s2 & Hrun2 & Hc & Hs).
    rewrite Hrun in Hrun2. injection Hrun2 as <-.
    exists s'. split; [exact Hrun|]. split; [|split; [exact Hc|exact Hs]].
    rewrite Ht. cbn. now rewrite <- app_assoc.
  - rewrite (bind_ok _ _ _ _ _ _ (sendQuery_ok E Hnf _ _ _ _ _)); cbv beta.
    edestruct (batchLoop_ok E Hnf) as (s1 & Hrun & Ht).
    edestruct batchLoop_state as (msgs & s2 & Hrun2 & Hc & Hs).
    rewrite Hrun in Hrun2. injection Hrun2 as <- <-.
    rewrite (bind_ok _ _ _ _ _ _ Hrun); cbv beta. cbv zeta. cbn [app].
    rewrite finalMessageOf_summary.
    match goal with
    | |- context [last (assistantTexts ?l)] =>
        pose proof (assistantTexts_truthy l) as Hall;
        destruct (last (assistantTexts l)) as [m|] eqn:Hlast
    end.
    + rewrite (summaryOf_truthy m (last_Forall _ _ _ Hall Hlast)).
      rewrite sendMessage_ok by exact Hnf.
      eexists. split; [reflexivity|].
      split; [|split; [exact Hc|exact Hs]].
      cbn. rewrite Ht. cbn. rewrite <- !app_assoc. reflexivity.
    + eexists. split; [reflexivity|].
      split; [|split; [exact Hc|exact Hs]].
      rewrite Ht. cbn. rewrite app_nil_r, <- !app_assoc. reflexivity.
Qed.
End State.

Lemma find_active_map (cid : jsstring) (g : Session -> Session)
    (ss : list Session) :
  (forall x, sess_conversation_id (g x) = sess_conversation_id x) ->
  (forall x, active (g x) = active x) ->
  List.find (fun x => str_eqb (sess_conversation_id x) cid && active x)
            (map g ss)
  = option_map g
      (List.find (fun x => str_eqb (sess_conversation_id x) cid && active x)
                 ss).
Proof.
  intros Hc Ha. apply find_map_same. intros x. now rewrite Hc, Ha.
Qed.

Lemma find_storeTokens (cid id : jsstring) (tokens : list jsstring)
    (ss : list Session) :
  List.find (fun x => str_eqb (sess_conversation_id x) cid && active x)
            (storeTokens id tokens ss)
  = option_map (withTokens id tokens)
      (List.find (fun x => str_eqb (sess_conversation_id x) cid && active x)
                 ss).
Proof.
  revert ss. induction tokens as [|t ts IH]; intros ss.
  - cbn. now destruct (List.find _ ss).
  - unfold storeTokens, withTokens in *. cbn [fold_left]. rewrite IH.
    unfold on_session. rewrite find_active_map.
    + now destruct (List.find _ ss).
    + intros x. now destruct (str_eqb (sess_id x) id).
    + intros x. now destruct (str_eqb (sess_id x) id).
Qed.

Lemma find_recordCommand (cid id : jsstring) (cn : option jsstring)
    (ss : list Session) :
  List.find (fun x => str_eqb (sess_conversation_id x) cid && active x)
            (recordCommand id cn ss)
  = option_map (withCommand id cn)
      (List.find (fun x => str_eqb (sess_conversation_id x) cid && active x)
                 ss).
Proof.
  unfold recordCommand, withCommand. destruct (truthy_opt cn); cbn [andb].
  - unfold on_session. rewrite find_active_map.
    + reflexivity.
    + intros x. now destruct (str_eqb (sess_id x) id).
    + intros x. now destruct (str_eqb (sess_id x) id).
  - now destruct (List.find _ ss).
Qed.

Lemma withTokens_id (id : jsstring) (tokens : list jsstring) (x : Session) :
  sess_id (withTokens id tokens x) = sess_id x
  /\ metadata (withTokens id tokens x) = metadata x.
Proof.
  revert x. unfold withTokens.
  induction tokens as [|t ts IH]; intros x; [auto|].
  cbn [fold_left]. destruct (IH (if str_eqb (sess_id x) id
                                 then set_token t x else x)) as [H1 H2].
  rewrite H1, H2. now destruct (str_eqb (sess_id x) id).
Qed.

Lemma withTokens_last (tokens : list jsstring) (x : Session) (t : jsstring) :
  last tokens = Some t ->
  assistant_session_id (withTokens (sess_id x) tokens x) = Some t.
Proof.
  revert x. unfold withTokens.
  induction tokens as [|t0 ts IH]; intros x Hl; [discriminate|].
  cbn [fold_left]. rewrite str_eqb_refl.
  destruct ts as [|t1 ts].
  - injection Hl as <-. reflexivity.
  - change (sess_id x) with (sess_id (set_token t0 x)). apply IH.
    exact Hl.
Qed.

Section QueriedState.
Variable E : Env.
Hypothesis Hnf : no_fault E.

Lemma sessionFor_state (conversation : Conversation)
    (commandName : option jsstring) (s : State) :
  single_active s ->
  let old := activeSession (conv_id conversation) s in
  let rotate := needsNewSession old commandName in
  let id := uuid E (next_row s) in
  exists session s',
    sessionFor conversation commandName old E s = (Ok session, s')
    /\ trace s'
       = trace s ++ sessionEvents old rotate id (conv_id conversation)
    /\ resumeToken session = sessionToken old rotate
    /\ sess_id session = sessionUsed old rotate id
    /\ conversations s' = conversations s
    /\ activeSession (conv_id conversation) s' = Some session.
Proof using Hnf.
  intros Hs. cbv zeta.
  destruct (sessionFor_ok E Hnf conversation commandName
                          (activeSession (conv_id conversation) s) s)
    as (session & s' & Hrun & Ht & Htok & Hid).
  exists session, s'. split; [exact Hrun|]. split; [exact Ht|].
  split; [exact Htok|]. split; [exact Hid|].
  assert (Hnew : forall ss cb t s0,
             List.find (fun x => str_eqb (sess_conversation_id x)
                                         (conv_id conversation) && active x)
                       ss = None ->
             List.find (fun x => str_eqb (sess_conversation_id x)
                                         (conv_id conversation) && active x)
                       (ss ++ [newSession E (conv_id conversation) cb t s0])
             = Some (newSession E (conv_id conversation) cb t s0)).
  { intros ss cb t s0 Hnone. rewrite (find_app_none _ _ _ Hnone).
    cbn [List.find newSession sess_conversation_id active].
    now rewrite str_eqb_refl. }
  revert Hrun. clear Ht Htok Hid. unfold sessionFor.
  destruct (activeSession (conv_id conversation) s) as [x|] eqn:Hold.
  - destruct (commandIs (js "execute") commandName
              && lastCommandIs (js "plan-feature") (Some x)).
    + rewrite (bind_ok _ _ _ _ _ _ (deactivateSession_ok E Hnf _ _)).
      cbv beta. rewrite createSession_ok by exact Hnf.
      intros H. injection H as <- <-. split; [reflexivity|].
      unfold activeSession. cbn [sessions log set_sessions take_row bump].
      apply Hnew. apply active_count_zero_find.
      apply (active_count_deactivate_found _ x); [exact Hold|apply Hs].
    + intros H. injection H as <- <-. split; [reflexivity|exact Hold].
  - cbn [lastCommandIs]. rewrite andb_false_r.
    rewrite createSession_ok by exact Hnf.
    intros H. injection H as <- <-. split; [reflexivity|].
    unfold activeSession. cbn [sessions log set_sessions take_row bump].
    apply Hnew. exact Hold.
Qed.

Lemma aiConversation_state (platform : Platform) (cid : jsstring)
    (conversation : Conversation) (prompt : jsstring)
    (commandName : option jsstring) (s : State) :
  single_active s ->
  let old := activeSession (conv_id conversation) s in
  let rotate := needsNewSession old commandName in
  exists id cwd chunks s' x,
    let session_id := sessionUsed old rotate id in
    aiConversation platform cid conversation prompt commandName E s
    = (Ok tt, s')
    /\ trace s'
       = trace s
         ++ sessionEvents old rotate id (conv_id conversation)
         ++ EvQuery prompt cwd (sessionToken old rotate)
         :: deliveryEvents E (getStreamingMode platform) cid session_id
                           chunks
         ++ recordEvents session_id commandName
    /\ conversations s' = conversations s
    /\ activeSession (conv_id conversation) s' = Some x
    /\ sess_id x = session_id
    /\ (forall t, last (reportedTokens chunks) = Some t ->
                  assistant_session_id x = Some t)
    /\ (truthy_opt commandName = true ->
        metadata x !! js "lastCommand" = commandName).
Proof using Hnf.
  intros Hs old rotate. unfold aiConversation.
  rewrite (bind_ok _ _ _ _ _ _ (getAssistantClient_ok E Hnf _ _)); cbv beta.
  rewrite (bind_ok _ _ _ _ _ _ (getActiveSession_ok E Hnf _ _)); cbv beta.
  rewrite (bind_ok _ _ _ _ _ _ (getCodebase_ok E Hnf _ _)); cbv beta.
  cbv zeta.
  change (activeSession (conv_id conversation) (bump s)) with old.
  assert (Hs3 : single_active (bump (bump (bump s)))) by exact Hs.
  pose proof (sessionFor_state conversation commandName
                               (bump (bump (bump s))) Hs3) as Hfor.
  cbv zeta in Hfor.
  change (activeSession (conv_id conversation) (bump (bump (bump s))))
    with old in Hfor.
  fold rotate in Hfor.
  destruct Hfor as (session & s1 & Hrun1 & Ht1 & Htok & Hid & Hc1 & Hact1).
  cbn [next_row bump trace conversations] in Hid, Ht1, Hc1.
  rewrite (bind_ok _ _ _ _ _ _ Hrun1); cbv beta.
  match goal with
  | |- context [deliver platform cid conversation prompt ?cwd session] =>
      pose proof (deliver_state E Hnf platform cid conversation prompt cwd
                                session s1) as Hdel;
      set (dir := cwd) in *
  end.
  cbv zeta in Hdel.
  set (chunks := ai_stream E (tick s1) (conv_ai_assistant_type conversation)
                           prompt dir (resumeToken session)) in Hdel.
  destruct Hdel as (s2 & Hrun2 & Ht2 & Hc2 & Hss2).
  rewrite (bind_ok _ _ _ _ _ _ Hrun2); cbv beta.
  assert (Hrec : exists s',
             (if truthy_opt commandName
              then updateSessionMetadata (sess_id session)
                                         (or_else commandName [])
              else ret tt) E s2 = (Ok tt, s')
             /\ trace s'
                = trace s2 ++ recordEvents (sess_id session) commandName
             /\ conversations s' = conversations s2
             /\ sessions s'
                = recordCommand (sess_id session) commandName (sessions s2)).
  { unfold recordEvents, recordCommand. destruct (truthy_opt commandName).
    - rewrite updateSessionMetadata_ok by exact Hnf.
      eexists. repeat split.
    - eexists. split; [reflexivity|]. rewrite app_nil_r. repeat split. }
  destruct Hrec as (s3 & Hrun3 & Ht3 & Hc3 & Hss3).
  exists (uuid E (next_row s)), dir, chunks, s3,
    (withCommand (sess_id session) commandName
       (withTokens (sess_id session) (reportedTokens chunks) session)).
  cbv zeta. split; [exact Hrun3|]. split.
  { rewrite Ht3, Ht2, Ht1.
    rewrite <- Hid, <- Htok. rewrite <- !app_assoc. reflexivity. }
  split; [now rewrite Hc3, Hc2, Hc1|].
  split.
  { unfold activeSession in *. rewrite Hss3, find_recordCommand, Hss2,
      find_storeTokens, Hact1. reflexivity. }
  destruct (withTokens_id (sess_id session) (reportedTokens chunks) session)
    as [Hwid Hwmeta].
  split.
  { unfold withCommand. rewrite <- Hid.
    now destruct (truthy_opt commandName && _). }
  split.
  { intros t Hlast. unfold withCommand.
    pose proof (withTokens_last (reportedTokens chunks) session t Hlast)
      as Htoken.
    now destruct (truthy_opt commandName && _). }
  intros Hcn. unfold withCommand. rewrite Hcn, Hwid, str_eqb_refl.
  cbn [andb set_lastCommand metadata]. rewrite lookup_insert.
  destruct commandName as [n|]; [|discriminate].
  unfold or_else. cbn [truthy_opt] in Hcn. now rewrite Hcn.
Qed.
End QueriedState.

Section QueriedRun.
Variable E : Env.
Hypothesis Hnf : no_fault E.

Lemma resolvePrompt_some_conversations (cid text : jsstring)
    (ctx : option jsstring) (conversation : Conversation) (s s' : State)
    (resolved : jsstring * option jsstring) :
  resolvePrompt cid text ctx conversation E s = (Ok (Some resolved), s') ->
  conversations s' = conversations s.
Proof using Hnf.
  unfold resolvePrompt.
  destruct (startsWith (js "/command-invoke") text).
  - destruct (args (parseCommand text)) as [|name rest].
    { rewrite (bind_ok _ _ _ _ _ _ (sendMessage_ok E Hnf _ _ _)).
      discriminate. }
    destruct (truthy_opt (conv_codebase_id conversation)); cbn [negb].
    2:{ rewrite (bind_ok _ _ _ _ _ _ (sendMessage_ok E Hnf _ _ _)).
        discriminate. }
    rewrite (bind_ok _ _ _ _ _ _ (getCodebase_ok E Hnf _ _)).
    destruct (List.find _ (codebases s)) as [codebase|].
    2:{ rewrite (bind_ok _ _ _ _ _ _ (sendMessage_ok E Hnf _ _ _)).
        discriminate. }
    destruct (assoc name (commands codebase)) as [def|].
    2:{ destruct (existsb (str_eqb name) inherited_keys);
          [unfold throw; discriminate|].
        rewrite (bind_ok _ _ _ _ _ _ (sendMessage_ok E Hnf _ _ _)).
        discriminate. }
    unfold bind at 1, ask. cbv zeta. unfold tryCatch.
    rewrite (bind_ok _ _ _ _ _ _ (readFile_ok E Hnf _ _)).
    unfold ret. intros H. injection H as _ <-. reflexivity.
  - destruct (truthy_opt (conv_codebase_id conversation)); cbn [negb].
    + unfold ret. intros H. injection H as _ <-. reflexivity.
    + rewrite (bind_ok _ _ _ _ _ _ (sendMessage_ok E Hnf _ _ _)).
      discriminate.
Qed.

(** The store and the events of a run that queries the backend. *)
Lemma handleMessage_queried_state (platform : Platform)
    (cid text : jsstring) (ctx : option jsstring) (s : State) :
  single_active s ->
  let s' := snd (handleMessage platform cid text ctx E s) in
  after_query (new_events s s') <> None ->
  exists conversation id prompt cwd chunks x,
    let old := activeSession (conv_id conversation) s in
    let cn := commandNameOf (normalizeCommand E text) in
    let rotate := needsNewSession old cn in
    let session_id := sessionUsed old rotate id in
    findConversation (getPlatformType platform) cid s = Some conversation
    /\ new_events s s'
       = sessionEvents old rotate id (conv_id conversation)
         ++ EvQuery prompt cwd (sessionToken old rotate)
         :: deliveryEvents E (getStreamingMode platform) cid session_id
                           chunks
         ++ recordEvents session_id cn
    /\ conversations s' = conversations s
    /\ activeSession (conv_id conversation) s' = Some x
    /\ sess_id x = session_id
    /\ (forall t, last (reportedTokens chunks) = Some t ->
                  assistant_session_id x = Some t)
    /\ (truthy_opt cn = true -> metadata x !! js "lastCommand" = cn).
Proof using Hnf.
  intros Hs. cbv zeta. intros Hq.
  destruct (handleMessage_queried E Hnf platform cid text ctx s Hq)
    as (conversation & Hfind & Hlinked & _ & _).
  revert Hq.
  remember (handleMessage platform cid text ctx E s) as r eqn:Hr.
  unfold handleMessage, handleMessageBody, tryCatch in Hr.
  unfold bind at 1, ask in Hr.
  rewrite (bind_ok _ _ _ _ _ _
             (getOrCreateConversation_found E _ _ s conversation
                (Hnf _ _) Hfind)) in Hr.
  cbv beta zeta in Hr.
  set (msg := normalizeCommand E text) in *.
  destruct (startsWith (js "/") msg
            && negb (startsWith (js "/command-invoke") msg)).
  - intros Hq. exfalso. apply Hq.
    pose proof (quiet_command_branch E platform cid msg conversation (bump s))
      as [_ (evs & Hevs & Hquiet)].
    unfold tryCatch in Hevs. rewrite <- Hr in Hevs.
    cbn [trace bump] in Hevs. rewrite (new_events_app _ _ _ Hevs).
    now apply after_query_quiet.
  - pose proof (quiet_resolvePrompt E cid msg ctx conversation (bump s))
      as [_ (evs1 & Hevs1 & Hquiet1)].
    destruct (resolvePrompt cid msg ctx conversation E (bump s))
      as [[[[prompt cn]|]|e] s2] eqn:Hres; cbn [snd] in Hevs1.
    + rewrite (bind_ok _ _ _ _ _ _ Hres) in Hr. cbv beta iota in Hr.
      pose proof (resolvePrompt_some_conversations _ _ _ _ _ _ _ Hres) as Hc2.
      destruct (resolvePrompt_some E Hnf _ _ _ _ _ _ _ _ Hres)
        as (Ht2 & Hs2 & -> & _).
      assert (Hsa : single_active s2)
        by (intros c; rewrite Hs2; apply Hs).
      destruct (aiConversation_state E Hnf platform cid conversation prompt
                                     (commandNameOf msg) s2 Hsa)
        as (id & cwd & chunks & s3 & x & Hrun3 & Ht3 & Hc3 & Hact & Hx).
      assert (Hold : activeSession (conv_id conversation) s2
                     = activeSession (conv_id conversation) s)
        by (unfold activeSession; now rewrite Hs2).
      rewrite Hold in *.
      rewrite Hrun3 in Hr. subst r. cbn [fst snd]. intros _.
      exists conversation, id, prompt, cwd, chunks, x.
      split; [exact Hfind|]. split.
      { apply new_events_app. rewrite Ht3, Ht2. reflexivity. }
      split; [now rewrite Hc3, Hc2|]. split; [exact Hact|exact Hx].
    + rewrite (bind_ok _ _ _ _ _ _ Hres) in Hr. cbv beta iota in Hr.
      unfold ret in Hr. subst r. cbn [fst snd].
      intros Hq. exfalso. apply Hq.
      cbn [trace bump] in Hevs1. rewrite (new_events_app _ _ _ Hevs1).
      now apply after_query_quiet.
    + rewrite (bind_throw _ _ _ _ _ _ Hres) in Hr.
      rewrite sendMessage_ok in Hr by exact Hnf. subst r. cbn [fst snd].
      intros Hq. exfalso. apply Hq.
      rewrite (new_events_app s _ (evs1 ++ [EvSend cid errorNotice])).
      * apply after_query_quiet. apply Forall_app.
        split; [exact Hquiet1|]. repeat constructor.
      * cbn [trace log bump] in *. rewrite Hevs1, <- app_assoc.
        reflexivity.
Qed.
End QueriedRun.




(** X20: planning, then executing, over two messages.  When a message
    invokes [plan-feature] and its run queries the backend, the session of
    that run records the command; when the next message of the conversation
    invokes [execute] and queries the backend, that session is deactivated,
    a new one is created, and the query carries no resume token. *)
Theorem plan_then_execute_rotates (E : Env) (platform : Platform)
    (conversationId text1 text2 : jsstring)
    (context1 context2 : option jsstring) (s : State) :
  no_fault E -> single_active s ->
  let s1 := snd (handleMessage platform conversationId text1 context1 E s) in
  let s2 := snd (handleMessage platform conversationId text2 context2 E s1) in
  invokes (js "plan-feature") (normalizeCommand E text1) = true ->
  after_query (new_events s s1) <> None ->
  invokes (js "execute") (normalizeCommand E text2) = true ->
  after_query (new_events s1 s2) <> None ->
  exists conversation planned created prompt cwd rest,
    findConversation (getPlatformType platform) conversationId s
    = Some conversation
    /\ In (EvUpdateSessionMetadata planned (js "plan-feature"))
          (new_events s s1)
    /\ new_events s1 s2
       = EvDeactivateSession planned
         :: EvCreateSession created (conv_id conversation)
         :: EvQuery prompt cwd None :: rest.
Proof.
  intros Hnf Hs s1 s2 Hplan Hq1 Hexec Hq2.
  destruct (handleMessage_queried_state E Hnf platform conversationId text1
              context1 s Hs Hq1)
    as (conversation & id & prompt1 & cwd1 & chunks & x & H).
  cbv zeta in H.
  destruct H as (Hfind & Hev & Hconv & Hact & Hid & _ & Hmeta).
  fold s1 in Hev, Hconv, Hact.
  assert (Hcn : commandNameOf (normalizeCommand E text1)
                = Some (js "plan-feature")).
  { pose proof (commandIs_commandNameOf (js "plan-feature")
                  (normalizeCommand E text1)) as Hc.
    rewrite Hplan in Hc. unfold commandIs in Hc.
    destruct (commandNameOf _) as [n|]; [|discriminate].
    destruct (str_eqb_spec n (js "plan-feature")); congruence. }
  rewrite Hcn in Hev, Hmeta, Hid.
  specialize (Hmeta eq_refl).
  destruct (handleMessage_queried E Hnf platform conversationId text2
              context2 s1 Hq2)
    as (conversation2 & Hfind2 & _ & _ & Hai).
  fold s2 in Hai.
  assert (conversation2 = conversation).
  { unfold findConversation in Hfind, Hfind2. rewrite Hconv in Hfind2.
    congruence. }
  subst conversation2. rewrite Hact in Hai.
  destruct Hai as (id2 & prompt & cwd & chunks2 & Hev2). cbv zeta in Hev2.
  unfold needsNewSession in Hev2.
  rewrite commandIs_commandNameOf, Hexec in Hev2.
  unfold lastCommandIs in Hev2. rewrite Hmeta in Hev2.
  cbn [andb str_eqb] in Hev2.
  change (str_eqb (js "plan-feature") (js "plan-feature")) with true in Hev2.
  cbn [sessionEvents sessionToken app] in Hev2.
  exists conversation, (sess_id x), id2, prompt, cwd. eexists.
  split; [exact Hfind|]. split; [|exact Hev2].
  rewrite Hev, Hid. apply in_or_app. right. right.
  apply in_or_app. right. left. reflexivity.
Qed.

Lemma single_active_linkedState : single_active linkedState.
Proof. intros cid. cbn. lia. Qed.


Lemma plan_then_execute_rotates_witness :
  let s1 := snd (handleMessage telegramStream (js "chat-1")
                   (js "/command-invoke plan-feature add a login page") None
                   answeringEnv linkedState) in
  let s2 := snd (handleMessage telegramStream (js "chat-1")
                   (js "/command-invoke execute") None answeringEnv s1) in
  exists conversation planned created prompt cwd rest,
    findConversation (getPlatformType telegramStream) (js "chat-1")
                     linkedState
    = Some conversation
    /\ In (EvUpdateSessionMetadata planned (js "plan-feature"))
          (new_events linkedState s1)
    /\ new_events s1 s2
       = EvDeactivateSession planned
         :: EvCreateSession created (conv_id conversation)
         :: EvQuery prompt cwd None :: rest.
Proof.
  apply (plan_then_execute_rotates answeringEnv telegramStream (js "chat-1")
           (js "/command-invoke plan-feature add a login page")
           (js "/command-invoke execute") None None linkedState).
  - intros op n. reflexivity.
  - exact single_active_linkedState.
  - reflexivity.
  - vm_compute. discriminate.
  - reflexivity.
  - vm_compute. discriminate.
Defined.

(** ** What a run leaves as it was *)

Section Frames.
Context {X : Type} (obs : State -> X) (E : Env).
Hypothesis obs_bump : forall s, obs (bump s) = obs s.

Lemma frames_ret {A} (a : A) : frames obs E (ret a).
Proof. intros s. reflexivity. Qed.

Lemma frames_throw {A} (e : jsstring) : frames obs E (@throw A e).
Proof. intros s. reflexivity. Qed.

Lemma frames_ask : frames obs E ask.
Proof. intros s. reflexivity. Qed.

Lemma frames_get : frames obs E get.
Proof. intros s. reflexivity. Qed.

Lemma frames_bind {A B} (m : M A) (k : A -> M B) :
  frames obs E m -> (forall a, frames obs E (k a)) ->
  frames obs E (bind m k).
Proof.
  intros Hm Hk s. unfold bind. specialize (Hm s).
  destruct (m E s) as [[a|e] s1]; simpl in *; [|exact Hm].
  rewrite <- Hm. apply Hk.
Qed.

Lemma frames_tryCatch {A} (m : M A) (h : jsstring -> M A) :
  frames obs E m -> (forall e, frames obs E (h e)) ->
  frames obs E (tryCatch m h).
Proof.
  intros Hm Hh s. unfold tryCatch. specialize (Hm s).
  destruct (m E s) as [[a|e] s1]; simpl in *; [exact Hm|].
  rewrite <- Hm. apply Hh.
Qed.

Lemma frames_call (op : Op) : frames obs E (call op).
Proof using obs_bump.
  intros s. unfold call. destruct (fault E op (tick s)); apply obs_bump.
Qed.

Lemma frames_modify (f : State -> State) :
  (forall s, obs (f s) = obs s) -> frames obs E (modify f).
Proof. intros Hf s. apply Hf. Qed.

Lemma frames_run {A} (m : M A) (s s' : State) (r : Res A) :
  frames obs E m -> m E s = (r, s') -> obs s' = obs s.
Proof. intros Hm Hr. specialize (Hm s). now rewrite Hr in Hm. Qed.
End Frames.

Create HintDb frames_db discriminated.

Ltac frames_step :=
  match goal with
  | |- frames _ _ (bind _ _) => apply frames_bind; [|intros ?]
  | |- frames _ _ (tryCatch _ _) => apply frames_tryCatch; [|intros ?]
  | |- frames _ _ (ret _) => apply frames_ret
  | |- frames _ _ (throw _) => apply frames_throw
  | |- frames _ _ ask => apply frames_ask
  | |- frames _ _ get => apply frames_get
  | |- frames _ _ (call _) =>
      apply frames_call; first [assumption|intros ?; reflexivity]
  | |- frames _ _ (emit _) => apply frames_modify; intros ?; reflexivity
  | |- frames _ _ (modify _) => apply frames_modify; intros ?; reflexivity
  | |- frames _ _ (if ?b then _ else _) => destruct b
  | |- frames _ _ (match ?x with _ => _ end) => destruct x
  | |- frames _ _ _ => solve [auto with frames_db]
  end.

Ltac frames_walk := repeat (cbv zeta; frames_step).

Section FramesScan.
Context {X : Type} (obs : State -> X) (E : Env).
Hypothesis obs_bump : forall s, obs (bump s) = obs s.

Lemma frames_scanEntry (entry : Dirent) (root rel : jsstring) :
  frames obs E (scanEntry root rel entry).
Proof using obs_bump.
  revert root rel.
  induction entry as [name|name sub IHsub|name] using Dirent_nested_ind;
    intros root rel; simpl; frames_walk.
  induction IHsub as [|e l He _ IHl]; frames_walk.
Qed.

Lemma frames_scanAll (l : list Dirent) (root rel : jsstring) :
  frames obs E (scanAll root rel l).
Proof using obs_bump.
  induction l as [|e l IHl]; simpl; frames_walk.
  apply frames_scanEntry.
Qed.

Lemma frames_findMarkdownFilesRecursive (root : jsstring) :
  frames obs E (findMarkdownFilesRecursive root).
Proof using obs_bump.
  unfold findMarkdownFilesRecursive, readdir. frames_walk.
  apply frames_scanAll.
Qed.
End FramesScan.

(** ** Loading commands *)

Lemma scanEntry_dir (root rel name : jsstring) (sub : list Dirent)
    (E : Env) (s : State) :
  scanEntry root rel (DirEntry name sub) E s
  = if startsWith (js ".") name || str_eqb name (js "node_modules")
    then (Ok [], s)
    else (let* _ := call OpReaddir in
          scanAll root (path_join E rel name) sub) E s.
Proof.
  cbn [scanEntry dirent_name]. unfold bind at 1, ask.
  destruct (_ || _); [reflexivity|].
  apply bind_ext. intros _ s'. clear s. revert s'.
  induction sub as [|e l IH]; intros s'; [reflexivity|].
  cbn [scanAll]. apply bind_ext. intros found s1.
  unfold bind. now rewrite IH.
Qed.

Lemma scanEntry_hidden (root rel : jsstring) (entry : Dirent) (E : Env)
    (s : State) :
  visible entry = false -> scanEntry root rel entry E s = (Ok [], s).
Proof.
  unfold visible. intros H. apply negb_false_iff in H.
  destruct entry; cbn [scanEntry]; unfold bind at 1, ask; now rewrite H.
Qed.

Lemma bind_ret_r {A} (m : M A) (E : Env) (s : State) :
  bind m (fun a => ret a) E s = m E s.
Proof. unfold bind, ret. now destruct (m E s) as [[a|e] s']. Qed.

Lemma scanAll_pruned (l : list Dirent) :
  Forall (fun e => forall root rel E s,
            scanEntry root rel (pruneEntry e) E s = scanEntry root rel e E s)
         l ->
  forall root rel E s,
    scanAll root rel (prune l) E s = scanAll root rel l E s.
Proof.
  induction 1 as [|e l He _ IH]; intros root rel E s; [reflexivity|].
  cbn [prune scanAll]. destruct (visible e) eqn:Hv.
  - cbn [scanAll]. unfold bind at 1 3. rewrite He.
    destruct (scanEntry root rel e E s) as [[found|err] s1]; [|reflexivity].
    unfold bind. now rewrite IH.
  - unfold bind at 1. rewrite (scanEntry_hidden _ _ _ _ _ Hv).
    cbn [app]. rewrite IH. symmetry. apply bind_ret_r.
Qed.

Lemma scanEntry_pruned (entry : Dirent) (root rel : jsstring) (E : Env)
    (s : State) :
  scanEntry root rel (pruneEntry entry) E s = scanEntry root rel entry E s.
Proof.
  revert root rel E s.
  induction entry as [name|name sub IHsub|name] using Dirent_nested_ind;
    intros root rel E s; try reflexivity.
  cbn [pruneEntry]. fold (prune sub). rewrite !scanEntry_dir.
  destruct (_ || _); [reflexivity|].
  apply bind_ext. intros _ s'. now apply scanAll_pruned.
Qed.

(** X21: hidden entries and [node_modules] do not count, at any depth:
    the loop of [findMarkdownFilesRecursive] finds the same files, with the
    same calls, for a directory and for the directory without its entries
    whose name begins with a dot or is [node_modules], and without those
    of its subdirectories. *)
Theorem hidden_entries_are_skipped (rootPath relativePath : jsstring)
    (entries : list Dirent) (E : Env) (s : State) :
  scanAll rootPath relativePath (prune entries) E s
  = scanAll rootPath relativePath entries E s.
Proof.
  apply scanAll_pruned. clear.
  induction entries as [|e l IH]; constructor; [|exact IH].
  intros root rel E s. apply scanEntry_pruned.
Qed.

Lemma bind_throw_inv {A B} (m : M A) (k : A -> M B) (E : Env)
    (s s' : State) (e : jsstring) :
  bind m k E s = (Throw e, s') ->
  m E s = (Throw e, s')
  \/ exists a s1, m E s = (Ok a, s1) /\ k a E s1 = (Throw e, s').
Proof.
  unfold bind. destruct (m E s) as [[a|e0] s1]; intros H.
  - right. eauto.
  - left. injection H as -> ->. reflexivity.
Qed.

(** X22: a [/load-commands] that does not succeed registers nothing:
    whatever failed (reading a directory, the store), and also when no
    file was found, the table of codebases is as it was. *)
Theorem failed_load_commands_registers_nothing (E : Env)
    (conversation : Conversation) (text : jsstring) (s s' : State)
    (result : CommandResult) :
  command (parseCommand text) = js "load-commands" ->
  handleCommand conversation text E s = (Ok result, s') ->
  success result = false ->
  codebases s' = codebases s.
Proof.
  intros Hc Hrun Hfail. unfold handleCommand in Hrun. cbv zeta in Hrun.
  rewrite Hc in Hrun. literals_in Hrun. unfold case_load_commands in Hrun.
  destruct (args (parseCommand text)) as [|folder rest].
  { now injection Hrun as _ <-. }
  destruct (negb _).
  { now injection Hrun as _ <-. }
  unfold bind at 1, ask in Hrun. cbv zeta in Hrun.
  unfold tryCatch in Hrun.
  match type of Hrun with
  | context [findMarkdownFilesRecursive ?p] => set (fullPath := p) in *
  end.
  assert (Hscan : forall r s0,
             findMarkdownFilesRecursive fullPath E s = (r, s0) ->
             codebases s0 = codebases s).
  { intros r s0. apply frames_run.
    apply frames_findMarkdownFilesRecursive. reflexivity. }
  match type of Hrun with
  | context [bind ?m ?k E s] =>
      destruct (bind m k E s) as [[r|e] s1] eqn:Hm
  end.
  - injection Hrun as -> ->.
    apply bind_inv in Hm as (files & s0 & Hfiles & Hm).
    rewrite <- (Hscan _ _ Hfiles).
    destruct files as [|f files].
    + now injection Hm as _ <-.
    + apply bind_inv in Hm as (cmds & s2 & _ & Hm).
      apply bind_inv in Hm as ([] & s3 & _ & Hm).
      injection Hm as <- _. discriminate Hfail.
  - injection Hrun as _ <-.
    apply bind_throw_inv in Hm as [Hm|(files & s0 & Hfiles & Hm)].
    + exact (Hscan _ _ Hm).
    + rewrite <- (Hscan _ _ Hfiles).
      destruct files as [|f files]; [discriminate Hm|].
      apply bind_throw_inv in Hm as [Hm|(cmds & s2 & Hcmds & Hm)].
      * rewrite getCodebaseCommands_run in Hm.
        destruct (fault E OpGetCodebaseCommands _); [|discriminate].
        now injection Hm as _ <-.
      * rewrite getCodebaseCommands_run in Hcmds.
        destruct (fault E OpGetCodebaseCommands _); [discriminate|].
        injection Hcmds as _ <-.
        apply bind_throw_inv in Hm as [Hm|(u & s3 & _ & Hm)];
          [|discriminate Hm].
        rewrite updateCodebaseCommands_run in Hm.
        destruct (fault E OpUpdateCodebaseCommands _); [|discriminate].
        now injection Hm as _ <-.
Qed.

Lemma failed_load_commands_registers_nothing_witness :
  codebases
    (snd (handleCommand scenarioConversation (js "/load-commands .claude")
            (scenarioEnv (fun _ => true) []) linkedState))
  = codebases linkedState.
Proof.
  eapply (failed_load_commands_registers_nothing
            (scenarioEnv (fun _ => true) []) scenarioConversation
            (js "/load-commands .claude") linkedState).
  - reflexivity.
  - vm_compute. reflexivity.
  - reflexivity.
Defined.

Lemma find_app_some {A} (p : A -> bool) (l1 l2 : list A) (x : A) :
  List.find p l1 = Some x -> List.find p (l1 ++ l2) = Some x.
Proof.
  induction l1 as [|a l1 IH]; [discriminate|]. cbn [app List.find].
  destruct (p a); [auto|exact IH].
Qed.

Lemma assigned_assign {V} (name k : jsstring) (v w : V)
    (entries : list (jsstring * V)) :
  assigned name v (assign k w entries) = assigned name v entries.
Proof.
  unfold assigned.
  destruct (str_eqb name (js "__proto__")) eqn:Hname; [|reflexivity].
  destruct (str_eqb_spec k name) as [->|Hk].
  - rewrite assoc_assign_same. unfold assigned. rewrite Hname.
    now destruct (assoc name entries).
  - rewrite assoc_assign_other by congruence. reflexivity.
Qed.

Lemma assoc_loaded (E : Env) (folderPath name : jsstring)
    (files : list MdFile) (cmds : list (jsstring * CommandDef)) :
  assoc name
    (fold_left (fun acc f => assign (commandName f)
                               (loadedCommand E folderPath f) acc)
               files cmds)
  = match List.find (fun f => str_eqb (commandName f) name) (rev files) with
    | Some f => assigned name (loadedCommand E folderPath f) cmds
    | None => assoc name cmds
    end.
Proof.
  revert cmds. induction files as [|f files IH]; intros cmds; [reflexivity|].
  cbn [fold_left rev]. rewrite IH.
  destruct (List.find _ (rev files)) as [g|] eqn:Hg.
  - rewrite (find_app_some _ _ [f] _ Hg). apply assigned_assign.
  - rewrite (find_app_none _ _ [f] Hg). cbn [List.find].
    destruct (str_eqb_spec (commandName f) name) as [<-|Hn].
    + apply assoc_assign_same.
    + apply assoc_assign_other. congruence.
Qed.

(** X23: what a successful [/load-commands] registers.  The answer counts
    the files found, and afterwards every name among them stands for the
    last file found with that name (later files override earlier ones);
    the commands of other names are as they were.  A file [__proto__.md] is
    the exception: it is counted, but nothing is stored under its name,
    unless the commands already held an entry of that name. *)
Theorem load_commands_later_files_override (E : Env)
    (conversation : Conversation) (text : jsstring) (s s0 : State)
    (id : jsstring) (codebase : Codebase) (files : list MdFile) :
  no_fault E ->
  command (parseCommand text) = js "load-commands" ->
  args (parseCommand text) <> [] ->
  conv_codebase_id conversation = Some id -> truthy id = true ->
  List.find (id_is (Some id)) (codebases s) = Some codebase ->
  let folderPath := join_with (js " ") (args (parseCommand text)) in
  findMarkdownFilesRecursive
    (path_join E (or_else (conv_cwd conversation) (js "/workspace"))
               folderPath) E s
  = (Ok files, s0) ->
  files <> [] ->
  exists s' codebase',
    handleCommand conversation text E s
    = (Ok (answer true
             (js "Loaded " ++ decimal (length files)
              ++ js " commands recursively: "
              ++ join_with (js ", ") (map commandName files))), s')
    /\ List.find (id_is (Some id)) (codebases s') = Some codebase'
    /\ forall name,
         assoc name (commands codebase')
         = match List.find (fun f => str_eqb (commandName f) name)
                           (rev files) with
           | Some f =>
               assigned name (loadedCommand E folderPath f)
                        (commands codebase)
           | None => assoc name (commands codebase)
           end.
Proof.
  intros Hnf Hc Hargs Hid Htruthy Hfind folderPath Hscan Hfiles.
  assert (Hcb0 : codebases s0 = codebases s).
  { revert Hscan. apply frames_run.
    apply frames_findMarkdownFilesRecursive. reflexivity. }
  unfold handleCommand. cbv zeta. rewrite Hc. literals.
  unfold case_load_commands.
  destruct (args (parseCommand text)) as [|folder rest] eqn:Hargs';
    [congruence|].
  rewrite Hid. cbn [truthy_opt]. rewrite Htruthy. cbn [negb].
  unfold bind at 1, ask. cbv zeta. unfold tryCatch.
  fold folderPath. rewrite (bind_ok _ _ _ _ _ _ Hscan).
  destruct files as [|f files']; [congruence|].
  set (files := f :: files') in *.
  assert (Hor : or_else (Some id) [] = id)
    by (unfold or_else; now rewrite Htruthy).
  rewrite !Hor.
  rewrite (bind_ok _ _ _ _ _ _
             (eq_trans (getCodebaseCommands_run E id s0)
                ltac:(now rewrite (Hnf _ _)))).
  rewrite Hcb0, Hfind.
  rewrite (bind_ok _ _ _ _ _ _
             (eq_trans (updateCodebaseCommands_run E id _ _)
                ltac:(now rewrite (Hnf _ _)))).
  eexists _, _. split; [reflexivity|].
  cbn [codebases set_codebases bump]. rewrite Hcb0, find_commands_updated.
  rewrite Hfind. cbn [option_map]. split; [reflexivity|].
  intros name. cbn [commands set_commands].
  apply (assoc_loaded E folderPath name files (commands codebase)).
Qed.

Lemma load_commands_later_files_override_witness :
  exists s' codebase',
    List.find (id_is (Some (js "cb-1"))) (codebases s') = Some codebase'
    /\ option_map cmd_path (assoc (js "plan") (commands codebase'))
       = Some (js ".claude/commands/team/plan.md")
    /\ assoc (js "execute") (commands codebase')
       = assoc (js "execute") (commands scenarioCodebase).
Proof.
  pose (scan := findMarkdownFilesRecursive
                  (js "/workspace/app/.claude/commands") folderEnv
                  linkedState).
  destruct (load_commands_later_files_override folderEnv
              scenarioConversation (js "/load-commands .claude/commands")
              linkedState (snd scan) (js "cb-1") scenarioCodebase
              (match fst scan with Ok files => files | Throw _ => [] end))
    as (s' & codebase' & _ & Hfind & Hassoc).
  - intros op n. reflexivity.
  - reflexivity.
  - discriminate.
  - reflexivity.
  - reflexivity.
  - reflexivity.
  - vm_compute. reflexivity.
  - discriminate.
  - exists s', codebase'. split; [exact Hfind|].
    rewrite !Hassoc. split; reflexivity.
Defined.

(** ** The prompt and the directory of the query *)

Lemma sessionEvents_silent (old : option Session) (rotate : bool)
    (id cid : jsstring) :
  Forall silent_event (sessionEvents old rotate id cid).
Proof.
  unfold sessionEvents. destruct rotate, old; repeat constructor.
Qed.

Lemma startsWith_prefix (p q s : jsstring) :
  startsWith p s = false -> startsWith (p ++ q) s = false.
Proof.
  revert s. induction p as [|x p IH]; intros [|y s]; simpl;
    try discriminate; auto.
  destruct (x =? y); simpl; auto.
Qed.

Section Prompt.
Variable E : Env.
Hypothesis Hnf : no_fault E.

Lemma aiConversation_query (platform : Platform) (cid : jsstring)
    (conversation : Conversation) (prompt : jsstring)
    (commandName : option jsstring) (s : State) :
  let codebase :=
    List.find (id_is (conv_codebase_id conversation)) (codebases s) in
  exists before token after s',
    aiConversation platform cid conversation prompt commandName E s
    = (Ok tt, s')
    /\ trace s'
       = trace s
         ++ before
         ++ EvQuery prompt (queryDirectory conversation codebase) token
         :: after
    /\ Forall silent_event before.
Proof using Hnf.
  cbv zeta. unfold aiConversation.
  rewrite (bind_ok _ _ _ _ _ _ (getAssistantClient_ok E Hnf _ _)); cbv beta.
  rewrite (bind_ok _ _ _ _ _ _ (getActiveSession_ok E Hnf _ _)); cbv beta.
  rewrite (bind_ok _ _ _ _ _ _ (getCodebase_ok E Hnf _ _)); cbv beta.
  cbv zeta. cbn [codebases bump].
  fold (queryDirectory conversation
          (List.find (id_is (conv_codebase_id conversation)) (codebases s))).
  set (dir := queryDirectory _ _).
  destruct (sessionFor_ok E Hnf conversation commandName
              (activeSession (conv_id conversation) (bump s))
              (bump (bump (bump s))))
    as (session & s1 & Hrun1 & Ht1 & _ & _).
  rewrite (bind_ok _ _ _ _ _ _ Hrun1); cbv beta.
  destruct (deliver_state E Hnf platform cid conversation prompt dir
                          session s1) as (s2 & Hrun2 & Ht2 & _ & _).
  rewrite (bind_ok _ _ _ _ _ _ Hrun2); cbv beta.
  cbn [trace bump] in Ht1.
  exists (sessionEvents (activeSession (conv_id conversation) (bump s))
            (needsNewSession (activeSession (conv_id conversation) (bump s))
                             commandName)
            (uuid E (next_row (bump (bump (bump s)))))
            (conv_id conversation)),
    (resumeToken session),
    (deliveryEvents E (getStreamingMode platform) cid (sess_id session)
       (ai_stream E (tick s1) (conv_ai_assistant_type conversation) prompt
                  dir (resumeToken session))
     ++ recordEvents (sess_id session) commandName).
  unfold recordEvents. destruct (truthy_opt commandName).
  - rewrite updateSessionMetadata_ok by exact Hnf.
    eexists. split; [reflexivity|]. split; [|apply sessionEvents_silent].
    cbn [trace log bump set_sessions]. rewrite Ht2, Ht1.
    rewrite <- !app_assoc. reflexivity.
  - eexists. split; [reflexivity|]. split; [|apply sessionEvents_silent].
    rewrite Ht2, Ht1, app_nil_r. rewrite <- !app_assoc. reflexivity.
Qed.

Lemma handleMessage_resolved (platform : Platform) (cid text : jsstring)
    (ctx : option jsstring) (s s2 : State) (conversation : Conversation)
    (prompt : jsstring) (commandName : option jsstring) :
  findConversation (getPlatformType platform) cid s = Some conversation ->
  startsWith (js "/") (normalizeCommand E text)
  && negb (startsWith (js "/command-invoke") (normalizeCommand E text))
  = false ->
  resolvePrompt cid (normalizeCommand E text) ctx conversation E (bump s)
  = (Ok (Some (prompt, commandName)), s2) ->
  trace s2 = trace s ->
  codebases s2 = codebases s ->
  let codebase :=
    List.find (id_is (conv_codebase_id conversation)) (codebases s) in
  exists before token after,
    new_events s (snd (handleMessage platform cid text ctx E s))
    = before
      ++ EvQuery prompt (queryDirectory conversation codebase) token
      :: after
    /\ Forall silent_event before.
Proof using Hnf.
  intros Hfind Hcond Hres Ht2 Hcb2. cbv zeta.
  destruct (aiConversation_query platform cid conversation prompt
              commandName s2)
    as (before & token & after & s3 & Hrun3 & Ht3 & Hsilent).
  exists before, token, after. split; [|exact Hsilent].
  unfold handleMessage, handleMessageBody, tryCatch.
  unfold bind at 1, ask.
  rewrite (bind_ok _ _ _ _ _ _
             (getOrCreateConversation_found E _ _ s conversation
                (Hnf _ _) Hfind)).
  cbv beta zeta. rewrite Hcond.
  rewrite (bind_ok _ _ _ _ _ _ Hres). cbv beta iota.
  rewrite Hrun3. cbn [snd].
  apply new_events_app. rewrite Ht3, Ht2, Hcb2. reflexivity.
Qed.
Lemma resolvePrompt_invocation (cid text : jsstring)
    (ctx : option jsstring) (conversation : Conversation)
    (codebase : Codebase) (name : jsstring) (arguments : list jsstring)
    (commandDef : CommandDef) (s : State) :
  startsWith (js "/command-invoke") text = true ->
  args (parseCommand text) = name :: arguments ->
  truthy_opt (conv_codebase_id conversation) = true ->
  List.find (id_is (conv_codebase_id conversation)) (codebases s)
  = Some codebase ->
  assoc name (commands codebase) = Some commandDef ->
  let commandFilePath :=
    path_join E (or_else (conv_cwd conversation) (default_cwd codebase))
              (cmd_path commandDef) in
  resolvePrompt cid text ctx conversation E s
  = (Ok (Some (invocationPrompt E (file_text E (S (tick s)) commandFilePath)
                                arguments ctx, Some name)),
     bump (bump s)).
Proof using Hnf.
  intros Hinvoke Hargs Hlinked Hcb Hdef. cbv zeta.
  unfold resolvePrompt. rewrite Hinvoke, Hargs, Hlinked. cbn [negb].
  rewrite (bind_ok _ _ _ _ _ _ (getCodebase_ok E Hnf _ _)).
  rewrite Hcb, Hdef.
  unfold bind at 1, ask. cbv zeta. unfold tryCatch.
  rewrite (bind_ok _ _ _ _ _ _ (readFile_ok E Hnf _ _)).
  unfold ret, invocationPrompt. cbn [tick bump].
  destruct (truthy_opt ctx); [reflexivity|].
  now rewrite app_nil_r.
Qed.
End Prompt.

(** X24: what a command invocation asks the backend.  When no collaborator
    fails, [/command-invoke name args...] in a conversation whose codebase
    has the command queries the backend once the command file is read: the
    file is looked up under the directory of the conversation or, failing
    that, the default directory of the codebase; the prompt is the text of
    the file with the arguments after the name substituted, followed by the
    separator and the issue context when one is given; the directory of the
    query falls back to [/workspace] when both directories are empty. *)
Theorem invocation_prompt (E : Env) (platform : Platform)
    (conversationId text : jsstring) (issueContext : option jsstring)
    (s : State) (conversation : Conversation) (codebase : Codebase)
    (name : jsstring) (arguments : list jsstring) (commandDef : CommandDef) :
  no_fault E ->
  findConversation (getPlatformType platform) conversationId s
  = Some conversation ->
  startsWith (js "/command-invoke") (normalizeCommand E text) = true ->
  args (parseCommand (normalizeCommand E text)) = name :: arguments ->
  truthy_opt (conv_codebase_id conversation) = true ->
  List.find (id_is (conv_codebase_id conversation)) (codebases s)
  = Some codebase ->
  assoc name (commands codebase) = Some commandDef ->
  let commandFilePath :=
    path_join E (or_else (conv_cwd conversation) (default_cwd codebase))
              (cmd_path commandDef) in
  let commandText := file_text E (S (S (tick s))) commandFilePath in
  exists before token after,
    new_events s
      (snd (handleMessage platform conversationId text issueContext E s))
    = before
      ++ EvQuery (invocationPrompt E commandText arguments issueContext)
                 (queryDirectory conversation (Some codebase)) token
      :: after
    /\ Forall silent_event before.
Proof.
  intros Hnf Hfind Hinvoke Hargs Hlinked Hcb Hdef. cbv zeta.
  rewrite <- Hcb.
  apply (handleMessage_resolved E Hnf platform conversationId text
           issueContext s (bump (bump (bump s))) conversation _ (Some name)
           Hfind).
  - rewrite Hinvoke. apply andb_false_r.
  - apply (resolvePrompt_invocation E Hnf conversationId _ issueContext
             conversation codebase name arguments commandDef (bump s)
             Hinvoke Hargs Hlinked Hcb Hdef).
  - reflexivity.
  - reflexivity.
Qed.

Lemma invocation_prompt_witness :
  exists before token after,
    new_events linkedState
      (snd (handleMessage telegramStream (js "chat-1")
              (js "command-invoke execute now") (Some (js "Issue 7"))
              (scenarioEnv allUp []) linkedState))
    = before
      ++ EvQuery (js "Do the work." ++ nl ++ nl ++ js "---" ++ nl ++ nl
                  ++ js "Issue 7")
                 (js "/workspace/app") token
      :: after
    /\ Forall silent_event before.
Proof.
  apply (invocation_prompt (scenarioEnv allUp []) telegramStream
           (js "chat-1") (js "command-invoke execute now")
           (Some (js "Issue 7")) linkedState scenarioConversation
           scenarioCodebase (js "execute") [js "now"]
           {| cmd_path := js "execute.md";
              cmd_description := js "execute" |});
    try reflexivity.
  intros op n. reflexivity.
Defined.

(** X25: a free-form message reaches the backend as it was written.  When
    no collaborator fails and the conversation has a codebase linked, a
    message that is neither a slash command nor a bare known command is the
    prompt of the query, character for character (it is not trimmed), and
    the issue context is not appended to it. *)
Theorem free_text_is_the_prompt (E : Env) (platform : Platform)
    (conversationId text : jsstring) (issueContext : option jsstring)
    (s : State) (conversation : Conversation) :
  no_fault E ->
  findConversation (getPlatformType platform) conversationId s
  = Some conversation ->
  startsWith (js "/") (normalizeCommand E text) = false ->
  truthy_opt (conv_codebase_id conversation) = true ->
  let codebase :=
    List.find (id_is (conv_codebase_id conversation)) (codebases s) in
  exists before token after,
    new_events s
      (snd (handleMessage platform conversationId text issueContext E s))
    = before
      ++ EvQuery text (queryDirectory conversation codebase) token
      :: after
    /\ Forall silent_event before.
Proof.
  intros Hnf Hfind Hslash Hlinked.
  assert (Hsame : normalizeCommand E text = text).
  { revert Hslash. unfold normalizeCommand. cbv zeta.
    destruct (_ && _); [|reflexivity]. discriminate. }
  assert (Hinvoke : startsWith (js "/command-invoke") text = false).
  { rewrite Hsame in Hslash.
    exact (startsWith_prefix (js "/") (js "command-invoke") text Hslash). }
  apply (handleMessage_resolved E Hnf platform conversationId text
           issueContext s (bump s) conversation text None Hfind).
  - now rewrite Hslash.
  - unfold resolvePrompt. rewrite Hsame, Hinvoke, Hlinked. reflexivity.
  - reflexivity.
  - reflexivity.
Qed.

Lemma free_text_is_the_prompt_witness :
  exists before token after,
    new_events linkedState
      (snd (handleMessage telegramStream (js "chat-1")
              (js "  fix the login page ") (Some (js "Issue 7"))
              (scenarioEnv allUp []) linkedState))
    = before
      ++ EvQuery (js "  fix the login page ") (js "/workspace/app") token
      :: after
    /\ Forall silent_event before.
Proof.
  apply (free_text_is_the_prompt (scenarioEnv allUp []) telegramStream
           (js "chat-1") (js "  fix the login page ")
           (Some (js "Issue 7")) linkedState scenarioConversation);
    try reflexivity.
  intros op n. reflexivity.
Defined.

(** ** Registering a command and invoking it *)

Lemma writeFile_run (E : Env) (path text : jsstring) (s : State) :
  writeFile path text E s
  = match fault E OpWriteFile (tick s) with
    | Some e => (Throw e, bump s)
    | None => (Ok tt, log (EvWriteFile path text) (bump s))
    end.
Proof.
  unfold writeFile, bind, call, emit, modify.
  destruct (fault E OpWriteFile (tick s)); reflexivity.
Qed.

Lemma or_else_truthy (a : option jsstring) (b c : jsstring) :
  truthy_opt a = true -> or_else a b = or_else a c.
Proof.
  destruct a as [x|]; [|discriminate]. cbn [truthy_opt or_else].
  now intros ->.
Qed.

(** X26: a command set with its text is the command invoked.  When no
    collaborator fails, [/command-set name path words...], for a name other
    than [__proto__], in a conversation that has a working directory and a
    codebase writes the words, joined by single spaces, to the path under
    the working directory; a [/command-invoke name] that follows reads that
    very file, and its prompt is the text of the file with its own
    arguments substituted. *)
Theorem command_set_then_invoke (E : Env) (platform : Platform)
    (conversationId text1 text2 : jsstring)
    (context1 context2 : option jsstring) (s : State)
    (conversation : Conversation) (id name commandPath : jsstring)
    (words arguments : list jsstring) :
  no_fault E ->
  findConversation (getPlatformType platform) conversationId s
  = Some conversation ->
  conv_codebase_id conversation = Some id ->
  truthy id = true ->
  List.find (id_is (Some id)) (codebases s) <> None ->
  truthy_opt (conv_cwd conversation) = true ->
  str_eqb name (js "__proto__") = false ->
  startsWith (js "/") (normalizeCommand E text1) = true ->
  startsWith (js "/command-invoke") (normalizeCommand E text1) = false ->
  parseCommand (normalizeCommand E text1)
  = {| command := js "command-set";
       args := name :: commandPath :: words |} ->
  truthy (join_with (js " ") words) = true ->
  startsWith (js "/command-invoke") (normalizeCommand E text2) = true ->
  args (parseCommand (normalizeCommand E text2)) = name :: arguments ->
  let file :=
    path_join E (or_else (conv_cwd conversation) []) commandPath in
  let s1 :=
    snd (handleMessage platform conversationId text1 context1 E s) in
  let s2 :=
    snd (handleMessage platform conversationId text2 context2 E s1) in
  In (EvWriteFile file (join_with (js " ") words)) (new_events s s1)
  /\ exists n before token after,
       new_events s1 s2
       = before
         ++ EvQuery (invocationPrompt E (file_text E n file) arguments
                                      context2)
                    (or_else (conv_cwd conversation) []) token
         :: after
       /\ Forall silent_event before.
Proof.
  intros Hnf Hfind Hid Htruthy Hcb Hcwd Hname Hslash Hnot Hparse Hwords
    Hinvoke Hargs. cbv zeta.
  destruct (List.find (id_is (Some id)) (codebases s)) as [codebase|] eqn:Hc;
    [clear Hcb|congruence].
  set (def := {| cmd_path := commandPath;
                 cmd_description := js "Custom: " ++ name |}).
  set (file := path_join E (or_else (conv_cwd conversation) []) commandPath).
  assert (Hrun1 : exists s1,
             handleMessage platform conversationId text1 context1 E s
             = (Ok tt, s1)
             /\ new_events s s1
                = [EvWriteFile file (join_with (js " ") words);
                   EvSend conversationId
                     (js "Command '" ++ name ++ js "' registered!" ++ nl
                      ++ js "Path: " ++ commandPath)]
             /\ conversations s1 = conversations s
             /\ List.find (id_is (Some id)) (codebases s1)
                = Some (set_commands (assign name def (commands codebase))
                                     codebase)).
  { unfold handleMessage, handleMessageBody, tryCatch.
    unfold bind at 1, ask.
    rewrite (bind_ok _ _ _ _ _ _
               (getOrCreateConversation_found E _ _ s conversation
                  (Hnf _ _) Hfind)).
    cbv beta zeta. rewrite Hslash, Hnot. cbn [negb andb].
    unfold handleCommand. cbv zeta. rewrite Hparse. cbn [command args].
    literals. unfold case_command_set. rewrite Hid. cbn [truthy_opt].
    rewrite Htruthy. cbn [negb].
    rewrite (or_else_truthy (conv_cwd conversation) (js "/workspace") []
               Hcwd).
    fold file. rewrite Hwords.
    assert (Hor : or_else (Some id) [] = id)
      by (unfold or_else; now rewrite Htruthy).
    rewrite Hor. fold def. unfold registerCommand.
    unfold bind, ask, tryCatch, ret. cbv beta iota zeta.
    rewrite writeFile_run, (Hnf _ _). cbv beta iota zeta.
    rewrite getCodebaseCommands_run, (Hnf _ _). cbv beta iota zeta.
    rewrite updateCodebaseCommands_run, (Hnf _ _). cbv beta iota zeta.
    cbn [modified answer message].
    rewrite sendMessage_run, (Hnf _ _). cbv beta iota zeta.
    cbn [codebases log bump]. rewrite Hc.
    eexists. split; [reflexivity|]. split.
    { apply new_events_app. cbn [trace log bump set_codebases].
      rewrite <- app_assoc. reflexivity. }
    split; [reflexivity|].
    cbn [codebases log bump set_codebases].
    rewrite find_commands_updated, Hc. reflexivity. }
  destruct Hrun1 as (s1 & Hrun1 & Hev1 & Hconv1 & Hcb1).
  rewrite Hrun1. cbn [snd]. split.
  { rewrite Hev1. left. reflexivity. }
  assert (Hfind1 : findConversation (getPlatformType platform)
                                    conversationId s1 = Some conversation)
    by (unfold findConversation in *; now rewrite Hconv1).
  assert (Hlinked : truthy_opt (conv_codebase_id conversation) = true)
    by (rewrite Hid; exact Htruthy).
  rewrite <- Hid in Hcb1.
  pose proof (resolvePrompt_invocation E Hnf conversationId
                (normalizeCommand E text2) context2 conversation _ name
                arguments def (bump s1) Hinvoke Hargs Hlinked Hcb1
                (assoc_assign_stored name def (commands codebase) Hname))
    as Hres.
  cbv zeta in Hres. cbn [cmd_path def set_commands default_cwd] in Hres.
  rewrite (or_else_truthy (conv_cwd conversation) (default_cwd codebase) []
             Hcwd) in Hres.
  fold file in Hres.
  destruct (handleMessage_resolved E Hnf platform conversationId text2
              context2 s1 _ conversation _ _ Hfind1
              ltac:(rewrite Hinvoke; apply andb_false_r) Hres eq_refl
              eq_refl)
    as (before & token & after & Hev2 & Hsilent).
  exists (S (tick (bump s1))), before, token, after.
  split; [|exact Hsilent]. rewrite Hev2. do 3 f_equal.
  unfold queryDirectory. apply or_else_truthy. exact Hcwd.
Qed.

Lemma command_set_then_invoke_witness :
  let E := scenarioEnv allUp [] in
  let s1 :=
    snd (handleMessage telegramStream (js "chat-1")
           (js "/command-set deploy deploy.md Ship it now") None E
           linkedState) in
  let s2 :=
    snd (handleMessage telegramStream (js "chat-1")
           (js "/command-invoke deploy prod") None E s1) in
  In (EvWriteFile (js "/workspace/app/deploy.md") (js "Ship it now"))
     (new_events linkedState s1)
  /\ exists n before token after,
       new_events s1 s2
       = before
         ++ EvQuery (invocationPrompt E
                       (file_text E n (js "/workspace/app/deploy.md"))
                       [js "prod"] None)
                    (js "/workspace/app") token
         :: after
       /\ Forall silent_event before.
Proof.
  apply (command_set_then_invoke (scenarioEnv allUp []) telegramStream
           (js "chat-1") (js "/command-set deploy deploy.md Ship it now")
           (js "/command-invoke deploy prod") None None linkedState
           scenarioConversation (js "cb-1") (js "deploy") (js "deploy.md")
           [js "Ship"; js "it"; js "now"] [js "prod"]);
    try reflexivity.
  - intros op n. reflexivity.
  - discriminate.
Defined.
